(** * Dire Wolf: HDLC framing, DCD aggregation and the transmit scheduler

    A shallow embedding of the bit-level AX.25/HDLC serializer
    (hdlc_send.c), the per-bit HDLC deframer and the DCD matrix
    (hdlc_rec.c) and the transmit scheduler (xmit.c), with the
    properties the specification states about them.

    C [int] values are modelled as [Z]; where the arithmetic of the
    code can leave the range of [int] (the timing of a transmission in
    xmit.c, the size of a data block in dlq.c) the wrap-around is
    written out with [wrap32].  [unsigned char] values are [Z] kept in
    [0, 256) by the operations that write them.  Arrays indexed by
    channel are lists updated with stdpp's list insert.  A failed
    [assert], a call of [exit] and a trapping division end a run. *)

From Stdlib Require Import ZArith List Bool Lia.
From stdpp Require Import base list.

Local Open Scope Z_scope.

(** ** direwolf.h *)

Module Direwolf.

Definition MAX_ADEVS : Z := 3.
Definition MAX_RADIO_CHANS : Z := MAX_ADEVS * 2.
Definition MAX_CHANS : Z := MAX_RADIO_CHANS.
Definition MAX_SUBCHANS : Z := 9.
Definition MAX_SLICERS : Z := 9.

(** [ACHAN2ADEV(n)] is [(n) >> 1]. *)
Definition ACHAN2ADEV (n : Z) : Z := Z.shiftr n 1.

(** C truth value of an [int]. *)
Definition truthy (x : Z) : bool := negb (x =? 0).

(** C logical negation [!x]. *)
Definition lnot (x : Z) : Z := if x =? 0 then 1 else 0.

(** The value an [int] holds after an arithmetic operation whose
    mathematical result is [x]: the result modulo 2^32 in
    [-2^31, 2^31), as on the two's complement machines the program
    runs on. *)
Definition wrap32 (x : Z) : Z := (x + 2 ^ 31) mod 2 ^ 32 - 2 ^ 31.

(** [x / y] on [int]: the quotient rounded towards zero; the machine
    traps on a zero divisor and on [INT_MIN / -1]. *)
Definition int_div (x y : Z) : option Z :=
  if (y =? 0) || ((x =? - 2 ^ 31) && (y =? -1)) then None
  else Some (Z.quot x y).

End Direwolf.

(** ** How a call ends *)

Module Outcome.

(** A call returns, or it stops the program (an [assert] fails, [exit]
    is called, the machine traps, or a pointer that does not point to a
    live object is followed), or the turns given to one of its loops
    are used up. *)
Inductive run (A : Type) : Type :=
| Ok (a : A)
| Abort
| NoFuel.
Arguments Ok {A} a.
Arguments Abort {A}.
Arguments NoFuel {A}.

End Outcome.

(** ** Arithmetic of [int] *)

Module IntFacts.
Import Direwolf.

Lemma wrap32_range x : - 2 ^ 31 <= wrap32 x < 2 ^ 31.
Proof.
  unfold wrap32. pose proof (Z.mod_pos_bound (x + 2 ^ 31) (2 ^ 32) eq_refl). lia.
Qed.

Lemma wrap32_small x : - 2 ^ 31 <= x < 2 ^ 31 -> wrap32 x = x.
Proof. intros Hx. unfold wrap32. rewrite Z.mod_small; lia. Qed.

Lemma wrap32_shift x k : wrap32 (x + k * 2 ^ 32) = wrap32 x.
Proof.
  unfold wrap32.
  replace (x + k * 2 ^ 32 + 2 ^ 31) with (x + 2 ^ 31 + k * 2 ^ 32) by lia.
  by rewrite Z_mod_plus_full.
Qed.

Lemma wrap32_eqm x : exists k, wrap32 x = x + k * 2 ^ 32.
Proof.
  exists (- ((x + 2 ^ 31) / 2 ^ 32)). unfold wrap32.
  rewrite Z.mod_eq by lia. lia.
Qed.

Lemma wrap32_add_l x y : wrap32 (wrap32 x + y) = wrap32 (x + y).
Proof.
  destruct (wrap32_eqm x) as [k ->].
  replace (x + k * 2 ^ 32 + y) with (x + y + k * 2 ^ 32) by lia.
  apply wrap32_shift.
Qed.

Lemma wrap32_mul_l x y : wrap32 (wrap32 x * y) = wrap32 (x * y).
Proof.
  destruct (wrap32_eqm x) as [k ->].
  replace ((x + k * 2 ^ 32) * y) with (x * y + (k * y) * 2 ^ 32) by lia.
  apply wrap32_shift.
Qed.

Lemma int_div_pos x y :
  0 <= x -> 0 < y -> int_div x y = Some (x / y).
Proof.
  intros Hx Hy. unfold int_div.
  destruct (Z.eqb_spec y 0); [lia|].
  destruct (Z.eqb_spec y (-1)); [lia|].
  rewrite andb_false_r. cbn [orb]. by rewrite Z.quot_div_nonneg.
Qed.

Lemma int_div_zero x : int_div x 0 = None.
Proof. reflexivity. Qed.

End IntFacts.

(** ** Bit lists

    Helper vocabulary used to state properties of bit streams. *)

Module Bits.

(** The eight bits of an octet, least significant first, as the
    [for (i = 0; i < 8; i++) { ... x & 1 ...; x >>= 1; }] loops visit them. *)
Fixpoint bits_lsb (n : nat) (x : Z) : list bool :=
  match n with
  | O => []
  | S n' => Z.odd x :: bits_lsb n' (Z.shiftr x 1)
  end.

Definition octet_bits (x : Z) : list bool := bits_lsb 8 x.

Definition octets_bits (l : list Z) : list bool := flat_map octet_bits l.

(** The flag 0x7E, least significant bit first. *)
Definition flag_bits : list bool :=
  [false; true; true; true; true; true; true; false].

(** Bit stuffing as the specification words it: count one bits; after
    five consecutive ones emit a zero and reset the counter; a zero data
    bit resets the counter. *)
Fixpoint stuff_bits (c : nat) (l : list bool) : list bool :=
  match l with
  | [] => []
  | true :: t =>
      if Nat.eqb (S c) 5 then true :: false :: stuff_bits 0 t
      else true :: stuff_bits (S c) t
  | false :: t => false :: stuff_bits 0 t
  end.

(** Value of the ones-run counter after stuffing [l] from counter [c]. *)
Fixpoint stuff_count (c : nat) (l : list bool) : nat :=
  match l with
  | [] => c
  | true :: t => if Nat.eqb (S c) 5 then stuff_count 0 t else stuff_count (S c) t
  | false :: t => stuff_count 0 t
  end.

(** NRZI line coding: a one leaves the line unchanged, a zero inverts it. *)
Fixpoint nrzi_encode (line : bool) (l : list bool) : list bool :=
  match l with
  | [] => []
  | d :: t => let line' := if d then line else negb line in
              line' :: nrzi_encode line' t
  end.

(** Line level after encoding [l] from level [line]. *)
Fixpoint nrzi_last (line : bool) (l : list bool) : bool :=
  match l with
  | [] => line
  | d :: t => nrzi_last (if d then line else negb line) t
  end.

(** NRZI decoding: a data bit is one when the line did not change. *)
Fixpoint nrzi_decode (prev : bool) (l : list bool) : list bool :=
  match l with
  | [] => []
  | r :: t => Bool.eqb r prev :: nrzi_decode r t
  end.

(** [l] contains [n] consecutive one bits somewhere. *)
Definition has_ones_run (n : nat) (l : list bool) : Prop :=
  exists pre post, l = pre ++ replicate n true ++ post.

(** Executable check that no run of ones reaches [k]; [c] is the length
    of the run in progress. *)
Fixpoint runs_below (k c : nat) (l : list bool) : bool :=
  match l with
  | [] => true
  | true :: t => Nat.ltb (S c) k && runs_below k (S c) t
  | false :: t => runs_below k 0 t
  end.

End Bits.

(** ** fcs_calc.c *)

Module Fcs.

(** One bit of the reflected CRC register update. *)
Definition crc_bit (crc : Z) : Z :=
  if Z.odd crc then Z.lxor (Z.shiftr crc 1) 0x8408 else Z.shiftr crc 1.

Definition crc_octet (crc x : Z) : Z :=
  Nat.iter 8 crc_bit (Z.lxor crc (Z.land x 0xff)).

(** Modelled from the spec: the source of [fcs_calc] (fcs_calc.c) is not
    part of the sources at hand.  CCITT CRC-16, initial value 0xFFFF,
    reflected (polynomial 0x1021, i.e. 0x8408 bit-reversed), final XOR
    0xFFFF. *)
Definition fcs_calc (data : list Z) : Z :=
  Z.lxor (fold_left crc_octet data 0xffff) 0xffff.

End Fcs.

(** ** hdlc_send.c *)

Module HdlcSend.
Import Direwolf.

(** One call of [send_bit_nrzi]: the data bit it was given and the line
    level it handed to [tone_gen_put_bit]. *)
Record bit_event : Type := BitEvent { ev_data : Z; ev_line : Z }.

(** The entries for one channel of the static arrays [output],
    [stuff] and [number_of_bits_sent]; every function below reads and
    writes only the entry of its [chan] argument. *)
Record send_state : Type := SendState {
  output : Z;
  stuff : Z;
  number_of_bits_sent : Z
}.

(** State passing with a log of the bits put on the line. *)
Definition Send (A : Type) : Type := send_state -> A * send_state * list bit_event.

Definition ret {A} (a : A) : Send A := fun s => (a, s, []).

Definition bind {A B} (m : Send A) (k : A -> Send B) : Send B :=
  fun s => let '(a, s1, o1) := m s in
           let '(b, s2, o2) := k a s1 in
           (b, s2, o1 ++ o2).

Definition get : Send send_state := fun s => (s, s, []).
Definition put (s : send_state) : Send unit := fun _ => (tt, s, []).
Definition emit (e : bit_event) : Send unit := fun s => (tt, s, [e]).

Notation "'let*' x ':=' m 'in' k" := (bind m (fun x => k))
  (at level 10, x name, m at level 100, k at level 200).
Notation "m ;;; k" := (bind m (fun _ => k))
  (at level 100, right associativity).

Definition set_stuff (v : Z) : Send unit :=
  let* s := get in put (SendState (output s) v (number_of_bits_sent s)).

(** [send_bit_nrzi]: a zero data bit inverts the line, a one leaves it. *)
Definition send_bit_nrzi (b : Z) : Send unit :=
  let* s := get in
  let out := if b =? 0 then lnot (output s) else output s in
  put (SendState out (stuff s) (number_of_bits_sent s + 1)) ;;;
  emit (BitEvent b out).

(** The body of the loop of [send_control_nrzi], [n] iterations left. *)
Fixpoint send_control_loop (n : nat) (x : Z) : Send unit :=
  match n with
  | O => ret tt
  | S n' => send_bit_nrzi (Z.land x 1) ;;;
            send_control_loop n' (Z.shiftr x 1)
  end.

Definition send_control_nrzi (x : Z) : Send unit :=
  send_control_loop 8 x ;;; set_stuff 0.

(** The body of the loop of [send_data_nrzi], [n] iterations left. *)
Fixpoint send_data_loop (n : nat) (x : Z) : Send unit :=
  match n with
  | O => ret tt
  | S n' =>
      send_bit_nrzi (Z.land x 1) ;;;
      (if truthy (Z.land x 1) then
         let* s := get in
         set_stuff (stuff s + 1) ;;;
         (if stuff s + 1 =? 5 then
            send_bit_nrzi 0 ;;; set_stuff 0
          else ret tt)
       else set_stuff 0) ;;;
      send_data_loop n' (Z.shiftr x 1)
  end.

Definition send_data_nrzi (x : Z) : Send unit := send_data_loop 8 x.

(** [for (j = 0; j < flen; j++) send_data_nrzi(chan, fbuf[j]);] *)
Fixpoint send_octets (fbuf : list Z) : Send unit :=
  match fbuf with
  | [] => ret tt
  | x :: t => send_data_nrzi x ;;; send_octets t
  end.

(** [ax25_only_hdlc_send_frame]; [fbuf] holds the [flen] octets of the
    frame.  The result is the value of [number_of_bits_sent]. *)
Definition ax25_only_hdlc_send_frame (fbuf : list Z) (bad_fcs : Z) : Send Z :=
  let* s0 := get in
  put (SendState (output s0) (stuff s0) 0) ;;;
  send_control_nrzi 0x7e ;;;
  send_octets fbuf ;;;
  let fcs := Fcs.fcs_calc fbuf in
  (if truthy bad_fcs then
     send_data_nrzi (Z.land (Z.lnot fcs) 0xff) ;;;
     send_data_nrzi (Z.land (Z.shiftr (Z.lnot fcs) 8) 0xff)
   else
     send_data_nrzi (Z.land fcs 0xff) ;;;
     send_data_nrzi (Z.land (Z.shiftr fcs 8) 0xff)) ;;;
  send_control_nrzi 0x7e ;;;
  let* s := get in
  ret (number_of_bits_sent s).

(** [layer2_preamble_postamble] without the final [audio_flush]. *)
Fixpoint send_flags (nbytes : nat) : Send unit :=
  match nbytes with
  | O => ret tt
  | S n => send_control_nrzi 0x7e ;;; send_flags n
  end.

Definition data_bits (l : list bit_event) : list bool :=
  map (fun e => truthy (ev_data e)) l.

Definition line_bits (l : list bit_event) : list bool :=
  map (fun e => truthy (ev_line e)) l.

End HdlcSend.

(** ** Facts about bit lists *)

Module BitsFacts.
Import Bits.

Lemma runs_below_replicate k c j post :
  runs_below k c (replicate j true ++ post) = true -> (j = 0 \/ c + j < k)%nat.
Proof.
  revert c; induction j as [|j IH]; intros c H; [by left|right].
  simpl in H. apply andb_prop in H as [H1 H2].
  apply Nat.ltb_lt in H1. destruct (IH _ H2) as [->|]; lia.
Qed.

Lemma runs_below_no_run k c l :
  (0 < k)%nat -> runs_below k c l = true -> ~ has_ones_run k l.
Proof.
  intros Hk H (pre & post & ->). revert c H.
  induction pre as [|a pre IH]; intros c H.
  - apply runs_below_replicate in H. lia.
  - destruct a; simpl in H.
    + apply andb_prop in H as [_ H]. eauto.
    + eauto.
Qed.

Lemma stuff_bits_runs_below c l :
  (c < 5)%nat -> runs_below 6 c (stuff_bits c l) = true.
Proof.
  revert c; induction l as [|[] l IH]; intros c Hc;
    cbn [stuff_bits runs_below]; auto.
  - assert (Hlt : Nat.ltb (S c) 6 = true) by (apply Nat.ltb_lt; lia).
    destruct (Nat.eqb_spec (S c) 5) as [E|E];
      cbn [runs_below]; rewrite Hlt; cbn [andb]; apply IH; lia.
  - apply IH; lia.
Qed.

Lemma stuff_count_lt c l : (c < 5)%nat -> (stuff_count c l < 5)%nat.
Proof.
  revert c; induction l as [|[] l IH]; intros c Hc; cbn [stuff_count]; auto.
  - destruct (Nat.eqb_spec (S c) 5); apply IH; lia.
  - apply IH; lia.
Qed.

Lemma stuff_bits_app c l1 l2 :
  stuff_bits c (l1 ++ l2) = stuff_bits c l1 ++ stuff_bits (stuff_count c l1) l2.
Proof.
  revert c; induction l1 as [|[] l1 IH]; intros c;
    cbn [stuff_bits stuff_count app]; auto.
  - destruct (Nat.eqb (S c) 5); cbn [app]; by rewrite IH.
  - by rewrite IH.
Qed.

Lemma stuff_count_app c l1 l2 :
  stuff_count c (l1 ++ l2) = stuff_count (stuff_count c l1) l2.
Proof.
  revert c; induction l1 as [|[] l1 IH]; intros c;
    cbn [stuff_count app]; auto.
  destruct (Nat.eqb (S c) 5); by rewrite IH.
Qed.

Lemma nrzi_encode_app line l1 l2 :
  nrzi_encode line (l1 ++ l2) =
  nrzi_encode line l1 ++ nrzi_encode (nrzi_last line l1) l2.
Proof.
  revert line; induction l1 as [|d l1 IH]; intros line; simpl; auto.
  by rewrite IH.
Qed.

Lemma nrzi_last_app line l1 l2 :
  nrzi_last line (l1 ++ l2) = nrzi_last (nrzi_last line l1) l2.
Proof.
  revert line; induction l1 as [|d l1 IH]; intros line; simpl; auto.
Qed.

Lemma nrzi_encode_length line l : length (nrzi_encode line l) = length l.
Proof. revert line; induction l; intros; simpl; auto. Qed.

Lemma nrzi_decode_encode line l :
  nrzi_decode line (nrzi_encode line l) = l.
Proof.
  revert line; induction l as [|d l IH]; intros line; simpl; auto.
  rewrite IH. f_equal. by destruct d, line.
Qed.

Lemma bits_lsb_length n x : length (bits_lsb n x) = n.
Proof. revert x; induction n; intros; simpl; auto. Qed.

Lemma octets_bits_length l : length (octets_bits l) = (8 * length l)%nat.
Proof.
  unfold octets_bits. induction l as [|x l IH]; cbn [flat_map length]; auto.
  rewrite length_app, IH. unfold octet_bits. rewrite bits_lsb_length. lia.
Qed.

Lemma octets_bits_app l1 l2 :
  octets_bits (l1 ++ l2) = octets_bits l1 ++ octets_bits l2.
Proof. unfold octets_bits. by rewrite flat_map_app. Qed.

Lemma stuff_bits_length_ge c l : (length l <= length (stuff_bits c l))%nat.
Proof.
  revert c; induction l as [|[] l IH]; intros c;
    cbn [stuff_bits length]; auto.
  - destruct (Nat.eqb (S c) 5); cbn [length].
    + specialize (IH 0%nat). lia.
    + specialize (IH (S c)). lia.
  - specialize (IH 0%nat). lia.
Qed.

End BitsFacts.

(** ** The serializer as a function on bit lists *)

Module HdlcSendFacts.
Import Direwolf Bits BitsFacts HdlcSend.

(** The calls of [send_bit_nrzi] for the data bits [l], starting from
    line level [line]. *)
Fixpoint mk_events (line : Z) (l : list bool) : list bit_event :=
  match l with
  | [] => []
  | d :: t => let out := if d then line else lnot line in
              BitEvent (Z.b2z d) out :: mk_events out t
  end.

Fixpoint line_after (line : Z) (l : list bool) : Z :=
  match l with
  | [] => line
  | d :: t => line_after (if d then line else lnot line) t
  end.

Lemma mk_events_app line l1 l2 :
  mk_events line (l1 ++ l2) = mk_events line l1 ++ mk_events (line_after line l1) l2.
Proof.
  revert line; induction l1 as [|d l1 IH]; intros line; cbn [mk_events line_after app]; auto.
  by rewrite IH.
Qed.

Lemma line_after_app line l1 l2 :
  line_after line (l1 ++ l2) = line_after (line_after line l1) l2.
Proof.
  revert line; induction l1 as [|d l1 IH]; intros line; cbn [line_after app]; auto.
Qed.

Lemma mk_events_length line l : length (mk_events line l) = length l.
Proof. revert line; induction l; intros; cbn [mk_events length]; auto. Qed.

Lemma truthy_b2z d : truthy (Z.b2z d) = d.
Proof. by destruct d. Qed.

Lemma truthy_lnot x : truthy (lnot x) = negb (truthy x).
Proof. unfold truthy, lnot. by destruct (x =? 0). Qed.

Lemma data_bits_mk_events line l : data_bits (mk_events line l) = l.
Proof.
  unfold data_bits. revert line; induction l as [|d l IH]; intros line;
    cbn [mk_events map]; auto.
  rewrite IH. cbn [ev_data]. by rewrite truthy_b2z.
Qed.

Lemma line_bits_mk_events line l :
  line_bits (mk_events line l) = nrzi_encode (truthy line) l.
Proof.
  unfold line_bits. revert line; induction l as [|d l IH]; intros line;
    cbn [mk_events map nrzi_encode]; auto.
  rewrite IH. cbn [ev_line]. destruct d; by rewrite ?truthy_lnot.
Qed.

Lemma truthy_line_after line l :
  truthy (line_after line l) = nrzi_last (truthy line) l.
Proof.
  revert line; induction l as [|d l IH]; intros line; cbn [line_after nrzi_last]; auto.
  rewrite IH. destruct d; by rewrite ?truthy_lnot.
Qed.

Lemma land_1_odd x : Z.land x 1 = Z.b2z (Z.odd x).
Proof.
  change 1 with (Z.ones 1). rewrite Z.land_ones by lia.
  rewrite <- Z.bit0_odd. symmetry. apply Z.bit0_mod.
Qed.

Lemma send_bit_nrzi_run d s :
  send_bit_nrzi (Z.b2z d) s =
  (tt, SendState (line_after (output s) [d]) (stuff s) (number_of_bits_sent s + 1),
   mk_events (output s) [d]).
Proof. by destruct d. Qed.

Lemma send_control_loop_run n x s :
  send_control_loop n x s =
  (tt, SendState (line_after (output s) (bits_lsb n x)) (stuff s)
                 (number_of_bits_sent s + Z.of_nat n),
   mk_events (output s) (bits_lsb n x)).
Proof.
  revert x s; induction n as [|n IH]; intros x s.
  - destruct s; cbn. by rewrite Z.add_0_r.
  - cbn [send_control_loop bits_lsb]. unfold bind.
    rewrite land_1_odd, send_bit_nrzi_run, IH.
    cbn [output stuff number_of_bits_sent line_after mk_events app].
    do 2 f_equal. f_equal. lia.
Qed.

Lemma send_control_nrzi_run x s :
  send_control_nrzi x s =
  (tt, SendState (line_after (output s) (octet_bits x)) 0
                 (number_of_bits_sent s + 8),
   mk_events (output s) (octet_bits x)).
Proof.
  unfold send_control_nrzi, bind. rewrite send_control_loop_run.
  cbn [set_stuff bind get put output number_of_bits_sent].
  unfold octet_bits. by rewrite app_nil_r.
Qed.

Lemma send_data_loop_run n x s c :
  stuff s = Z.of_nat c -> (c < 5)%nat ->
  send_data_loop n x s =
  (tt, SendState (line_after (output s) (stuff_bits c (bits_lsb n x)))
                 (Z.of_nat (stuff_count c (bits_lsb n x)))
                 (number_of_bits_sent s
                  + Z.of_nat (length (stuff_bits c (bits_lsb n x)))),
   mk_events (output s) (stuff_bits c (bits_lsb n x))).
Proof.
  revert x s c; induction n as [|n IH]; intros x s c Hs Hc.
  - destruct s; cbn in *. subst. by rewrite Z.add_0_r.
  - cbn [send_data_loop bits_lsb]. unfold bind at 1.
    rewrite land_1_odd, send_bit_nrzi_run, truthy_b2z.
    destruct (Z.odd x); cbn [stuff_bits stuff_count].
    + cbv [bind get set_stuff put ret]. cbn [output stuff number_of_bits_sent].
      rewrite Hs.
      destruct (Nat.eqb_spec (S c) 5) as [E|E].
      * replace (Z.of_nat c + 1 =? 5) with true by (symmetry; apply Z.eqb_eq; lia).
        rewrite (send_bit_nrzi_run false).
        cbn [output stuff number_of_bits_sent].
        rewrite (IH _ _ 0%nat) by (cbn; auto; lia).
        cbn [output stuff number_of_bits_sent line_after mk_events app length].
        do 2 f_equal. f_equal. lia.
      * replace (Z.of_nat c + 1 =? 5) with false by (symmetry; apply Z.eqb_neq; lia).
        rewrite (IH _ _ (S c)) by (cbn [stuff]; lia).
        cbn [output stuff number_of_bits_sent line_after mk_events app length].
        do 2 f_equal. f_equal. lia.
    + cbv [bind get set_stuff put ret]. cbn [output stuff number_of_bits_sent].
      rewrite (IH _ _ 0%nat) by (cbn; auto; lia).
      cbn [output stuff number_of_bits_sent line_after mk_events app length].
      do 2 f_equal. f_equal. lia.
Qed.

Lemma send_data_nrzi_run x s c :
  stuff s = Z.of_nat c -> (c < 5)%nat ->
  send_data_nrzi x s =
  (tt, SendState (line_after (output s) (stuff_bits c (octet_bits x)))
                 (Z.of_nat (stuff_count c (octet_bits x)))
                 (number_of_bits_sent s
                  + Z.of_nat (length (stuff_bits c (octet_bits x)))),
   mk_events (output s) (stuff_bits c (octet_bits x))).
Proof. apply send_data_loop_run. Qed.

Lemma send_octets_run fbuf s c :
  stuff s = Z.of_nat c -> (c < 5)%nat ->
  send_octets fbuf s =
  (tt, SendState (line_after (output s) (stuff_bits c (octets_bits fbuf)))
                 (Z.of_nat (stuff_count c (octets_bits fbuf)))
                 (number_of_bits_sent s
                  + Z.of_nat (length (stuff_bits c (octets_bits fbuf)))),
   mk_events (output s) (stuff_bits c (octets_bits fbuf))).
Proof.
  unfold octets_bits.
  revert s c; induction fbuf as [|x fbuf IH]; intros s c Hs Hc.
  - destruct s; cbn in *. subst. by rewrite Z.add_0_r.
  - cbn [send_octets flat_map]. unfold bind.
    rewrite (send_data_nrzi_run _ _ c) by done.
    rewrite (IH _ (stuff_count c (octet_bits x)))
      by (cbn [stuff]; auto using stuff_count_lt).
    cbn [output stuff number_of_bits_sent].
    rewrite stuff_bits_app, stuff_count_app, line_after_app, mk_events_app, length_app.
    do 2 f_equal. f_equal. lia.
Qed.

(** The two octets sent after the frame: the FCS, low octet first, or
    its complement when [bad_fcs] is set. *)
Definition fcs_octets (fbuf : list Z) (bad_fcs : Z) : list Z :=
  let fcs := Fcs.fcs_calc fbuf in
  if truthy bad_fcs
  then [Z.land (Z.lnot fcs) 0xff; Z.land (Z.shiftr (Z.lnot fcs) 8) 0xff]
  else [Z.land fcs 0xff; Z.land (Z.shiftr fcs 8) 0xff].

(** The data bits between the two flags. *)
Definition frame_body_bits (fbuf : list Z) (bad_fcs : Z) : list bool :=
  stuff_bits 0 (octets_bits (fbuf ++ fcs_octets fbuf bad_fcs)).

Definition frame_bits (fbuf : list Z) (bad_fcs : Z) : list bool :=
  flag_bits ++ frame_body_bits fbuf bad_fcs ++ flag_bits.

Lemma send_frame_run fbuf bad_fcs s :
  ax25_only_hdlc_send_frame fbuf bad_fcs s =
  (Z.of_nat (length (frame_bits fbuf bad_fcs)),
   SendState (line_after (output s) (frame_bits fbuf bad_fcs)) 0
             (Z.of_nat (length (frame_bits fbuf bad_fcs))),
   mk_events (output s) (frame_bits fbuf bad_fcs)).
Proof.
  unfold ax25_only_hdlc_send_frame, frame_bits, frame_body_bits.
  rewrite octets_bits_app, stuff_bits_app.
  set (body1 := stuff_bits 0 (octets_bits fbuf)).
  set (c1 := stuff_count 0 (octets_bits fbuf)).
  assert (Hc1 : (c1 < 5)%nat) by (apply stuff_count_lt; lia).
  assert (Hfcs : forall a b s1, stuff s1 = Z.of_nat c1 ->
     (send_data_nrzi a ;;; send_data_nrzi b) s1 =
     (tt, SendState (line_after (output s1) (stuff_bits c1 (octets_bits [a; b])))
                    (Z.of_nat (stuff_count c1 (octets_bits [a; b])))
                    (number_of_bits_sent s1
                     + Z.of_nat (length (stuff_bits c1 (octets_bits [a; b])))),
      mk_events (output s1) (stuff_bits c1 (octets_bits [a; b])))).
  { intros a b s1 Hs1. unfold bind.
    rewrite (send_data_nrzi_run _ _ c1) by done.
    rewrite (send_data_nrzi_run _ _ (stuff_count c1 (octet_bits a)))
      by (cbn [stuff]; auto using stuff_count_lt).
    cbv [ret]. cbn [output stuff number_of_bits_sent].
    unfold octets_bits. cbn [flat_map]. rewrite !app_nil_r.
    rewrite stuff_bits_app, stuff_count_app, line_after_app, mk_events_app, length_app.
    do 2 f_equal. f_equal. lia. }
  unfold bind at 1 2 3 4. cbv [get put]. rewrite send_control_nrzi_run.
  cbn [output stuff number_of_bits_sent].
  rewrite (send_octets_run _ _ 0%nat) by (cbn [stuff]; auto; lia).
  fold body1 c1. cbn [output stuff number_of_bits_sent].
  unfold fcs_octets.
  destruct (truthy bad_fcs); unfold bind at 1; rewrite Hfcs by done;
    unfold bind; rewrite send_control_nrzi_run; cbv [ret];
    cbn [output stuff number_of_bits_sent];
    change (octet_bits 126) with flag_bits;
    rewrite !line_after_app, !mk_events_app, !length_app;
    cbn [app]; rewrite ?line_after_app, <- ?app_assoc;
    change (length flag_bits) with 8%nat;
    repeat (match goal with |- (_, _) = (_, _) => f_equal end);
    first [reflexivity | lia | f_equal; lia].
Qed.

End HdlcSendFacts.

(** ** Properties of the serializer *)

Module HdlcSendSpec.
Import Direwolf Bits BitsFacts HdlcSend HdlcSendFacts.

(** C2. For every frame buffer, every [bad_fcs] and every preceding
    state of the channel (line level, ones-run counter, bit count),
    [ax25_only_hdlc_send_frame] sends the flag octet first, then the
    payload and FCS octets stuffed as the specification words it (a zero
    after five consecutive ones, counter reset by a zero bit and by the
    flags), then the flag again; the stuffed section has no run of six
    one bits; the line levels are the NRZI coding of these data bits;
    the result counts every bit sent; the counter is zero afterwards. *)
Theorem send_frame_bit_stuffing (fbuf : list Z) (bad_fcs : Z) (s : send_state) :
  let '(nbits, s', sent) := ax25_only_hdlc_send_frame fbuf bad_fcs s in
  let body := stuff_bits 0 (octets_bits (fbuf ++ fcs_octets fbuf bad_fcs)) in
  data_bits sent = flag_bits ++ body ++ flag_bits
  /\ ~ has_ones_run 6 body
  /\ line_bits sent = nrzi_encode (truthy (output s)) (data_bits sent)
  /\ nbits = Z.of_nat (length sent)
  /\ number_of_bits_sent s' = nbits
  /\ stuff s' = 0.
Proof.
  rewrite send_frame_run. cbv zeta.
  rewrite data_bits_mk_events, line_bits_mk_events, mk_events_length.
  repeat split.
  apply (runs_below_no_run 6 0); [lia|]. apply stuff_bits_runs_below. lia.
Qed.

End HdlcSendSpec.

(** ** rrbb.c *)

Module Rrbb.

(** Audio level descriptor: received level, mark and space. *)
Record alevel_t : Type := ALevel { al_rec : Z; al_mark : Z; al_space : Z }.

Definition alevel_none : alevel_t := ALevel (-1) (-1) (-1).

(** Modelled from the spec: the raw-bit buffer (rrbb.c) is not part of
    the sources at hand.  The specification asks for an opaque bit
    vector with append, length, chop-last-N and indexed read; the
    buffer also remembers where it came from and the values it was
    created or cleared with. *)
Record rrbb_t : Type := RRBB {
  rr_chan : Z;
  rr_subchan : Z;
  rr_slice : Z;
  rr_is_scrambled : Z;
  rr_descram_state : Z;
  rr_prev_descram : Z;
  rr_alevel : alevel_t;
  rr_data : list Z
}.

Definition rrbb_new (chan subchan slice is_scrambled descram_state prev_descram : Z)
  : rrbb_t :=
  RRBB chan subchan slice is_scrambled descram_state prev_descram alevel_none [].

Definition rrbb_clear (b : rrbb_t) (is_scrambled descram_state prev_descram : Z)
  : rrbb_t :=
  RRBB (rr_chan b) (rr_subchan b) (rr_slice b)
       is_scrambled descram_state prev_descram alevel_none [].

Definition rrbb_set_data (b : rrbb_t) (d : list Z) : rrbb_t :=
  RRBB (rr_chan b) (rr_subchan b) (rr_slice b) (rr_is_scrambled b)
       (rr_descram_state b) (rr_prev_descram b) (rr_alevel b) d.

Definition rrbb_append_bit (b : rrbb_t) (val : Z) : rrbb_t :=
  rrbb_set_data b (rr_data b ++ [val]).

Definition rrbb_chop8 (b : rrbb_t) : rrbb_t :=
  rrbb_set_data b (take (length (rr_data b) - 8) (rr_data b)).

Definition rrbb_get_len (b : rrbb_t) : Z := Z.of_nat (length (rr_data b)).

Definition rrbb_get_bit (b : rrbb_t) (i : nat) : Z := default 0 (rr_data b !! i).

Definition rrbb_set_audio_level (b : rrbb_t) (a : alevel_t) : rrbb_t :=
  RRBB (rr_chan b) (rr_subchan b) (rr_slice b) (rr_is_scrambled b)
       (rr_descram_state b) (rr_prev_descram b) a (rr_data b).

End Rrbb.

(** ** hdlc_rec.c: the deframer *)

Module HdlcRec.
Import Direwolf Rrbb.

Section Deframer.

(** [AX25_MIN_PACKET_LEN] and [AX25_MAX_PACKET_LEN] come from ax25_pad.h,
    which is not part of the sources at hand; they are parameters. *)
Variables AX25_MIN_PACKET_LEN AX25_MAX_PACKET_LEN : Z.

Definition MIN_FRAME_LEN : Z := AX25_MIN_PACKET_LEN + 2.
Definition MAX_FRAME_LEN : Z := AX25_MAX_PACKET_LEN + 2.

(** [struct hdlc_state_s], without the fields of the EAS decoder, which
    [hdlc_rec_bit] does not touch. *)
Record hdlc_state_s : Type := HdlcState {
  prev_raw : Z;
  lfsr : Z;
  prev_descram : Z;
  pat_det : Z;
  flag4_det : Z;
  oacc : Z;
  olen : Z;
  frame_buf : list Z;
  frame_len : Z;
  rrbb : rrbb_t
}.

(** [x >>= 1; if (dbit) x |= top;] *)
Definition shift_in (x dbit top : Z) : Z :=
  if truthy dbit then Z.lor (Z.shiftr x 1) top else Z.shiftr x 1.

(** The entry of the static array [hdlc_state] before [hdlc_rec_init]:
    static storage is zero, the buffer handle is not set, which the
    empty buffer stands for. *)
Definition hdlc_state_static (chan subchan slice : Z) : hdlc_state_s :=
  HdlcState 0 0 0 0 0 0 0 (replicate (Z.to_nat MAX_FRAME_LEN) 0) 0
            (rrbb_new chan subchan slice 0 0 0).

(** What [hdlc_rec_init] does to the entry of a radio channel:
    [H->olen = -1] and a new buffer. *)
Definition hdlc_rec_init (chan subchan slice : Z) : hdlc_state_s :=
  let H := hdlc_state_static chan subchan slice in
  HdlcState (prev_raw H) (lfsr H) (prev_descram H) (pat_det H) (flag4_det H)
            (oacc H) (-1) (frame_buf H) (frame_len H)
            (rrbb_new chan subchan slice 0 (lfsr H) (prev_descram H)).

(** [hdlc_rec_bit] on the state entry [H] of [(chan, subchan, slice)].
    [ber_hit] says whether the bit-error injection decided to invert
    this bit ([recv_ber != 0 && recv_ber > r]); [alevel] is what
    [demod_get_audio_level] returns.  The result is the new entry and
    the buffer handed to [hdlc_rec2_block], if any.  The call of
    [fx25_rec_bit] is outside this model. *)
Definition hdlc_rec_bit (chan subchan slice : Z) (raw is_scrambled : Z)
    (ber_hit : bool) (alevel : alevel_t) (H : hdlc_state_s)
  : hdlc_state_s * option rrbb_t :=
  let raw := if ber_hit then lnot raw else raw in
  let dbit := Z.b2z (raw =? prev_raw H) in
  let pat := shift_in (pat_det H) dbit 0x80 in
  let f4 := shift_in (flag4_det H) dbit 0x80000000 in
  let rr := rrbb_append_bit (rrbb H) raw in
  if pat =? 0x7e then
    let rr := rrbb_chop8 rr in
    let '(handoff, rr) :=
      if rrbb_get_len rr >=? MIN_FRAME_LEN * 8 then
        (Some (rrbb_set_audio_level rr alevel),
         rrbb_new chan subchan slice is_scrambled (lfsr H) (prev_descram H))
      else
        (None, rrbb_clear rr is_scrambled (lfsr H) (prev_descram H)) in
    (HdlcState raw (lfsr H) (prev_descram H) pat f4 (oacc H) 0
               (frame_buf H) 0 (rrbb_append_bit rr raw),
     handoff)
  else if pat =? 0xfe then
    (HdlcState raw (lfsr H) (prev_descram H) pat f4 (oacc H) (-1)
               (frame_buf H) 0
               (rrbb_clear rr is_scrambled (lfsr H) (prev_descram H)),
     None)
  else if Z.land pat 0xfc =? 0x7c then
    (HdlcState raw (lfsr H) (prev_descram H) pat f4 (oacc H) (olen H)
               (frame_buf H) (frame_len H) rr,
     None)
  else if olen H >=? 0 then
    let oacc' := shift_in (oacc H) dbit 0x80 in
    let olen' := olen H + 1 in
    if olen' =? 8 then
      if frame_len H <? MAX_FRAME_LEN then
        (HdlcState raw (lfsr H) (prev_descram H) pat f4 oacc' 0
                   (<[Z.to_nat (frame_len H) := oacc']> (frame_buf H))
                   (frame_len H + 1) rr,
         None)
      else
        (HdlcState raw (lfsr H) (prev_descram H) pat f4 oacc' 0
                   (frame_buf H) (frame_len H) rr,
         None)
    else
      (HdlcState raw (lfsr H) (prev_descram H) pat f4 oacc' olen'
                 (frame_buf H) (frame_len H) rr,
       None)
  else
    (HdlcState raw (lfsr H) (prev_descram H) pat f4 (oacc H) (olen H)
               (frame_buf H) (frame_len H) rr,
     None).

(** One call of [hdlc_rec_bit] as seen from the demodulator. *)
Record rec_call : Type := RecCall {
  rc_raw : Z;
  rc_is_scrambled : Z;
  rc_ber_hit : bool;
  rc_alevel : alevel_t
}.

(** A sequence of calls on one [(chan, subchan, slice)]: the final
    state and the buffers handed to [hdlc_rec2_block], in order. *)
Fixpoint hdlc_rec_bits (chan subchan slice : Z) (calls : list rec_call)
    (H : hdlc_state_s) : hdlc_state_s * list rrbb_t :=
  match calls with
  | [] => (H, [])
  | c :: t =>
      let '(H1, h) := hdlc_rec_bit chan subchan slice (rc_raw c)
                        (rc_is_scrambled c) (rc_ber_hit c) (rc_alevel c) H in
      let '(H2, hs) := hdlc_rec_bits chan subchan slice t H1 in
      (H2, match h with Some b => b :: hs | None => hs end)
  end.

End Deframer.

End HdlcRec.

(** ** Properties of the deframer *)

Module HdlcRecSpec.
Import Direwolf Rrbb HdlcRec.

(** Turn boolean comparisons in the context into propositions. *)
Ltac zbool :=
  repeat match goal with
         | E : (_ =? _) = true |- _ => apply Z.eqb_eq in E
         | E : (_ =? _) = false |- _ => apply Z.eqb_neq in E
         | E : (_ <? _) = true |- _ => apply Z.ltb_lt in E
         | E : (_ <? _) = false |- _ => apply Z.ltb_ge in E
         | E : (_ >=? _) = true |- _ => rewrite Z.geb_leb in E; apply Z.leb_le in E
         | E : (_ >=? _) = false |- _ => rewrite Z.geb_leb in E; apply Z.leb_gt in E
         end.

(** Split a goal about [hdlc_rec_bit] along the branches of the code. *)
Ltac rec_bit_cases :=
  unfold hdlc_rec_bit;
  repeat match goal with
         | |- context [if ?b then _ else _] =>
             lazymatch b with
             | Z.eqb _ _ => destruct b eqn:?
             | Z.ltb _ _ => destruct b eqn:?
             | Z.geb _ _ => destruct b eqn:?
             end
         end;
  zbool.

Section Invariants.

Variables AX25_MIN_PACKET_LEN AX25_MAX_PACKET_LEN : Z.

Abbreviation MAX_FRAME_LEN := (MAX_FRAME_LEN AX25_MAX_PACKET_LEN).
Abbreviation hdlc_rec_bit := (hdlc_rec_bit AX25_MIN_PACKET_LEN AX25_MAX_PACKET_LEN).
Abbreviation hdlc_rec_bits := (hdlc_rec_bits AX25_MIN_PACKET_LEN AX25_MAX_PACKET_LEN).

(** The invariants of the decoder state the specification lists. *)
Definition state_inv (H : hdlc_state_s) : Prop :=
  (olen H = -1 \/ 0 <= olen H <= 8) /\ 0 <= frame_len H <= MAX_FRAME_LEN.

(** The inductive form: between calls [olen] never stays at 8. *)
Definition state_inv_strong (H : hdlc_state_s) : Prop :=
  (olen H = -1 \/ 0 <= olen H <= 7) /\ 0 <= frame_len H <= MAX_FRAME_LEN.

Lemma state_inv_strong_inv H : state_inv_strong H -> state_inv H.
Proof. unfold state_inv_strong, state_inv. lia. Qed.

Lemma hdlc_rec_bit_inv chan subchan slice raw scr ber al H :
  state_inv_strong H ->
  state_inv_strong (fst (hdlc_rec_bit chan subchan slice raw scr ber al H)).
Proof.
  intros [Ho Hf]. unfold state_inv_strong.
  rec_bit_cases; cbn [fst olen frame_len]; lia.
Qed.

Lemma hdlc_rec_bits_inv chan subchan slice calls H :
  state_inv_strong H ->
  state_inv_strong (fst (hdlc_rec_bits chan subchan slice calls H)).
Proof.
  revert H; induction calls as [|c calls IH]; intros H HI; [done|].
  cbn [HdlcRec.hdlc_rec_bits].
  pose proof (hdlc_rec_bit_inv chan subchan slice (rc_raw c)
                (rc_is_scrambled c) (rc_ber_hit c) (rc_alevel c) H HI) as H1.
  destruct (hdlc_rec_bit _ _ _ _ _ _ _ H) as [H' h].
  specialize (IH H' H1).
  destruct (hdlc_rec_bits _ _ _ calls H') as [H2 hs]. exact IH.
Qed.

(** C8. From the state [hdlc_rec_init] leaves, after every call of every
    sequence of calls of [hdlc_rec_bit] (every prefix [take n calls]),
    [olen] is -1 or in [0, 8] and [frame_len] is in [0, MAX_FRAME_LEN];
    and from any state whose frame buffer is full, one more call leaves
    the buffer as it is and [frame_len] at the limit or back at 0: the
    octet is not appended. *)
Theorem hdlc_rec_bit_state_invariants
    (Hmax : 0 <= MAX_FRAME_LEN) (chan subchan slice : Z) :
  (forall (calls : list rec_call) (n : nat),
      state_inv (fst (hdlc_rec_bits chan subchan slice (take n calls)
                        (hdlc_rec_init AX25_MAX_PACKET_LEN chan subchan slice))))
  /\ (forall raw scr ber al H,
        frame_len H = MAX_FRAME_LEN ->
        let H' := fst (hdlc_rec_bit chan subchan slice raw scr ber al H) in
        frame_buf H' = frame_buf H
        /\ (frame_len H' = MAX_FRAME_LEN \/ frame_len H' = 0)).
Proof.
  split.
  - intros calls n. apply state_inv_strong_inv, hdlc_rec_bits_inv.
    unfold state_inv_strong, hdlc_rec_init, hdlc_state_static;
      cbn [olen frame_len]. lia.
  - intros raw scr ber al H Hfull. cbv zeta.
    rec_bit_cases; cbn [fst frame_buf frame_len]; try (split; [reflexivity|lia]).
    lia.
Qed.

(** The abort branch: whenever the pattern detector, after the new bit
    is shifted in, equals 0xFE, the call sets [olen] to -1 and
    [frame_len] to 0, empties the raw-bit buffer and hands nothing on. *)
Lemma hdlc_rec_bit_abort chan subchan slice raw scr ber al H :
  let r := hdlc_rec_bit chan subchan slice raw scr ber al H in
  pat_det (fst r) = 0xfe ->
  olen (fst r) = -1 /\ frame_len (fst r) = 0
  /\ rr_data (rrbb (fst r)) = [] /\ snd r = None.
Proof.
  cbv zeta. rec_bit_cases; cbn [fst snd pat_det olen frame_len rrbb];
    intros Hp; try (exfalso; lia); auto.
Qed.

(** C9, as the code has it: when the high six bits of the pattern
    detector, after the new bit is shifted in, are [011111] (mask 0xFC,
    value 0x7C: the new bit is a zero and the five before it are ones)
    and the detector is not the flag 0x7E, the call drops the bit: the
    octet accumulator, [olen], the frame buffer and [frame_len] stay as
    they are and nothing is handed on. *)
Theorem hdlc_rec_bit_destuff chan subchan slice raw scr ber al H :
  let r := hdlc_rec_bit chan subchan slice raw scr ber al H in
  Z.land (pat_det (fst r)) 0xfc = 0x7c ->
  pat_det (fst r) <> 0x7e ->
  oacc (fst r) = oacc H /\ olen (fst r) = olen H
  /\ frame_buf (fst r) = frame_buf H /\ frame_len (fst r) = frame_len H
  /\ snd r = None.
Proof.
  cbv zeta. rec_bit_cases; cbn [fst snd pat_det oacc olen frame_buf frame_len];
    intros Hm Hne; auto; try (exfalso; lia).
  all: exfalso; match goal with
       | E : ?p = 254 |- _ => rewrite E in Hm; discriminate Hm
       end.
Qed.

End Invariants.

(** A state in mid-frame used by the examples below. *)
Definition example_state (pat : Z) : hdlc_state_s :=
  HdlcState 0 0 0 pat 0 0x80 0 (replicate 258 0) 0 (rrbb_new 0 0 0 0 0 0).

(** C9 as worded fails: with the LOW six bits of the detector equal to
    [011111] (0x1F), or to [111110] (0x3E), a zero bit is shifted into
    the accumulator and [olen] grows. *)
Lemma destuff_low_six_bits_counterexample :
  (let r := hdlc_rec_bit 15 256 0 0 0 1 0 false alevel_none (example_state 0x3e) in
   Z.land (pat_det (fst r)) 0x3f = 0x1f
   /\ olen (fst r) = olen (example_state 0x3e) + 1
   /\ oacc (fst r) <> oacc (example_state 0x3e))
  /\
  (let r := hdlc_rec_bit 15 256 0 0 0 1 0 false alevel_none (example_state 0x7c) in
   Z.land (pat_det (fst r)) 0x3f = 0x3e
   /\ olen (fst r) = olen (example_state 0x7c) + 1
   /\ oacc (fst r) <> oacc (example_state 0x7c)).
Proof. vm_compute. repeat split; discriminate. Qed.

Lemma hdlc_rec_bit_destuff_witness :
  let r := hdlc_rec_bit 15 256 0 0 0 1 0 false alevel_none (example_state 0xf8) in
  oacc (fst r) = oacc (example_state 0xf8)
  /\ olen (fst r) = olen (example_state 0xf8)
  /\ frame_buf (fst r) = frame_buf (example_state 0xf8)
  /\ frame_len (fst r) = frame_len (example_state 0xf8)
  /\ snd r = None.
Proof.
  apply (hdlc_rec_bit_destuff 15 256 0 0 0 1 0 false alevel_none (example_state 0xf8)).
  - vm_compute. reflexivity.
  - vm_compute. discriminate.
Defined.

Lemma hdlc_rec_bit_state_invariants_witness :
  state_inv 256
    (fst (hdlc_rec_bits 15 256 0 0 0
            (take 3 [RecCall 1 0 false alevel_none; RecCall 0 0 false alevel_none;
                     RecCall 0 0 false alevel_none])
            (hdlc_rec_init 256 0 0 0))).
Proof.
  apply (proj1 (hdlc_rec_bit_state_invariants 15 256 ltac:(vm_compute; discriminate) 0 0 0)).
Defined.

End HdlcRecSpec.

(** ** hdlc_rec.c: data carrier detect *)

Module Dcd.
Import Direwolf.

(** The static arrays [num_subchan[MAX_CHANS]] and
    [composite_dcd[MAX_CHANS][MAX_SUBCHANS + 1]]. *)
Record dcd_state : Type := DcdState {
  num_subchan : list Z;
  composite_dcd : list (list Z)
}.

Definition dcd_row (st : dcd_state) (chan : Z) : list Z :=
  default [] (composite_dcd st !! Z.to_nat chan).

Definition dcd_cell (st : dcd_state) (chan subchan : Z) : Z :=
  default 0 (dcd_row st chan !! Z.to_nat subchan).

Definition nsub (st : dcd_state) (chan : Z) : Z :=
  default 0 (num_subchan st !! Z.to_nat chan).

(** What [hdlc_rec_init] leaves: the matrix cleared, and for each
    channel the number of sub-channels of the configuration ([subchans],
    0 for a channel that is not a radio channel). *)
Definition dcd_init (subchans : list Z) : dcd_state :=
  DcdState (take (Z.to_nat MAX_CHANS) (subchans ++ replicate (Z.to_nat MAX_CHANS) 0))
           (replicate (Z.to_nat MAX_CHANS)
                      (replicate (Z.to_nat (MAX_SUBCHANS + 1)) 0)).

(** [for (sc = ...; sc < num_subchan[chan]; sc++)
       if (composite_dcd[chan][sc] != 0) return (1);]
    with [todo] iterations left from index [sc]. *)
Fixpoint scan_subchans (row : list Z) (sc todo : nat) : bool :=
  match todo with
  | O => false
  | S todo' =>
      if negb (default 0 (row !! sc) =? 0) then true
      else scan_subchans row (S sc) todo'
  end.

(** [hdlc_rec_data_detect_any]; [txinh] is what
    [get_input(ICTYPE_TXINH, chan)] returns. *)
Definition hdlc_rec_data_detect_any (st : dcd_state) (chan : Z) (txinh : Z) : Z :=
  if scan_subchans (dcd_row st chan) 0 (Z.to_nat (nsub st chan)) then 1
  else if txinh =? 1 then 1
  else 0.

(** [dcd_change]; [txinh_old] and [txinh_new] are the readings of the
    transmit-inhibit input in the two calls of
    [hdlc_rec_data_detect_any].  The result is [None] when one of the
    four assertions fails, else the new state and the value passed to
    [ptt_set(OCTYPE_DCD, chan, ...)], if it is called.  Past the
    assertions [slice < MAX_SLICERS], so [1 << slice] is at most 2^8
    and the shift is the one of [int]. *)
Definition dcd_change (st : dcd_state) (chan subchan slice state : Z)
    (txinh_old txinh_new : Z) : option (dcd_state * option Z) :=
  if negb ((chan >=? 0) && (chan <? MAX_CHANS)) then None
  else if negb ((subchan >=? 0) && (subchan <=? MAX_SUBCHANS)) then None
  else if negb ((slice >=? 0) && (slice <? MAX_SLICERS)) then None
  else if negb ((state =? 0) || (state =? 1)) then None
  else
    let old := hdlc_rec_data_detect_any st chan txinh_old in
    let v := dcd_cell st chan subchan in
    let v' := if truthy state then Z.lor v (Z.shiftl 1 slice)
              else Z.land v (Z.lnot (Z.shiftl 1 slice)) in
    let st' := DcdState (num_subchan st)
                 (<[Z.to_nat chan := <[Z.to_nat subchan := v']> (dcd_row st chan)]>
                    (composite_dcd st)) in
    let new := hdlc_rec_data_detect_any st' chan txinh_new in
    Some (st', if negb (new =? old) then Some new else None).

(** What the four assertions of [dcd_change] ask of its arguments. *)
Definition dcd_args_ok (chan subchan slice state : Z) : Prop :=
  0 <= chan < MAX_CHANS /\ 0 <= subchan <= MAX_SUBCHANS
  /\ 0 <= slice < MAX_SLICERS /\ (state = 0 \/ state = 1).

End Dcd.

Module DcdSpec.
Import Direwolf Dcd.

Lemma scan_subchans_spec row sc todo :
  scan_subchans row sc todo = true <->
  exists i, (sc <= i < sc + todo)%nat /\ default 0 (row !! i) <> 0.
Proof.
  revert sc; induction todo as [|todo IH]; intros sc; cbn [scan_subchans].
  - split; [discriminate|]. intros (i & Hi & _). lia.
  - destruct (Z.eqb_spec (default 0 (row !! sc)) 0) as [E|E]; cbn [negb].
    + rewrite IH. split; intros (i & Hi & Hv).
      * exists i. split; [lia|done].
      * exists i. split; [|done].
        destruct (decide (i = sc)) as [->|]; [done|lia].
    + split; [|done]. intros _. exists sc. split; [lia|done].
Qed.

(** What the code computes: the channel is busy exactly when a
    sub-channel below [num_subchan[chan]] has a non-zero word or the
    transmit-inhibit input reads 1. *)
Lemma hdlc_rec_data_detect_any_spec st chan txinh :
  hdlc_rec_data_detect_any st chan txinh = 1 <->
  (exists sc, 0 <= sc < nsub st chan /\ dcd_cell st chan sc <> 0) \/ txinh = 1.
Proof.
  unfold hdlc_rec_data_detect_any.
  destruct (scan_subchans _ _ _) eqn:Hs.
  - split; [intros _|done]. left.
    apply scan_subchans_spec in Hs as (i & Hi & Hv).
    exists (Z.of_nat i). split; [lia|].
    unfold dcd_cell. by rewrite Nat2Z.id.
  - destruct (Z.eqb_spec txinh 1) as [E|E]; [by split; auto|].
    split; [discriminate|]. intros [(sc & Hsc & Hv)|]; [|done].
    exfalso. assert (scan_subchans (dcd_row st chan) 0 (Z.to_nat (nsub st chan)) = true)
      as Hc; [|congruence].
    apply scan_subchans_spec. exists (Z.to_nat sc). split; [lia|done].
Qed.

Lemma hdlc_rec_data_detect_any_bool st chan txinh :
  hdlc_rec_data_detect_any st chan txinh = 0
  \/ hdlc_rec_data_detect_any st chan txinh = 1.
Proof.
  unfold hdlc_rec_data_detect_any.
  destruct (scan_subchans _ _ _); [by right|].
  destruct (txinh =? 1); auto.
Qed.

Lemma shiftl_1_testbit slice j :
  0 <= slice -> 0 <= j -> Z.testbit (Z.shiftl 1 slice) j = (j =? slice).
Proof.
  intros Hs Hj. rewrite Z.shiftl_1_l, Z.pow2_bits_eqb by lia.
  apply Z.eqb_sym.
Qed.

(** With arguments that pass the assertions [dcd_change] returns, and
    its result is the state with the one word rewritten. *)
Lemma dcd_change_args_ok st chan subchan slice state o n :
  dcd_args_ok chan subchan slice state ->
  dcd_change st chan subchan slice state o n
  = let v := dcd_cell st chan subchan in
    let v' := if truthy state then Z.lor v (Z.shiftl 1 slice)
              else Z.land v (Z.lnot (Z.shiftl 1 slice)) in
    let st' := DcdState (num_subchan st)
                 (<[Z.to_nat chan := <[Z.to_nat subchan := v']> (dcd_row st chan)]>
                    (composite_dcd st)) in
    Some (st', if negb (hdlc_rec_data_detect_any st' chan n
                        =? hdlc_rec_data_detect_any st chan o)
               then Some (hdlc_rec_data_detect_any st' chan n) else None).
Proof.
  intros (Hc & Hs & Hsl & Hst). unfold dcd_change.
  destruct (Z.geb_spec chan 0); [|lia].
  destruct (Z.ltb_spec chan MAX_CHANS); [|lia].
  destruct (Z.geb_spec subchan 0); [|lia].
  destruct (Z.leb_spec subchan MAX_SUBCHANS); [|lia].
  destruct (Z.geb_spec slice 0); [|lia].
  destruct (Z.ltb_spec slice MAX_SLICERS); [|lia].
  by destruct Hst as [-> | ->].
Qed.

(** With arguments that fail an assertion [dcd_change] stops the
    program. *)
Lemma dcd_change_args_bad st chan subchan slice state o n :
  ~ dcd_args_ok chan subchan slice state ->
  dcd_change st chan subchan slice state o n = None.
Proof.
  intros Hbad. unfold dcd_change.
  destruct (Z.geb_spec chan 0); [|done].
  destruct (Z.ltb_spec chan MAX_CHANS); [|done].
  destruct (Z.geb_spec subchan 0); [|done].
  destruct (Z.leb_spec subchan MAX_SUBCHANS); [|done].
  destruct (Z.geb_spec slice 0); [|done].
  destruct (Z.ltb_spec slice MAX_SLICERS); [|done].
  destruct (Z.eqb_spec state 0); [exfalso; apply Hbad; repeat split; auto; lia|].
  destruct (Z.eqb_spec state 1); [exfalso; apply Hbad; repeat split; auto; lia|].
  done.
Qed.

(** [dcd_change] sets or clears exactly the bit [slice] of the word of
    [(chan, subchan)] and leaves every other word as it is. *)
Lemma dcd_change_exact st chan subchan slice state o n :
  dcd_args_ok chan subchan slice state ->
  (Z.to_nat chan < length (composite_dcd st))%nat ->
  (Z.to_nat subchan < length (dcd_row st chan))%nat ->
  exists st' ptt,
    dcd_change st chan subchan slice state o n = Some (st', ptt)
    /\ (forall j, 0 <= j ->
          Z.testbit (dcd_cell st' chan subchan) j =
          if j =? slice then truthy state
          else Z.testbit (dcd_cell st chan subchan) j)
    /\ (forall c s, 0 <= c -> 0 <= s -> (c, s) <> (chan, subchan) ->
          dcd_cell st' c s = dcd_cell st c s)
    /\ num_subchan st' = num_subchan st.
Proof.
  intros Hok Hlc Hls. rewrite dcd_change_args_ok by done. cbv zeta.
  destruct Hok as (Hc & Hs & Hsl & _).
  eexists _, _. split; [reflexivity|].
  set (v := dcd_cell st chan subchan). set (row := dcd_row st chan) in *.
  split; [|split; [|done]].
  - intros j Hj. unfold dcd_cell, dcd_row. cbn [composite_dcd].
    rewrite list_lookup_insert_eq by done. cbn [from_option id].
    rewrite list_lookup_insert_eq by done. cbn [from_option id].
    destruct (truthy state).
    + rewrite Z.lor_spec, shiftl_1_testbit by lia.
      destruct (j =? slice); [apply orb_true_r|apply orb_false_r].
    + rewrite Z.land_spec, Z.lnot_spec, shiftl_1_testbit by lia.
      destruct (j =? slice); [apply andb_false_r|apply andb_true_r].
  - intros c s Hc0 Hs0 Hne. unfold dcd_cell, dcd_row. cbn [composite_dcd].
    destruct (decide (Z.to_nat chan = Z.to_nat c)) as [E|E].
    + assert (c = chan) by lia. subst c.
      rewrite list_lookup_insert_eq by done. cbn [from_option id].
      rewrite list_lookup_insert_ne; [done|].
      intros E2. apply Hne. f_equal. lia.
    + by rewrite list_lookup_insert_ne.
Qed.

(** C7 fails on the code at the DTMF slot: after initialisation with
    one sub-channel on channel 0, [dcd_change(0, MAX_SUBCHANS, 0, 1)]
    passes its assertions and sets bit 0 of the DTMF word of channel
    0, and with the transmit-inhibit input off
    [hdlc_rec_data_detect_any(0)] still returns 0, and [ptt_set] is not
    called. *)
Theorem dcd_dtmf_slot_ignored :
  let st := dcd_init [1] in
  match dcd_change st 0 MAX_SUBCHANS 0 1 0 0 with
  | Some (st', ptt) =>
      Z.testbit (dcd_cell st' 0 MAX_SUBCHANS) 0 = true
      /\ hdlc_rec_data_detect_any st' 0 0 = 0
      /\ ptt = None
  | None => False
  end.
Proof. vm_compute. auto. Qed.

End DcdSpec.

(** ** xmit.c: timing parameters *)

Module XmitParams.
Import Direwolf.

(** The static arrays [xmit_slottime], [xmit_persist], [xmit_txdelay],
    [xmit_txtail], [xmit_fulldup] and [xmit_bits_per_sec], each of
    [MAX_CHANS] entries. *)
Record xmit_params : Type := XmitParamsRec {
  xmit_slottime : list Z;
  xmit_persist : list Z;
  xmit_txdelay : list Z;
  xmit_txtail : list Z;
  xmit_fulldup : list Z;
  xmit_bits_per_sec : list Z
}.

Definition in_range (channel : Z) : bool :=
  (channel >=? 0) && (channel <? MAX_CHANS).

Definition xmit_set_txdelay (p : xmit_params) (channel value : Z) : xmit_params :=
  if in_range channel then
    XmitParamsRec (xmit_slottime p) (xmit_persist p)
                  (<[Z.to_nat channel := value]> (xmit_txdelay p))
                  (xmit_txtail p) (xmit_fulldup p) (xmit_bits_per_sec p)
  else p.

Definition xmit_set_persist (p : xmit_params) (channel value : Z) : xmit_params :=
  if in_range channel then
    XmitParamsRec (xmit_slottime p)
                  (<[Z.to_nat channel := value]> (xmit_persist p))
                  (xmit_txdelay p) (xmit_txtail p) (xmit_fulldup p)
                  (xmit_bits_per_sec p)
  else p.

Definition xmit_set_slottime (p : xmit_params) (channel value : Z) : xmit_params :=
  if in_range channel then
    XmitParamsRec (<[Z.to_nat channel := value]> (xmit_slottime p))
                  (xmit_persist p) (xmit_txdelay p) (xmit_txtail p)
                  (xmit_fulldup p) (xmit_bits_per_sec p)
  else p.

Definition xmit_set_txtail (p : xmit_params) (channel value : Z) : xmit_params :=
  if in_range channel then
    XmitParamsRec (xmit_slottime p) (xmit_persist p) (xmit_txdelay p)
                  (<[Z.to_nat channel := value]> (xmit_txtail p))
                  (xmit_fulldup p) (xmit_bits_per_sec p)
  else p.

Definition xmit_set_fulldup (p : xmit_params) (channel value : Z) : xmit_params :=
  if in_range channel then
    XmitParamsRec (xmit_slottime p) (xmit_persist p) (xmit_txdelay p)
                  (xmit_txtail p)
                  (<[Z.to_nat channel := value]> (xmit_fulldup p))
                  (xmit_bits_per_sec p)
  else p.

(** The five parameters that have a setter. *)
Inductive timing_param : Type :=
  Txdelay | Persist | Slottime | Txtail | Fulldup.

Definition setter (k : timing_param) : xmit_params -> Z -> Z -> xmit_params :=
  match k with
  | Txdelay => xmit_set_txdelay
  | Persist => xmit_set_persist
  | Slottime => xmit_set_slottime
  | Txtail => xmit_set_txtail
  | Fulldup => xmit_set_fulldup
  end.

Definition param_array (k : timing_param) (p : xmit_params) : list Z :=
  match k with
  | Txdelay => xmit_txdelay p
  | Persist => xmit_persist p
  | Slottime => xmit_slottime p
  | Txtail => xmit_txtail p
  | Fulldup => xmit_fulldup p
  end.

(** Every array has [MAX_CHANS] entries. *)
Definition params_wf (p : xmit_params) : Prop :=
  forall k, length (param_array k p) = Z.to_nat MAX_CHANS.

(** C10. Each of the five setters is a no-op when the channel is
    outside [0, MAX_CHANS); otherwise it stores the value, whatever it
    is, in the entry of that channel of its own array and leaves every
    other entry of that array, the other four arrays and the bit rates
    as they are. *)
Theorem xmit_set_frame (k : timing_param) (p : xmit_params) (channel value : Z) :
  params_wf p ->
  (~ (0 <= channel < MAX_CHANS) -> setter k p channel value = p)
  /\ (0 <= channel < MAX_CHANS ->
      let p' := setter k p channel value in
      param_array k p' !! Z.to_nat channel = Some value
      /\ (forall c, c <> Z.to_nat channel ->
            param_array k p' !! c = param_array k p !! c)
      /\ (forall k', k' <> k -> param_array k' p' = param_array k' p)
      /\ xmit_bits_per_sec p' = xmit_bits_per_sec p
      /\ params_wf p').
Proof.
  intros Hwf. split.
  - intros Hout.
    assert (in_range channel = false) as Hr.
    { unfold in_range. rewrite Z.geb_leb.
      destruct (Z.leb_spec 0 channel), (Z.ltb_spec channel MAX_CHANS);
        try reflexivity; lia. }
    destruct k; cbn [setter];
      unfold xmit_set_txdelay, xmit_set_persist, xmit_set_slottime,
        xmit_set_txtail, xmit_set_fulldup; by rewrite Hr.
  - intros Hin. cbv zeta.
    assert (in_range channel = true) as Hr.
    { unfold in_range. rewrite Z.geb_leb.
      destruct (Z.leb_spec 0 channel), (Z.ltb_spec channel MAX_CHANS);
        try reflexivity; lia. }
    assert (Z.to_nat channel < length (param_array k p))%nat as Hlen
        by (rewrite Hwf; lia).
    destruct k; cbn [setter];
      unfold xmit_set_txdelay, xmit_set_persist, xmit_set_slottime,
        xmit_set_txtail, xmit_set_fulldup; rewrite Hr;
      cbn [param_array xmit_txdelay xmit_persist xmit_slottime xmit_txtail
             xmit_fulldup xmit_bits_per_sec] in *;
      (split; [by apply list_lookup_insert_eq|]);
      (split; [by intros c Hc; apply list_lookup_insert_ne|]);
      (split; [by intros []|]);
      (split; [done|]);
      intros []; specialize (Hwf Txdelay) as H1; specialize (Hwf Persist) as H2;
      specialize (Hwf Slottime) as H3; specialize (Hwf Txtail) as H4;
      specialize (Hwf Fulldup) as H5;
      cbn [param_array xmit_txdelay xmit_persist xmit_slottime xmit_txtail
             xmit_fulldup] in *;
      rewrite ?length_insert; assumption.
Qed.

Definition example_params : xmit_params :=
  XmitParamsRec (replicate 6 10) (replicate 6 63) (replicate 6 30)
                (replicate 6 10) (replicate 6 0) (replicate 6 1200).

Lemma example_params_wf : params_wf example_params.
Proof. by intros []. Qed.

Lemma xmit_set_frame_witness :
  setter Persist example_params (-1) 300 = example_params
  /\ (let p' := setter Persist example_params 1 300 in
      param_array Persist p' !! Z.to_nat 1 = Some 300
      /\ (forall c, c <> Z.to_nat 1 ->
            param_array Persist p' !! c = param_array Persist example_params !! c)
      /\ (forall k', k' <> Persist ->
            param_array k' p' = param_array k' example_params)
      /\ xmit_bits_per_sec p' = xmit_bits_per_sec example_params
      /\ params_wf p').
Proof.
  split.
  - apply (xmit_set_frame Persist example_params (-1) 300 example_params_wf).
    unfold MAX_CHANS, MAX_RADIO_CHANS, MAX_ADEVS. lia.
  - apply (xmit_set_frame Persist example_params 1 300 example_params_wf).
    unfold MAX_CHANS, MAX_RADIO_CHANS, MAX_ADEVS. lia.
Defined.

End XmitParams.

(** ** xmit.c: the transmit scheduler *)

Module Xmit.
Import Direwolf Outcome HdlcSend XmitParams.

(** What xmit.c observes of a packet object through ax25_pad.c, which is
    not part of the sources at hand: the results of [ax25_is_aprs],
    [ax25_get_num_repeaters], [ax25_get_h(pp, AX25_REPEATER_1)],
    [ax25_is_null_frame] and [ax25_pack]. *)
Record packet : Type := Packet {
  pk_is_aprs : bool;
  pk_num_repeaters : Z;
  pk_h_repeater_1 : bool;
  pk_is_null_frame : bool;
  pk_frame : list Z
}.

Inductive flavor_t : Type := FLAVOR_APRS_NEW | FLAVOR_APRS_DIGI | FLAVOR_OTHER.

Definition frame_flavor (pp : packet) : flavor_t :=
  if pk_is_aprs pp then
    if (pk_num_repeaters pp >=? 1) && pk_h_repeater_1 pp then FLAVOR_APRS_DIGI
    else FLAVOR_APRS_NEW
  else FLAVOR_OTHER.

Definition TQ_PRIO_0_HI : Z := 0.
Definition TQ_PRIO_1_LO : Z := 1.

(** Modelled from the spec: the send queue (tq.c) is not part of the
    sources at hand.  Per channel, two FIFOs of packets, high and low
    priority; [tq_peek] returns the oldest packet of a FIFO without
    removing it, [tq_remove] removes it. *)
Record tq : Type := TQ { tq_hi : list packet; tq_lo : list packet }.

Definition tq_fifo (q : tq) (prio : Z) : list packet :=
  if prio =? TQ_PRIO_0_HI then tq_hi q else tq_lo q.

Definition tq_peek (q : tq) (prio : Z) : option packet := head (tq_fifo q prio).

Definition tq_remove (q : tq) (prio : Z) : option packet * tq :=
  match tq_fifo q prio with
  | [] => (None, q)
  | pp :: rest =>
      (Some pp, if prio =? TQ_PRIO_0_HI then TQ rest (tq_lo q) else TQ (tq_hi q) rest)
  end.

Definition tq_size (q : tq) : nat := (length (tq_hi q) + length (tq_lo q))%nat.

(** The levels of console output that the sources at hand name.  A
    message has the level chosen by the call of [text_color_set] before
    it, as in [text_color_set(DW_COLOR_ERROR); dw_printf(...)] of
    gen_packets.c. *)
Inductive dw_color_t : Type :=
  DW_COLOR_INFO | DW_COLOR_ERROR | DW_COLOR_REC | DW_COLOR_DEBUG.

(** What the scheduler does that can be seen from outside. *)
Inductive xmit_event : Type :=
| EvTextColor (c : dw_color_t)                   (* text_color_set *)
| EvPtt (chan signal : Z)                        (* ptt_set(OCTYPE_PTT, ...) *)
| EvFlags (chan nbytes finish : Z)               (* layer2_preamble_postamble *)
| EvFrame (chan prio : Z) (pp : packet) (nb : Z) (* layer2_send_frame *)
| EvDelete (pp : packet)                         (* ax25_delete *)
| EvAudioWait (adev : Z)
| EvSleep (ms : Z)                               (* SLEEP_MS *)
| EvUnlock (adev : Z)                            (* dw_mutex_unlock *)
| EvDiscard (chan prio : Z) (pp : packet).
   (* printf: "Waited too long for clear channel.  Discarding packet
      below." followed by the channel, priority, addresses and
      information *)

Record xmit_state : Type := XmitState { queue : tq; line : send_state }.

Section Scheduler.

(** Configuration and collaborators that are outside the sources at
    hand: whether the channel sends FX.25, what [fx25_send_frame]
    returns for a packet, whether the error-rate test decides to spoil
    the FCS of a packet, and the timing parameters. *)
Variable layer2_fx25 : bool.
Variable fx25_send_frame : packet -> Z.
Variable send_invalid_fcs : packet -> bool.
Variable params : xmit_params.

Definition chan_param (a : list Z) (chan : Z) : Z := default 0 (a !! Z.to_nat chan).

(** The macros [MS_TO_BITS] and [BITS_TO_MS] work on [int]: the
    product wraps around, and the division by the bit rate of the
    channel traps when that rate is zero ([None]). *)
Definition MS_TO_BITS (ms chan : Z) : Z :=
  Z.quot (wrap32 (ms * chan_param (xmit_bits_per_sec params) chan)) 1000.

Definition BITS_TO_MS (b chan : Z) : option Z :=
  int_div (wrap32 (b * 1000)) (chan_param (xmit_bits_per_sec params) chan).

(** [layer2_send_frame]: the number of bits sent and the new state of
    the line. *)
Definition layer2_send_frame (pp : packet) (bad_fcs : Z) (l : send_state)
  : Z * send_state :=
  if layer2_fx25 && (fx25_send_frame pp >? 0) then (fx25_send_frame pp, l)
  else
    let '(n, l', _) := ax25_only_hdlc_send_frame (pk_frame pp) bad_fcs l in
    (n, l').

(** [layer2_preamble_postamble]. *)
Definition layer2_preamble_postamble (nbytes : Z) (l : send_state) : Z * send_state :=
  let '(_, l', _) :=
    send_flags (Z.to_nat nbytes)
               (SendState (output l) (stuff l) 0) in
  (number_of_bits_sent l', l').

(** [send_one_frame]. *)
Definition send_one_frame (c p : Z) (pp : packet) (l : send_state)
  : Z * send_state * list xmit_event :=
  if pk_is_null_frame pp then (0, l, [])
  else
    let '(nb, l') := layer2_send_frame pp (Z.b2z (send_invalid_fcs pp)) l in
    (nb, l', [EvFrame c p pp nb]).

(** Counters of [xmit_ax25_frames] that live across the loop. *)
Record bundle : Type := Bundle {
  b_state : xmit_state;
  b_numframe : Z;
  b_num_bits : Z;
  b_events : list xmit_event
}.

(** The loop [while (numframe < max_bundle && !done)] of
    [xmit_ax25_frames]; [NoFuel] when [fuel] iterations did not reach
    its end.  [num_bits += nb] is an addition of [int]. *)
Fixpoint bundle_loop (fuel : nat) (chan max_bundle : Z) (b : bundle)
  : run bundle :=
  if negb (b_numframe b <? max_bundle) then Ok b
  else
    match fuel with
    | O => NoFuel
    | S fuel' =>
        let q := queue (b_state b) in
        let '(prio, pp) :=
          match tq_peek q TQ_PRIO_0_HI with
          | Some pp => (TQ_PRIO_0_HI, Some pp)
          | None => (TQ_PRIO_1_LO, tq_peek q TQ_PRIO_1_LO)
          end in
        match pp with
        | Some pp =>
            match frame_flavor pp with
            | FLAVOR_APRS_DIGI => Ok b            (* done = 1 *)
            | FLAVOR_APRS_NEW | FLAVOR_OTHER =>
                match tq_remove q prio with
                | (Some pp, q') =>
                    let '(nb, l', ev) :=
                      send_one_frame chan prio pp (line (b_state b)) in
                    bundle_loop fuel' chan max_bundle
                      (Bundle (XmitState q' l')
                              (if nb >? 0 then b_numframe b + 1 else b_numframe b)
                              (wrap32 (b_num_bits b + nb))
                              (b_events b ++ ev ++ [EvDelete pp]))
                | (None, _) => Abort
                    (* send_one_frame(NULL) follows the null pointer:
                       does not happen, the packet was just seen by
                       tq_peek *)
                end
            end
        | None => Ok b                            (* done = 1 *)
        end
    end.

(** [xmit_ax25_frames].  All its arithmetic is on [int]: the products
    [xmit_txdelay[chan] * 10] and [xmit_txtail[chan] * 10], those of the
    two macros and the sums [num_bits += nb] wrap around.  The call
    stops the program ([Abort]) when the division of [BITS_TO_MS]
    traps. *)
Definition xmit_ax25_frames (fuel : nat) (chan prio : Z) (pp : packet)
    (max_bundle : Z) (st : xmit_state) : run (xmit_state * list xmit_event) :=
  let pre_flags :=
    Z.quot (MS_TO_BITS (wrap32 (chan_param (xmit_txdelay params) chan * 10)) chan) 8 in
  let '(num_bits, l1) := layer2_preamble_postamble pre_flags (line st) in
  let '(nb, l2, ev) := send_one_frame chan prio pp l1 in
  let b0 := Bundle (XmitState (queue st) l2)
                   (if nb >? 0 then 1 else 0)
                   (wrap32 (num_bits + nb))
                   ([EvPtt chan 1; EvFlags chan pre_flags 0] ++ ev ++ [EvDelete pp]) in
  match bundle_loop fuel chan max_bundle b0 with
  | NoFuel => NoFuel
  | Abort => Abort
  | Ok b =>
      let post_flags :=
        Z.quot (MS_TO_BITS (wrap32 (chan_param (xmit_txtail params) chan * 10)) chan) 8 in
      let '(nb, l3) := layer2_preamble_postamble post_flags (line (b_state b)) in
      let num_bits := wrap32 (b_num_bits b + nb) in
      match BITS_TO_MS num_bits chan with
      | None => Abort
      | Some duration =>
          let wait_more := duration in
          Ok (XmitState (queue (b_state b)) l3,
              b_events b
              ++ [EvFlags chan post_flags 1; EvAudioWait (ACHAN2ADEV chan)]
              ++ (if wait_more >? 0 then [EvSleep wait_more] else [])
              ++ [EvPtt chan 0])
      end
  end.

(** The last argument of [xmit_ax25_frames] in the [switch] of
    [xmit_thread]: 1 ("don't bundle") for a digipeated APRS frame, 256
    for the other flavors. *)
Definition bundle_cap (pp : packet) : Z :=
  match frame_flavor pp with
  | FLAVOR_APRS_DIGI => 1
  | FLAVOR_APRS_NEW | FLAVOR_OTHER => 256
  end.

(** One turn of the inner loop of [xmit_thread], after
    [wait_for_clear_channel] returned [ok].  The branch of the timeout
    prints with [printf] and does not call [text_color_set]. *)
Definition xmit_thread_turn (fuel : nat) (chan ok : Z) (st : xmit_state)
  : run (xmit_state * list xmit_event) :=
  let '(prio, (pp, q)) :=
    match tq_remove (queue st) TQ_PRIO_0_HI with
    | (Some pp, q) => (TQ_PRIO_0_HI, (Some pp, q))
    | (None, _) => (TQ_PRIO_1_LO, tq_remove (queue st) TQ_PRIO_1_LO)
    end in
  match pp with
  | Some pp =>
      let st1 := XmitState q (line st) in
      if truthy ok then
        match xmit_ax25_frames fuel chan prio pp (bundle_cap pp) st1 with
        | Ok (st2, ev) => Ok (st2, ev ++ [EvUnlock (ACHAN2ADEV chan)])
        | Abort => Abort
        | NoFuel => NoFuel
        end
      else
        Ok (st1, [EvDiscard chan prio pp; EvDelete pp])
  | None => Ok (st, [])
  end.

(** The frames handed to [layer2_send_frame], in order. *)
Definition sent_frames (evs : list xmit_event) : list packet :=
  flat_map (fun e => match e with EvFrame _ _ pp _ => [pp] | _ => [] end) evs.

(** The calls of [ptt_set(OCTYPE_PTT, chan, signal)], in order. *)
Definition ptt_events (evs : list xmit_event) : list (Z * Z) :=
  flat_map (fun e => match e with EvPtt c s => [(c, s)] | _ => [] end) evs.

(** The calls of [text_color_set], in order. *)
Definition text_colors (evs : list xmit_event) : list dw_color_t :=
  flat_map (fun e => match e with EvTextColor c => [c] | _ => [] end) evs.

End Scheduler.

End Xmit.

(** ** Properties of the transmit scheduler: bundling *)

Module XmitBundling.
Import Direwolf Outcome HdlcSend HdlcSendFacts XmitParams Xmit.

Section Bundling.

Variable layer2_fx25 : bool.
Variable fx25_send_frame : packet -> Z.
Variable send_invalid_fcs : packet -> bool.
Variable params : xmit_params.

Abbreviation send_one_frame :=
  (send_one_frame layer2_fx25 fx25_send_frame send_invalid_fcs).
Abbreviation bundle_loop :=
  (bundle_loop layer2_fx25 fx25_send_frame send_invalid_fcs).
Abbreviation xmit_ax25_frames :=
  (xmit_ax25_frames layer2_fx25 fx25_send_frame send_invalid_fcs params).
Abbreviation xmit_thread_turn :=
  (xmit_thread_turn layer2_fx25 fx25_send_frame send_invalid_fcs params).

(** The order in which the scheduler sees the queued packets: the high
    priority FIFO, then the low priority one. *)
Definition peek_order (q : tq) : list packet := tq_hi q ++ tq_lo q.

(** The packets released with [ax25_delete], in order. *)
Definition deleted_frames (evs : list xmit_event) : list packet :=
  flat_map (fun e => match e with EvDelete pp => [pp] | _ => [] end) evs.

(** The packets of a list that [send_one_frame] puts on the air. *)
Definition on_air (l : list packet) : list packet :=
  flat_map (fun pp => if pk_is_null_frame pp then [] else [pp]) l.

Definition is_digi (pp : packet) : Prop := frame_flavor pp = FLAVOR_APRS_DIGI.

(** The frames the specification sets apart, in its words: an APRS UI
    frame with at least one digipeater whose first listed digipeater
    has the has-been-repeated bit set. *)
Definition digipeated_aprs (pp : packet) : Prop :=
  pk_is_aprs pp = true /\ 1 <= pk_num_repeaters pp /\ pk_h_repeater_1 pp = true.

(** [frame_flavor] answers [FLAVOR_APRS_DIGI] for these frames and for
    no other. *)
Lemma frame_flavor_digi pp : is_digi pp <-> digipeated_aprs pp.
Proof.
  unfold is_digi, digipeated_aprs, frame_flavor.
  destruct (pk_is_aprs pp).
  - destruct (Z.geb_spec (pk_num_repeaters pp) 1) as [Hn|Hn]; cbn [andb].
    + destruct (pk_h_repeater_1 pp).
      * split; intros _; [repeat split; lia|reflexivity].
      * split; [discriminate|]. intros (_ & _ & H). discriminate H.
    + split; [discriminate|]. intros (_ & H & _). lia.
  - split; [discriminate|]. intros (H & _). discriminate H.
Qed.

(** The other two flavours. *)
Lemma frame_flavor_not_digi pp :
  ~ digipeated_aprs pp <->
  frame_flavor pp = FLAVOR_APRS_NEW \/ frame_flavor pp = FLAVOR_OTHER.
Proof.
  rewrite <- frame_flavor_digi. unfold is_digi.
  destruct (frame_flavor pp); split; try done; auto.
  by intros [|].
Qed.

Lemma layer2_send_frame_pos pp bad l :
  0 < fst (layer2_send_frame layer2_fx25 fx25_send_frame pp bad l).
Proof.
  unfold layer2_send_frame.
  destruct (layer2_fx25 && (fx25_send_frame pp >? 0)) eqn:E.
  - apply andb_prop in E as [_ E]. cbn [fst]. lia.
  - rewrite send_frame_run. cbn [fst]. unfold frame_bits.
    rewrite length_app. change (length Bits.flag_bits) with 8%nat. lia.
Qed.

Lemma send_one_frame_spec c p pp l :
  exists nb l',
    send_one_frame c p pp l =
      (nb, l', if pk_is_null_frame pp then [] else [EvFrame c p pp nb])
    /\ (nb >? 0) = negb (pk_is_null_frame pp).
Proof.
  unfold Xmit.send_one_frame. destruct (pk_is_null_frame pp).
  - by exists 0, l.
  - pose proof (layer2_send_frame_pos pp (Z.b2z (send_invalid_fcs pp)) l) as Hpos.
    destruct (layer2_send_frame _ _ pp _ l) as [nb l'].
    exists nb, l'. split; [done|]. cbn [fst negb] in *. lia.
Qed.

Lemma sent_frames_app a b : sent_frames (a ++ b) = sent_frames a ++ sent_frames b.
Proof. apply flat_map_app. Qed.

Lemma deleted_frames_app a b :
  deleted_frames (a ++ b) = deleted_frames a ++ deleted_frames b.
Proof. apply flat_map_app. Qed.

Lemma ptt_events_app a b : ptt_events (a ++ b) = ptt_events a ++ ptt_events b.
Proof. apply flat_map_app. Qed.

Lemma on_air_app a b : on_air (a ++ b) = on_air a ++ on_air b.
Proof. apply flat_map_app. Qed.

(** What the bundling loop does, from the counters [b] to [b']:
    it releases the packets [removed], a prefix of the queue in peek
    order, none of them a digipeated APRS frame, sends those that are
    not null frames, and stops at the cap, at an empty queue or at a
    digipeated APRS frame, which stays in the queue. *)
Definition bundle_post (max_bundle : Z) (b b' : bundle) : Prop :=
  exists removed,
    peek_order (queue (b_state b)) = removed ++ peek_order (queue (b_state b'))
    /\ Forall (fun pp => ~ is_digi pp) removed
    /\ sent_frames (b_events b') = sent_frames (b_events b) ++ on_air removed
    /\ deleted_frames (b_events b') = deleted_frames (b_events b) ++ removed
    /\ ptt_events (b_events b') = ptt_events (b_events b)
    /\ b_numframe b' = b_numframe b + Z.of_nat (length (on_air removed))
    /\ b_numframe b' <= Z.max (b_numframe b) max_bundle
    /\ (max_bundle <= b_numframe b -> removed = [])
    /\ (max_bundle <= b_numframe b'
        \/ peek_order (queue (b_state b')) = []
        \/ exists pp rest, peek_order (queue (b_state b')) = pp :: rest
                           /\ is_digi pp).

Lemma bundle_post_refl max_bundle b :
  (max_bundle <= b_numframe b
   \/ peek_order (queue (b_state b)) = []
   \/ exists pp rest, peek_order (queue (b_state b)) = pp :: rest /\ is_digi pp) ->
  bundle_post max_bundle b b.
Proof.
  intros Hstop. exists []. cbn [app on_air flat_map length].
  rewrite !app_nil_r. repeat split; auto; lia.
Qed.

Lemma bundle_loop_spec chan max_bundle fuel b :
  (tq_size (queue (b_state b)) < fuel)%nat ->
  exists b', bundle_loop fuel chan max_bundle b = Ok b'
             /\ bundle_post max_bundle b b'.
Proof.
  revert b; induction fuel as [|fuel IH]; intros b Hfuel; [lia|].
  cbn [Xmit.bundle_loop].
  destruct (Z.ltb_spec (b_numframe b) max_bundle) as [Hlt|Hge]; cbn [negb];
    [|exists b; split; [done|apply bundle_post_refl; lia]].
  destruct b as [[[hi lo] l] numframe num_bits evs].
  cbn [queue b_state b_numframe b_num_bits b_events line] in *.
  unfold tq_peek, tq_remove, tq_fifo. cbn [Z.eqb TQ_PRIO_0_HI TQ_PRIO_1_LO tq_hi tq_lo].
  assert (Hstep : forall prio pp hi' lo',
    peek_order (TQ hi lo) = pp :: peek_order (TQ hi' lo') ->
    ~ is_digi pp ->
    (tq_size (TQ hi' lo') < fuel)%nat ->
    exists b',
      (let '(nb, l', ev) := send_one_frame chan prio pp l in
       bundle_loop fuel chan max_bundle
         (Bundle (XmitState (TQ hi' lo') l')
                 (if nb >? 0 then numframe + 1 else numframe)
                 (wrap32 (num_bits + nb)) (evs ++ ev ++ [EvDelete pp]))) = Ok b'
      /\ bundle_post max_bundle
           (Bundle (XmitState (TQ hi lo) l) numframe num_bits evs) b').
  { intros prio pp hi' lo' Hq Hnd Hsz.
    destruct (send_one_frame_spec chan prio pp l) as (nb & l' & -> & Hnb).
    edestruct IH as (b' & Hrun & removed & Hq' & Hnd' & Hs & Hd & Hp & Hn & Hle & _ & Hstop);
      [|exists b'; split; [exact Hrun|]].
    { cbn [queue b_state]. exact Hsz. }
    unfold bundle_post. exists (pp :: removed).
    cbn [queue b_state b_numframe b_events] in *.
    rewrite Hq, Hq'. cbn [on_air flat_map] in *.
    rewrite Hn in Hle, Hstop. rewrite Hs, Hd, Hp, Hn.
    rewrite !sent_frames_app, !deleted_frames_app, !ptt_events_app.
    rewrite Hnb in *. fold (on_air removed).
    destruct (pk_is_null_frame pp); cbn [negb app length sent_frames deleted_frames
      ptt_events flat_map] in *; rewrite ?app_nil_r, <- ?app_assoc;
      repeat split; auto; cbn [app]; try lia. }
  destruct hi as [|pp hi]; cbn [head].
  - destruct lo as [|pp lo]; cbn [head].
    + eexists; split; [done|]. apply bundle_post_refl. cbn. auto.
    + destruct (frame_flavor pp) eqn:Hfl.
      * apply (Hstep TQ_PRIO_1_LO pp [] lo); [done| |cbn in *; lia].
        unfold is_digi; congruence.
      * eexists; split; [done|]. apply bundle_post_refl. cbn.
        right; right. by exists pp, lo.
      * apply (Hstep TQ_PRIO_1_LO pp [] lo); [done| |cbn in *; lia].
        unfold is_digi; congruence.
  - destruct (frame_flavor pp) eqn:Hfl.
    + apply (Hstep TQ_PRIO_0_HI pp hi lo); [done| |cbn in *; lia].
      unfold is_digi; congruence.
    + eexists; split; [done|]. apply bundle_post_refl. cbn.
      right; right. by exists pp, (hi ++ lo).
    + apply (Hstep TQ_PRIO_0_HI pp hi lo); [done| |cbn in *; lia].
      unfold is_digi; congruence.
Qed.

Lemma tq_remove_first q pp rest :
  peek_order q = pp :: rest ->
  exists prio q',
    (match tq_remove q TQ_PRIO_0_HI with
     | (Some pp, q) => (TQ_PRIO_0_HI, (Some pp, q))
     | (None, _) => (TQ_PRIO_1_LO, tq_remove q TQ_PRIO_1_LO)
     end) = (prio, (Some pp, q'))
    /\ peek_order q' = rest.
Proof.
  destruct q as [hi lo]. unfold peek_order, tq_remove, tq_fifo.
  cbn [tq_hi tq_lo Z.eqb TQ_PRIO_0_HI TQ_PRIO_1_LO].
  destruct hi as [|a hi]; cbn [app].
  - intros ->. by exists TQ_PRIO_1_LO, (TQ [] rest).
  - intros [= -> <-]. by exists TQ_PRIO_0_HI, (TQ hi lo).
Qed.

Lemma bundle_cap_digi pp : is_digi pp -> bundle_cap pp = 1.
Proof. unfold is_digi, bundle_cap. by intros ->. Qed.

Lemma bundle_cap_le pp : 1 <= bundle_cap pp <= 256.
Proof. unfold bundle_cap. destruct (frame_flavor pp); lia. Qed.

Lemma bundle_cap_other pp : ~ is_digi pp -> bundle_cap pp = 256.
Proof. unfold is_digi, bundle_cap. by destruct (frame_flavor pp). Qed.

(** The cap of the bundle that [xmit_thread] passes on. *)
Lemma bundle_cap_spec pp :
  (digipeated_aprs pp -> bundle_cap pp = 1)
  /\ (~ digipeated_aprs pp -> bundle_cap pp = 256).
Proof.
  rewrite <- frame_flavor_digi.
  split; [apply bundle_cap_digi|apply bundle_cap_other].
Qed.

(** C4. One turn of the transmit thread on a clear channel of positive
    bit rate, with the packet [pp] first in the queue and enough fuel
    for the loop.  A packet is digipeated when it is an APRS UI frame
    with at least one digipeater and the has-been-repeated bit of the
    first one set.  The turn ends; it is one PTT cycle; the cap passed
    on is 1 when [pp] is digipeated and 256 otherwise; the packets
    released are [pp] and a prefix [bundled] of the rest of the queue,
    none of [bundled] digipeated; the frames sent are those of them
    that are not null frames, at most 256; the loop stopped at the
    cap, at an empty queue or at a digipeated packet left in the
    queue; when [pp] is digipeated (and not a null frame) it is the
    only frame sent and nothing else leaves the queue; and when [pp] is
    not digipeated and fewer than 256 frames were sent, every packet
    before the first digipeated one has left the queue. *)
Theorem digipeated_frame_sent_alone (fuel : nat) (chan : Z) (st : xmit_state)
    (pp : packet) (rest : list packet) :
  peek_order (queue st) = pp :: rest ->
  (length rest < fuel)%nat ->
  0 < chan_param (xmit_bits_per_sec params) chan ->
  exists st' evs bundled,
    xmit_thread_turn fuel chan 1 st = Ok (st', evs)
    /\ ptt_events evs = [(chan, 1); (chan, 0)]
    /\ (digipeated_aprs pp -> bundle_cap pp = 1)
    /\ (~ digipeated_aprs pp -> bundle_cap pp = 256)
    /\ rest = bundled ++ peek_order (queue st')
    /\ Forall (fun f => ~ digipeated_aprs f) bundled
    /\ deleted_frames evs = pp :: bundled
    /\ sent_frames evs = on_air (pp :: bundled)
    /\ (length (sent_frames evs) <= 256)%nat
    /\ (bundle_cap pp <= Z.of_nat (length (sent_frames evs))
        \/ peek_order (queue st') = []
        \/ exists f r, peek_order (queue st') = f :: r /\ digipeated_aprs f)
    /\ (digipeated_aprs pp -> pk_is_null_frame pp = false ->
        sent_frames evs = [pp] /\ bundled = [] /\ peek_order (queue st') = rest)
    /\ (~ digipeated_aprs pp -> (length (sent_frames evs) < 256)%nat ->
        peek_order (queue st') = []
        \/ exists f r, peek_order (queue st') = f :: r /\ digipeated_aprs f).
Proof.
  intros Hq Hfuel Hrate. unfold Xmit.xmit_thread_turn.
  destruct (tq_remove_first _ _ _ Hq) as (prio & q' & -> & Hq').
  change (truthy 1) with true. cbv iota.
  unfold Xmit.xmit_ax25_frames. cbn [line queue].
  destruct (layer2_preamble_postamble _ (line st)) as [nbits1 l1].
  destruct (send_one_frame_spec chan prio pp l1) as (nb & l2 & -> & Hnb).
  match goal with
  | |- context [bundle_loop fuel chan (bundle_cap pp) ?b] =>
      destruct (bundle_loop_spec chan (bundle_cap pp) fuel b) as
        (b' & -> & removed & Hr & Hnd & Hs & Hd & Hp & Hn & Hle & Hnil & Hstop)
  end.
  { cbn [b_state queue]. unfold tq_size.
    unfold peek_order in Hq'. rewrite <- length_app, Hq'. exact Hfuel. }
  cbn [b_state queue b_numframe b_events] in *.
  destruct (layer2_preamble_postamble _ (line (b_state b'))) as [nbits3 l3].
  unfold BITS_TO_MS, int_div.
  destruct (Z.eqb_spec (chan_param (xmit_bits_per_sec params) chan) 0) as [E0|_];
    [lia|].
  destruct (Z.eqb_spec (chan_param (xmit_bits_per_sec params) chan) (-1)) as [E1|_];
    [lia|].
  rewrite andb_false_r. cbn [orb].
  rewrite Hq' in Hr.
  eexists _, _, removed. split; [reflexivity|]. cbn [queue].
  rewrite !sent_frames_app, !deleted_frames_app, !ptt_events_app, Hs, Hd, Hp.
  rewrite !sent_frames_app, !deleted_frames_app, !ptt_events_app.
  assert (Hsleep : forall w, sent_frames (if w >? 0 then [EvSleep w] else []) = []
            /\ deleted_frames (if w >? 0 then [EvSleep w] else []) = []
            /\ ptt_events (if w >? 0 then [EvSleep w] else []) = [])
    by (intros w; by destruct (w >? 0)).
  match goal with
  | |- context [if ?w >? 0 then [EvSleep _] else []] =>
      destruct (Hsleep w) as (-> & -> & ->)
  end.
  assert (Hlen : Z.of_nat (length (on_air (pp :: removed))) =
                 (if nb >? 0 then 1 else 0) + Z.of_nat (length (on_air removed))).
  { change (pp :: removed) with ([pp] ++ removed).
    rewrite on_air_app, length_app. cbn [on_air flat_map]. rewrite Hnb.
    destruct (pk_is_null_frame pp); cbn [negb app length]; lia. }
  assert (Hsent : (if pk_is_null_frame pp then [] else [pp]) ++ on_air removed
                  = on_air (pp :: removed)).
  { change (pp :: removed) with ([pp] ++ removed). rewrite on_air_app.
    cbn [on_air flat_map]. by rewrite app_nil_r. }
  assert (Hev1 : sent_frames
            (if pk_is_null_frame pp then [] else [EvFrame chan prio pp nb])
          = (if pk_is_null_frame pp then [] else [pp])
          /\ deleted_frames
               (if pk_is_null_frame pp then [] else [EvFrame chan prio pp nb]) = []
          /\ ptt_events
               (if pk_is_null_frame pp then [] else [EvFrame chan prio pp nb]) = [])
    by (by destruct (pk_is_null_frame pp)).
  destruct Hev1 as (-> & -> & ->).
  cbn [sent_frames deleted_frames ptt_events flat_map app].
  rewrite ?app_nil_r. rewrite Hsent.
  pose proof (bundle_cap_le pp) as Hcap.
  destruct (bundle_cap_spec pp) as [Hcap1 Hcap256].
  assert (Hone : digipeated_aprs pp -> pk_is_null_frame pp = false -> removed = []).
  { intros Hd1 Hnn. apply Hnil. rewrite (Hcap1 Hd1).
    rewrite Hnn in Hnb. cbn [negb] in Hnb. rewrite Hnb. lia. }
  assert (Hstop' : bundle_cap pp <= Z.of_nat (length (on_air (pp :: removed)))
                   \/ peek_order (queue (b_state b')) = []
                   \/ exists f r, peek_order (queue (b_state b')) = f :: r
                                  /\ digipeated_aprs f).
  { rewrite Hlen, <- Hn.
    destruct Hstop as [H|[H|(f & r & H & Hf)]]; auto.
    right; right. exists f, r. split; [done|]. by apply frame_flavor_digi. }
  split; [done|]. split; [done|]. split; [done|]. split; [done|].
  split; [|split; [done|split; [done|split; [|split; [done|split]]]]].
  - eapply Forall_impl; [exact Hnd|]. intros f Hf Hdf. by apply Hf, frame_flavor_digi.
  - rewrite <- Hn in Hlen. destruct (nb >? 0); lia.
  - intros Hd1 Hnn. rewrite (Hone Hd1 Hnn) in *. cbn [app] in Hr.
    cbn [on_air flat_map]. rewrite Hnn. by rewrite Hr.
  - intros Hnd1 Hlt. rewrite (Hcap256 Hnd1) in Hstop'.
    destruct Hstop' as [H|H]; [lia|exact H].
Qed.

End Bundling.

Definition digi_packet : packet := Packet true 1 true false [0x82; 0xa0; 0x03; 0xf0; 0x21].
Definition new_packet : packet := Packet true 0 false false [0x82; 0xa0; 0x03; 0xf0; 0x3e].

Lemma digi_packet_digipeated : digipeated_aprs digi_packet.
Proof. unfold digipeated_aprs. cbn. split; [|split]; [reflexivity|lia|reflexivity]. Qed.

Lemma new_packet_not_digipeated : ~ digipeated_aprs new_packet.
Proof. intros (_ & _ & H). discriminate H. Qed.

Lemma digipeated_frame_sent_alone_witness :
  (exists st' evs,
     xmit_thread_turn false (fun _ => 0) (fun _ => false) example_params 3 0 1
       (XmitState (TQ [digi_packet] [new_packet; new_packet]) (SendState 0 0 0))
     = Ok (st', evs)
     /\ digipeated_aprs digi_packet
     /\ ptt_events evs = [(0, 1); (0, 0)]
     /\ sent_frames evs = [digi_packet]
     /\ deleted_frames evs = [digi_packet]
     /\ peek_order (queue st') = [new_packet; new_packet])
  /\ (exists st' evs,
        xmit_thread_turn false (fun _ => 0) (fun _ => false) example_params 3 0 1
          (XmitState (TQ [] [new_packet; new_packet; digi_packet]) (SendState 0 0 0))
        = Ok (st', evs)
        /\ ~ digipeated_aprs new_packet
        /\ ptt_events evs = [(0, 1); (0, 0)]
        /\ sent_frames evs = [new_packet; new_packet]
        /\ peek_order (queue st') = [digi_packet]).
Proof.
  split.
  - destruct (digipeated_frame_sent_alone false (fun _ => 0) (fun _ => false)
                example_params 3 0
                (XmitState (TQ [digi_packet] [new_packet; new_packet]) (SendState 0 0 0))
                digi_packet [new_packet; new_packet] eq_refl
                ltac:(cbn; lia) ltac:(reflexivity))
      as (st' & evs & bundled & Hrun & Hptt & _ & _ & _ & _ & Hdel & _ & _ & _ & Hone & _).
    destruct (Hone digi_packet_digipeated eq_refl) as (Hs & Hb & Hq).
    exists st', evs. rewrite Hb in Hdel.
    split; [assumption|]. split; [apply digi_packet_digipeated|].
    split; [assumption|]. split; [assumption|]. split; assumption.
  - destruct (digipeated_frame_sent_alone false (fun _ => 0) (fun _ => false)
                example_params 3 0
                (XmitState (TQ [] [new_packet; new_packet; digi_packet]) (SendState 0 0 0))
                new_packet [new_packet; digi_packet] eq_refl
                ltac:(cbn; lia) ltac:(reflexivity))
      as (st' & evs & bundled & Hrun & Hptt & _ & _ & Hrest & Hnd & _ & Hsent & _ & _ & _ & Hall).
    exists st', evs.
    assert (Hb : bundled = [new_packet] /\ peek_order (queue st') = [digi_packet]).
    { destruct bundled as [|f1 [|f2 [|f3 bundled]]]; cbn [app] in Hrest.
      - exfalso. rewrite <- Hrest in Hall.
        destruct (Hall new_packet_not_digipeated) as [H|(f & r & H & Hf)];
          [rewrite Hsent;
           cbn [on_air flat_map pk_is_null_frame new_packet app length]; lia
          |discriminate H|].
        injection H as <- _. exact (new_packet_not_digipeated Hf).
      - injection Hrest as E1 E2. subst f1. split; [reflexivity|symmetry; exact E2].
      - exfalso. injection Hrest as E1 E2 E3. subst f1 f2.
        apply Forall_cons in Hnd as [_ Hnd]. apply Forall_cons in Hnd as [Hnd _].
        exact (Hnd digi_packet_digipeated).
      - exfalso. injection Hrest as _ _ E3. destruct bundled; discriminate E3. }
    destruct Hb as [-> Hq].
    split; [assumption|]. split; [apply new_packet_not_digipeated|].
    split; [assumption|]. split; assumption.
Defined.

End XmitBundling.

(** ** xmit.c: waiting for a clear channel *)

Module Csma.
Import Direwolf Outcome XmitParams Xmit.

Definition WAIT_TIMEOUT_MS : Z := 60 * 1000.
Definition WAIT_CHECK_EVERY_MS : Z := 10.

(** What the rest of the system answers while the function waits,
    numbered by call: the results of [hdlc_rec_data_detect_any(chan)],
    whether [tq_peek(chan, TQ_PRIO_0_HI)] found a packet, the results of
    [rand()], and whether [dw_mutex_try_lock] got the lock. *)
Record wait_env : Type := WaitEnv {
  dcd_reads : nat -> Z;
  hi_peeks : nat -> bool;
  rand_calls : nat -> Z;
  try_locks : nat -> bool
}.

(** How many answers of each kind were used, the local [n], and the
    arguments of [SLEEP_MS] so far. *)
Record wait_state : Type := WaitState {
  w_dcd : nat;
  w_hi : nat;
  w_rand : nat;
  w_lock : nat;
  w_n : Z;
  w_slept : list Z
}.

Definition wait_start : wait_state := WaitState 0 0 0 0 0 [].

(** The three loops of [wait_for_clear_channel]: the label
    [start_over_again] with the wait for DCD to drop, the random wait,
    and the wait for the lock of the audio device. *)
Inductive wait_pc : Type := AtStartOver | AtRandomWait | AtTryLock.

Definition use_dcd (s : wait_state) : wait_state :=
  WaitState (S (w_dcd s)) (w_hi s) (w_rand s) (w_lock s) (w_n s) (w_slept s).
Definition use_hi (s : wait_state) : wait_state :=
  WaitState (w_dcd s) (S (w_hi s)) (w_rand s) (w_lock s) (w_n s) (w_slept s).
Definition use_rand (s : wait_state) : wait_state :=
  WaitState (w_dcd s) (w_hi s) (S (w_rand s)) (w_lock s) (w_n s) (w_slept s).
Definition use_lock (s : wait_state) : wait_state :=
  WaitState (w_dcd s) (w_hi s) (w_rand s) (S (w_lock s)) (w_n s) (w_slept s).
Definition sleep_ms (ms : Z) (s : wait_state) : wait_state :=
  WaitState (w_dcd s) (w_hi s) (w_rand s) (w_lock s) (w_n s) (w_slept s ++ [ms]).
Definition incr_n (s : wait_state) : wait_state :=
  WaitState (w_dcd s) (w_hi s) (w_rand s) (w_lock s) (w_n s + 1) (w_slept s).

Section Wait.

Variable env : wait_env.
(** [slottime], [persist]: the arguments; [dwait]:
    [save_audio_config_p->achan[chan].dwait]. *)
Variables slottime persist dwait : Z.

(** One turn of the loop the function is in: either it goes on, or it
    returns 1 (clear channel and device locked) or 0 (timeout). *)
Definition wait_step (pc : wait_pc) (s : wait_state)
  : (wait_pc * wait_state) + (Z * wait_state) :=
  match pc with
  | AtStartOver =>
      if truthy (dcd_reads env (w_dcd s)) then
        let s := incr_n (sleep_ms WAIT_CHECK_EVERY_MS (use_dcd s)) in
        if w_n s >? Z.quot WAIT_TIMEOUT_MS WAIT_CHECK_EVERY_MS
        then inr (0, s) else inl (AtStartOver, s)
      else
        let s := use_dcd s in
        let s := if dwait >? 0 then sleep_ms (dwait * 10) s else s in
        if truthy (dcd_reads env (w_dcd s))
        then inl (AtStartOver, use_dcd s)
        else inl (AtRandomWait, use_dcd s)
  | AtRandomWait =>
      if hi_peeks env (w_hi s) then inl (AtTryLock, use_hi s)
      else
        let s := sleep_ms (slottime * 10) (use_hi s) in
        if truthy (dcd_reads env (w_dcd s)) then inl (AtStartOver, use_dcd s)
        else
          let r := Z.land (rand_calls env (w_rand s)) 0xff in
          let s := use_rand (use_dcd s) in
          if r <=? persist then inl (AtTryLock, s) else inl (AtRandomWait, s)
  | AtTryLock =>
      if try_locks env (w_lock s) then inr (1, use_lock s)
      else
        let s := incr_n (sleep_ms WAIT_CHECK_EVERY_MS (use_lock s)) in
        if w_n s >? Z.quot WAIT_TIMEOUT_MS WAIT_CHECK_EVERY_MS
        then inr (0, s) else inl (AtTryLock, s)
  end.

Fixpoint wait_run (fuel : nat) (pc : wait_pc) (s : wait_state)
  : option (Z * wait_state) :=
  match fuel with
  | O => None
  | S fuel' =>
      match wait_step pc s with
      | inl (pc', s') => wait_run fuel' pc' s'
      | inr r => Some r
      end
  end.

(** [wait_for_clear_channel]: the result and the final counters, or
    [None] when [fuel] turns did not reach a [return]. *)
Definition wait_for_clear_channel (fuel : nat) (fulldup : Z) (s : wait_state)
  : option (Z * wait_state) :=
  wait_run fuel (if truthy fulldup then AtTryLock else AtStartOver) s.

End Wait.

(** One turn of the inner loop of [xmit_thread]: wait for the channel,
    then transmit or discard. *)
Definition xmit_thread_iter (layer2_fx25 : bool) (fx25_send_frame : packet -> Z)
    (send_invalid_fcs : packet -> bool) (params : xmit_params)
    (env : wait_env) (dwait : Z) (fuel : nat) (chan : Z) (st : xmit_state)
  : run (xmit_state * list xmit_event * wait_state) :=
  match wait_for_clear_channel env
          (chan_param (xmit_slottime params) chan)
          (chan_param (xmit_persist params) chan) dwait fuel
          (chan_param (xmit_fulldup params) chan) wait_start with
  | None => NoFuel
  | Some (ok, ws) =>
      match xmit_thread_turn layer2_fx25 fx25_send_frame send_invalid_fcs params
              fuel chan ok st with
      | NoFuel => NoFuel
      | Abort => Abort
      | Ok (st', evs) => Ok (st', evs, ws)
      end
  end.

(** The byte values for which the random wait ends, among the 256
    values [rand() & 0xff] can take. *)
Definition all_bytes : list Z := map Z.of_nat (seq 0 256).
Definition persist_ok (persist r : Z) : bool := r <=? persist.
Definition success_bytes (persist : Z) : list Z :=
  List.filter (persist_ok persist) all_bytes.

End Csma.

(** ** Properties of the wait for a clear channel *)

Module CsmaSpec.
Import Direwolf Outcome XmitParams Xmit XmitBundling Csma.

(** The level of each discard message in a run of events: the colour
    of the last [text_color_set] before it, or [level] when there is
    none in [evs]; [None] stands for a level that the scheduler did not
    set. *)
Fixpoint discard_levels (level : option dw_color_t) (evs : list xmit_event)
  : list (option dw_color_t) :=
  match evs with
  | [] => []
  | EvTextColor c :: evs => discard_levels (Some c) evs
  | EvDiscard _ _ _ :: evs => level :: discard_levels level evs
  | _ :: evs => discard_levels level evs
  end.

Lemma land_byte_range x : 0 <= Z.land x 0xff <= 255.
Proof.
  change (Z.land x 0xff) with (Z.land x (Z.ones 8)).
  rewrite Z.land_ones by lia.
  pose proof (Z.mod_pos_bound x (2 ^ 8) eq_refl) as H.
  change (2 ^ 8) with 256 in *. lia.
Qed.

Lemma success_bytes_all :
  forallb (fun p => Z.of_nat (length (success_bytes p)) =? p + 1) all_bytes = true.
Proof. vm_compute. reflexivity. Qed.

Lemma success_bytes_length persist :
  0 <= persist <= 255 -> Z.of_nat (length (success_bytes persist)) = persist + 1.
Proof.
  intros Hp. pose proof success_bytes_all as H.
  rewrite forallb_forall in H. apply Z.eqb_eq, H.
  unfold all_bytes. apply in_map_iff. exists (Z.to_nat persist).
  split; [lia|]. apply in_seq. lia.
Qed.

Section WaitFacts.

Variable env : wait_env.
Variables slottime persist dwait : Z.

Abbreviation wait_step := (wait_step env slottime persist dwait).
Abbreviation wait_run := (wait_run env slottime persist dwait).
Abbreviation wait_for_clear_channel :=
  (wait_for_clear_channel env slottime persist dwait).

(** The state after [k] more turns of a loop that sleeps 10 ms and
    counts: [k] more answers of one kind used. *)
Definition after_busy (k : nat) (s : wait_state) : wait_state :=
  WaitState (w_dcd s + k) (w_hi s) (w_rand s) (w_lock s)
            (w_n s + Z.of_nat k) (w_slept s ++ replicate k WAIT_CHECK_EVERY_MS).

Definition after_locked (k : nat) (s : wait_state) : wait_state :=
  WaitState (w_dcd s) (w_hi s) (w_rand s) (w_lock s + k)
            (w_n s + Z.of_nat k) (w_slept s ++ replicate k WAIT_CHECK_EVERY_MS).

Lemma replicate_snoc {A} k (x : A) l :
  (l ++ [x]) ++ replicate k x = l ++ replicate (S k) x.
Proof. by rewrite <- app_assoc. Qed.

Lemma start_over_busy k : forall s fuel,
  (forall i, (i < k)%nat -> truthy (dcd_reads env (w_dcd s + i)) = true) ->
  w_n s + Z.of_nat k <= 6000 ->
  wait_run (k + fuel) AtStartOver s = wait_run fuel AtStartOver (after_busy k s).
Proof.
  induction k as [|k IH]; intros s fuel Hbusy Hn.
  - cbn [Nat.add]. f_equal. destruct s; unfold after_busy; cbn.
    f_equal; try lia. by rewrite app_nil_r.
  - cbn [Nat.add Csma.wait_run Csma.wait_step].
    pose proof (Hbusy 0%nat ltac:(lia)) as H0. rewrite Nat.add_0_r in H0.
    rewrite H0. unfold incr_n, sleep_ms, use_dcd.
    cbn [w_n w_dcd w_hi w_rand w_lock w_slept].
    change (Z.quot WAIT_TIMEOUT_MS WAIT_CHECK_EVERY_MS) with 6000.
    destruct (Z.gtb_spec (w_n s + 1) 6000) as [Hgt|_]; [lia|].
    rewrite IH.
    + f_equal. unfold after_busy, incr_n, sleep_ms, use_dcd;
        cbn [w_n w_dcd w_hi w_rand w_lock w_slept].
      f_equal; try lia. by rewrite <- app_assoc.
    + intros i Hi. cbn [w_dcd]. replace (S (w_dcd s) + i)%nat with (w_dcd s + S i)%nat by lia.
      apply Hbusy. lia.
    + cbn [w_n]. lia.
Qed.

Lemma try_lock_busy k : forall s fuel,
  (forall i, (i < k)%nat -> try_locks env (w_lock s + i) = false) ->
  w_n s + Z.of_nat k <= 6000 ->
  wait_run (k + fuel) AtTryLock s = wait_run fuel AtTryLock (after_locked k s).
Proof.
  induction k as [|k IH]; intros s fuel Hbusy Hn.
  - cbn [Nat.add]. f_equal. destruct s; unfold after_locked; cbn.
    f_equal; try lia. by rewrite app_nil_r.
  - cbn [Nat.add Csma.wait_run Csma.wait_step].
    pose proof (Hbusy 0%nat ltac:(lia)) as H0. rewrite Nat.add_0_r in H0.
    rewrite H0. unfold incr_n, sleep_ms, use_lock.
    cbn [w_n w_dcd w_hi w_rand w_lock w_slept].
    change (Z.quot WAIT_TIMEOUT_MS WAIT_CHECK_EVERY_MS) with 6000.
    destruct (Z.gtb_spec (w_n s + 1) 6000) as [Hgt|_]; [lia|].
    rewrite IH.
    + f_equal. unfold after_locked, incr_n, sleep_ms, use_lock;
        cbn [w_n w_dcd w_hi w_rand w_lock w_slept].
      f_equal; try lia. by rewrite <- app_assoc.
    + intros i Hi. cbn [w_lock]. replace (S (w_lock s) + i)%nat with (w_lock s + S i)%nat by lia.
      apply Hbusy. lia.
    + cbn [w_n]. lia.
Qed.

(** A timeout is never early: from [n <= 6000], the function returns 0
    only with [n = 6001]. *)
Lemma wait_run_timeout_n fuel : forall pc s ws,
  w_n s <= 6000 -> wait_run fuel pc s = Some (0, ws) -> w_n ws = 6001.
Proof.
  induction fuel as [|fuel IH]; intros pc s ws Hn; [discriminate|].
  cbn [Csma.wait_run]. destruct pc; cbn [Csma.wait_step].
  - destruct (truthy (dcd_reads env (w_dcd s))).
    + unfold incr_n, sleep_ms, use_dcd. cbn [w_n].
      change (Z.quot WAIT_TIMEOUT_MS WAIT_CHECK_EVERY_MS) with 6000.
      destruct (Z.gtb_spec (w_n s + 1) 6000).
      * intros [= <-]. cbn [w_n]. lia.
      * apply IH. cbn [w_n]. lia.
    + destruct (dwait >? 0), (truthy (dcd_reads env _)); apply IH; cbn; lia.
  - destruct (hi_peeks env (w_hi s)); [apply IH; cbn; lia|].
    destruct (truthy (dcd_reads env _)); [apply IH; cbn; lia|].
    destruct (_ <=? persist); apply IH; cbn; lia.
  - destruct (try_locks env (w_lock s)); [discriminate|].
    unfold incr_n, sleep_ms, use_lock. cbn [w_n].
    change (Z.quot WAIT_TIMEOUT_MS WAIT_CHECK_EVERY_MS) with 6000.
    destruct (Z.gtb_spec (w_n s + 1) 6000).
    + intros [= <-]. cbn [w_n]. lia.
    + apply IH. cbn [w_n]. lia.
Qed.

Lemma start_over_timeout s fuel :
  w_n s = 0 ->
  (forall i, (i <= Z.to_nat 6000)%nat ->
             truthy (dcd_reads env (w_dcd s + i)) = true) ->
  wait_run (Z.to_nat 6001 + fuel) AtStartOver s
  = Some (0, after_busy (Z.to_nat 6001) s).
Proof.
  intros Hn Hbusy.
  replace (Z.to_nat 6001 + fuel)%nat with (Z.to_nat 6000 + S fuel)%nat by lia.
  rewrite start_over_busy by (try (intros; apply Hbusy); lia).
  cbn [Csma.wait_run Csma.wait_step]. unfold after_busy at 1. cbn [w_dcd].
  rewrite Hbusy by lia. unfold incr_n, sleep_ms, use_dcd, after_busy.
  cbn [w_n w_dcd w_hi w_rand w_lock w_slept].
  change (Z.quot WAIT_TIMEOUT_MS WAIT_CHECK_EVERY_MS) with 6000.
  destruct (Z.gtb_spec (w_n s + Z.of_nat (Z.to_nat 6000) + 1) 6000) as [_|Hle];
    [|lia].
  do 2 f_equal. f_equal; try lia.
  replace (Z.to_nat 6001) with (Z.to_nat 6000 + 1)%nat by lia.
  by rewrite replicate_add, app_assoc.
Qed.

Lemma try_lock_timeout s fuel :
  w_n s = 0 ->
  (forall i, (i <= Z.to_nat 6000)%nat -> try_locks env (w_lock s + i) = false) ->
  wait_run (Z.to_nat 6001 + fuel) AtTryLock s
  = Some (0, after_locked (Z.to_nat 6001) s).
Proof.
  intros Hn Hbusy.
  replace (Z.to_nat 6001 + fuel)%nat with (Z.to_nat 6000 + S fuel)%nat by lia.
  rewrite try_lock_busy by (try (intros; apply Hbusy); lia).
  cbn [Csma.wait_run Csma.wait_step]. unfold after_locked at 1. cbn [w_lock].
  rewrite Hbusy by lia. unfold incr_n, sleep_ms, use_lock, after_locked.
  cbn [w_n w_dcd w_hi w_rand w_lock w_slept].
  change (Z.quot WAIT_TIMEOUT_MS WAIT_CHECK_EVERY_MS) with 6000.
  destruct (Z.gtb_spec (w_n s + Z.of_nat (Z.to_nat 6000) + 1) 6000) as [_|Hle];
    [|lia].
  do 2 f_equal. f_equal; try lia.
  replace (Z.to_nat 6001) with (Z.to_nat 6000 + 1)%nat by lia.
  by rewrite replicate_add, app_assoc.
Qed.

(** C5. Half duplex, the channel clear at every check and no
    high-priority frame pending.  Each turn of the random wait sleeps
    [slottime * 10] ms, takes the byte [r = rand() & 0xff], which is in
    [0, 255], and goes on to the device lock exactly when
    [r <= persist], else waits another slot.  With [persist = 255] it
    always goes on, and the whole function returns 1 having slept
    [dwait * 10] (when [dwait > 0]) and one slot time.  Of the 256 byte
    values, [persist + 1] end the wait: one of 256 for [persist = 0]. *)
Theorem csma_persistence :
  (forall i, truthy (dcd_reads env i) = false) ->
  (forall i, hi_peeks env i = false) ->
  (forall s,
      let r := Z.land (rand_calls env (w_rand s)) 0xff in
      let s' := use_rand (use_dcd (sleep_ms (slottime * 10) (use_hi s))) in
      0 <= r <= 255
      /\ w_slept s' = w_slept s ++ [slottime * 10]
      /\ (r <= persist -> wait_step AtRandomWait s = inl (AtTryLock, s'))
      /\ (persist < r -> wait_step AtRandomWait s = inl (AtRandomWait, s'))
      /\ Csma.wait_step env slottime 255 dwait AtRandomWait s = inl (AtTryLock, s'))
  /\ (try_locks env 0 = true ->
      exists ws,
        Csma.wait_for_clear_channel env slottime 255 dwait 3 0 wait_start
        = Some (1, ws)
        /\ w_slept ws = (if dwait >? 0 then [dwait * 10] else []) ++ [slottime * 10])
  /\ Z.of_nat (length all_bytes) = 256
  /\ Z.of_nat (length (success_bytes 0)) = 1
  /\ Z.of_nat (length (success_bytes 255)) = 256
  /\ (0 <= persist <= 255 ->
      Z.of_nat (length (success_bytes persist)) = persist + 1).
Proof.
  intros Hclear Hnohi.
  assert (Hstep : forall p s,
    Csma.wait_step env slottime p dwait AtRandomWait s =
    inl (if Z.land (rand_calls env (w_rand s)) 0xff <=? p
         then AtTryLock else AtRandomWait,
         use_rand (use_dcd (sleep_ms (slottime * 10) (use_hi s))))).
  { intros p s. cbn [Csma.wait_step]. rewrite Hnohi, Hclear.
    unfold sleep_ms, use_hi; cbn [w_rand].
    by destruct (_ <=? p). }
  split; [|split; [|split; [|split; [|split]]]].
  - intros s. cbv zeta. pose proof (land_byte_range (rand_calls env (w_rand s))) as Hr.
    split; [exact Hr|]. split; [reflexivity|].
    rewrite !Hstep. split; [|split].
    + intros Hle. by destruct (Z.leb_spec (Z.land (rand_calls env (w_rand s)) 255) persist);
        [|lia].
    + intros Hlt. by destruct (Z.leb_spec (Z.land (rand_calls env (w_rand s)) 255) persist);
        [lia|].
    + by destruct (Z.leb_spec (Z.land (rand_calls env (w_rand s)) 255) 255); [|lia].
  - intros Hlock. unfold Csma.wait_for_clear_channel.
    change (truthy 0) with false. cbv iota.
    assert (H255 : forall x, (Z.land x 0xff <=? 255) = true)
      by (intros x; apply Z.leb_le, land_byte_range).
    set (s1 := use_dcd (if dwait >? 0 then sleep_ms (dwait * 10) (use_dcd wait_start)
                        else use_dcd wait_start)).
    assert (Hs1 : Csma.wait_step env slottime 255 dwait AtStartOver wait_start
                  = inl (AtRandomWait, s1)).
    { cbn [Csma.wait_step]. rewrite Hclear. unfold s1.
      destruct (dwait >? 0); by rewrite Hclear. }
    set (s2 := use_rand (use_dcd (sleep_ms (slottime * 10) (use_hi s1)))).
    assert (Hs3 : Csma.wait_step env slottime 255 dwait AtTryLock s2
                  = inr (1, use_lock s2)).
    { cbn [Csma.wait_step].
      replace (w_lock s2) with 0%nat by (unfold s2, s1; by destruct (dwait >? 0)).
      by rewrite Hlock. }
    exists (use_lock s2). split.
    + change 3%nat with (S (S (S O))).
      cbn [Csma.wait_run]. rewrite Hs1. cbv beta iota.
      rewrite Hstep, H255. fold s2. by rewrite Hs3.
    + unfold s2, s1. by destruct (dwait >? 0).
  - reflexivity.
  - reflexivity.
  - reflexivity.
  - apply success_bytes_length.
Qed.

End WaitFacts.

(** What the thread does with the head of the queue after a timeout of
    [wait_for_clear_channel]. *)
Lemma xmit_thread_turn_timeout layer2_fx25 fx25_send_frame send_invalid_fcs params
    fuel chan st pp rest :
  peek_order (queue st) = pp :: rest ->
  exists q' prio,
    xmit_thread_turn layer2_fx25 fx25_send_frame send_invalid_fcs params fuel chan 0 st
    = Ok (XmitState q' (line st), [EvDiscard chan prio pp; EvDelete pp])
    /\ peek_order q' = rest.
Proof.
  intros Hq. unfold xmit_thread_turn.
  destruct (tq_remove_first _ _ _ Hq) as (prio & q' & -> & Hq').
  change (truthy 0) with false. cbv iota. by exists q', prio.
Qed.

(** C6. With [pp] first in the queue and fuel for the wait: whenever
    [wait_for_clear_channel] returns 0 the turn of the thread takes
    [pp] out of the queue, prints the discard message for it, releases
    it and does nothing else (no PTT, no frame sent; the rest of the
    queue and the line are as before, so the next turn sees the next
    frame), and the counter of 10 ms waits stands at 6001; the message
    is printed with [printf] and the turn sets no level for it, the
    error level or another; and the function does return 0, after 6001
    waits of 10 ms, when half duplex and the channel is busy at each of
    the 6001 checks, or when full duplex and the device lock is not
    obtained in 6001 attempts. *)
Theorem channel_busy_timeout (layer2_fx25 : bool) (fx25_send_frame : packet -> Z)
    (send_invalid_fcs : packet -> bool) (params : xmit_params)
    (env : wait_env) (dwait : Z)
    (fuel : nat) (chan : Z) (st : xmit_state) (pp : packet) (rest : list packet) :
  peek_order (queue st) = pp :: rest ->
  let fulldup := chan_param (xmit_fulldup params) chan in
  let wait :=
    wait_for_clear_channel env (chan_param (xmit_slottime params) chan)
      (chan_param (xmit_persist params) chan) dwait
      (Z.to_nat 6001 + fuel) fulldup wait_start in
  let iter := xmit_thread_iter layer2_fx25 fx25_send_frame send_invalid_fcs
                params env dwait (Z.to_nat 6001 + fuel) chan st in
  (forall ws,
      wait = Some (0, ws) ->
      exists st' prio,
        iter = Ok (st', [EvDiscard chan prio pp; EvDelete pp], ws)
        /\ peek_order (queue st') = rest
        /\ line st' = line st
        /\ sent_frames [EvDiscard chan prio pp; EvDelete pp] = []
        /\ ptt_events [EvDiscard chan prio pp; EvDelete pp] = []
        /\ text_colors [EvDiscard chan prio pp; EvDelete pp] = []
        /\ discard_levels None [EvDiscard chan prio pp; EvDelete pp] = [None]
        /\ w_n ws = 6001)
  /\ (truthy fulldup = false ->
      (forall i, (i <= Z.to_nat 6000)%nat -> truthy (dcd_reads env i) = true) ->
      wait = Some (0, after_busy (Z.to_nat 6001) wait_start))
  /\ (truthy fulldup = true ->
      (forall i, (i <= Z.to_nat 6000)%nat -> try_locks env i = false) ->
      wait = Some (0, after_locked (Z.to_nat 6001) wait_start))
  /\ w_slept (after_busy (Z.to_nat 6001) wait_start)
     = replicate (Z.to_nat 6001) WAIT_CHECK_EVERY_MS
  /\ w_slept (after_locked (Z.to_nat 6001) wait_start)
     = replicate (Z.to_nat 6001) WAIT_CHECK_EVERY_MS.
Proof.
  intros Hq fulldup wait iter.
  split; [|split; [|split; [|split]]].
  - intros ws Hwait. unfold iter, xmit_thread_iter.
    fold fulldup. fold wait. rewrite Hwait.
    destruct (xmit_thread_turn_timeout layer2_fx25 fx25_send_frame send_invalid_fcs
                params (Z.to_nat 6001 + fuel) chan st pp rest Hq)
      as (q' & prio & -> & Hq').
    exists (XmitState q' (line st)), prio. repeat split; auto.
    eapply wait_run_timeout_n; [|exact Hwait]. cbn. lia.
  - intros Hfd Hbusy. unfold wait, wait_for_clear_channel. rewrite Hfd.
    apply start_over_timeout; [done|]. intros i Hi. apply Hbusy, Hi.
  - intros Hfd Hbusy. unfold wait, wait_for_clear_channel. rewrite Hfd.
    apply try_lock_timeout; [done|]. intros i Hi. apply Hbusy, Hi.
  - reflexivity.
  - reflexivity.
Qed.

(** An environment in which the channel is always busy. *)
Definition busy_env : wait_env :=
  WaitEnv (fun _ => 1) (fun _ => false) (fun _ => 0) (fun _ => true).

(** An environment in which the channel is always clear. *)
Definition clear_env : wait_env :=
  WaitEnv (fun _ => 0) (fun _ => false) (fun _ => 200) (fun _ => true).

Lemma channel_busy_timeout_witness :
  exists st' prio ws,
    xmit_thread_iter false (fun _ => 0) (fun _ => false) example_params busy_env 0
      (Z.to_nat 6001 + 1) 0
      (XmitState (TQ [] [new_packet; digi_packet]) (HdlcSend.SendState 0 0 0))
    = Ok (st', [EvDiscard 0 prio new_packet; EvDelete new_packet], ws)
    /\ peek_order (queue st') = [digi_packet]
    /\ discard_levels None [EvDiscard 0 prio new_packet; EvDelete new_packet] = [None]
    /\ w_n ws = 6001.
Proof.
  pose proof (channel_busy_timeout false (fun _ => 0) (fun _ => false)
                example_params busy_env 0 1 0
                (XmitState (TQ [] [new_packet; digi_packet]) (HdlcSend.SendState 0 0 0))
                new_packet [digi_packet] eq_refl) as (Hdiscard & Hbusy & _).
  destruct (Hdiscard _ (Hbusy eq_refl (fun _ _ => eq_refl)))
    as (st' & prio & Hiter & Hq & _ & _ & _ & _ & Hlev & Hn).
  exists st', prio, (after_busy (Z.to_nat 6001) wait_start). auto.
Defined.

(** C6 as the specification words it asks for an error-level line.  On
    a channel that stays busy the turn of the thread discards the head
    of the queue and its whole output is the message printed with
    [printf] and the release of the packet: no [text_color_set] comes
    before the message, so its level is not the error level. *)
Lemma discard_message_level_counterexample :
  exists st' ws,
    xmit_thread_iter false (fun _ => 0) (fun _ => false) example_params busy_env 0
      (Z.to_nat 6001 + 1) 0
      (XmitState (TQ [] [new_packet; digi_packet]) (HdlcSend.SendState 0 0 0))
    = Ok (st', [EvDiscard 0 TQ_PRIO_1_LO new_packet; EvDelete new_packet], ws)
    /\ ~ In (EvTextColor DW_COLOR_ERROR)
           [EvDiscard 0 TQ_PRIO_1_LO new_packet; EvDelete new_packet]
    /\ discard_levels None [EvDiscard 0 TQ_PRIO_1_LO new_packet; EvDelete new_packet]
       <> [Some DW_COLOR_ERROR].
Proof.
  eexists _, _. split; [|split].
  - unfold xmit_thread_iter, wait_for_clear_channel.
    change (truthy (chan_param (xmit_fulldup example_params) 0)) with false.
    cbv iota.
    rewrite (start_over_timeout busy_env _ _ 0 wait_start 1 eq_refl
               (fun _ _ => eq_refl)).
    reflexivity.
  - intros [H|[H|[]]]; discriminate H.
  - discriminate.
Qed.

Lemma csma_persistence_witness :
  Csma.wait_step clear_env 10 63 0 AtRandomWait wait_start
  = inl (AtRandomWait,
         use_rand (use_dcd (sleep_ms (10 * 10) (use_hi wait_start))))
  /\ exists ws,
       Csma.wait_for_clear_channel clear_env 10 255 0 3 0 wait_start = Some (1, ws)
       /\ w_slept ws = [10 * 10].
Proof.
  pose proof (csma_persistence clear_env 10 63 0
                (fun _ => eq_refl) (fun _ => eq_refl)) as (Hslot & Hrun & _).
  split.
  - apply (Hslot wait_start). vm_compute. reflexivity.
  - apply Hrun. reflexivity.
Defined.

End CsmaSpec.

(** ** hdlc_rec2.c: the frame dispatcher *)

Module HdlcRec2.
Import Direwolf Rrbb HdlcRec.

(** dlq.h: [fec_type_t]. *)
Inductive fec_type_t : Type := fec_type_none | fec_type_fx25.

Definition RETRY_NONE : Z := 0.

(** What [dlq_rec_frame] is given for a received frame. *)
Record frame_event : Type := FrameEvent {
  fe_chan : Z;
  fe_subchan : Z;
  fe_slice : Z;
  fe_alevel : alevel_t;
  fe_packet : list Z;
  fe_fec_type : fec_type_t;
  fe_retries : Z
}.

(** State of the decoding of one candidate. *)
Record decode_state : Type := DecodeState {
  d_prev_raw : Z;
  d_pat_det : Z;
  d_oacc : Z;
  d_olen : Z;
  d_frame : list Z
}.

Section Dispatcher.

Variables AX25_MIN_PACKET_LEN AX25_MAX_PACKET_LEN : Z.

(** Modelled from the spec: one bit of a candidate goes through the
    steps of the per-bit procedure: NRZI decoding against the previous
    raw bit, the shift into the pattern detector, de-stuffing (a zero
    after five ones is dropped), octet assembly least significant bit
    first, a complete octet appended to the frame if there is room. *)
Definition decode_bit (st : decode_state) (raw : Z) : decode_state :=
  let dbit := Z.b2z (raw =? d_prev_raw st) in
  let pat := shift_in (d_pat_det st) dbit 0x80 in
  if Z.land pat 0xfc =? 0x7c then
    DecodeState raw pat (d_oacc st) (d_olen st) (d_frame st)
  else
    let oacc' := shift_in (d_oacc st) dbit 0x80 in
    let olen' := d_olen st + 1 in
    if olen' =? 8 then
      if Z.of_nat (length (d_frame st)) <? MAX_FRAME_LEN AX25_MAX_PACKET_LEN then
        DecodeState raw pat oacc' 0 (d_frame st ++ [oacc'])
      else
        DecodeState raw pat oacc' 0 (d_frame st)
    else
      DecodeState raw pat oacc' olen' (d_frame st).

(** Modelled from the spec: the source of [hdlc_rec2_block]
    (hdlc_rec2.c) is not part of the sources at hand.  The dispatcher
    validates a candidate raw-bit buffer and delivers one frame event
    for it: the first raw bit is the seed for NRZI decoding, the others
    are decoded into octets; a candidate of whole octets, at least
    [MIN_FRAME_LEN] of them, whose last two octets, read little-endian,
    equal the CRC-16 of the octets before them, is delivered with these
    octets as its packet.  This is the dispatcher with no bit fixing
    ([fix_bits] 0), [passall] off and one slicer. *)
Definition hdlc_rec2_block (b : rrbb_t) : option frame_event :=
  match rr_data b with
  | [] => None
  | seed :: rest =>
      let st := fold_left decode_bit rest (DecodeState seed 0 0 0 []) in
      let frame := d_frame st in
      let n := length frame in
      if (d_olen st =? 0) && (MIN_FRAME_LEN AX25_MIN_PACKET_LEN <=? Z.of_nat n) then
        let body := take (n - 2) frame in
        let actual_fcs :=
          Z.lor (default 0 (frame !! (n - 2)%nat))
                (Z.shiftl (default 0 (frame !! (n - 1)%nat)) 8) in
        if actual_fcs =? Fcs.fcs_calc body then
          Some (FrameEvent (rr_chan b) (rr_subchan b) (rr_slice b) (rr_alevel b)
                           body fec_type_none RETRY_NONE)
        else None
      else None
  end.

(** The frame events for the buffers the deframer handed on. *)
Definition dispatch (blocks : list rrbb_t) : list frame_event :=
  omap hdlc_rec2_block blocks.

End Dispatcher.

End HdlcRec2.

(** ** The pattern detector as a count of consecutive ones *)

Module PatDet.
Import Direwolf HdlcRec.

(** Number of one bits at the top of the low [n] bits of [p]: the
    number of consecutive one data bits received last, up to [n]. *)
Fixpoint run_from (n : nat) (p : Z) : nat :=
  match n with
  | O => O
  | S n' => if Z.testbit p (Z.of_nat n') then S (run_from n' p) else O
  end.

Definition run_of (p : Z) : nat := run_from 8 p.

Definition bytes : list Z := map Z.of_nat (seq 0 256).

Lemma bytes_in p : 0 <= p < 256 -> In p bytes.
Proof.
  intros Hp. unfold bytes. apply in_map_iff. exists (Z.to_nat p).
  split; [lia|]. apply in_seq. lia.
Qed.

(** A property of all octets and both bit values, checked by running it. *)
Lemma forall_bytes_bits (P : Z -> bool -> bool) :
  forallb (fun p => P p false && P p true) bytes = true ->
  forall p d, 0 <= p < 256 -> P p d = true.
Proof.
  intros H p d Hp. rewrite forallb_forall in H.
  specialize (H p (bytes_in p Hp)). apply andb_prop in H as [H0 H1].
  by destruct d.
Qed.

Definition shift_facts (p : Z) (d : bool) : bool :=
  let p' := shift_in p (Z.b2z d) 0x80 in
  (0 <=? p') && (p' <? 256)
  && Nat.eqb (run_of p') (if d then Nat.min 8 (S (run_of p)) else 0)
  && Bool.eqb (p' =? 0x7e) (negb d && Nat.eqb (run_of p) 6)
  && Bool.eqb (p' =? 0xfe) (d && Nat.eqb (run_of p) 6)
  && Bool.eqb (Z.land p' 0xfc =? 0x7c) (negb d && Nat.leb 5 (run_of p)).

Lemma shift_facts_all p d : 0 <= p < 256 -> shift_facts p d = true.
Proof.
  apply (forall_bytes_bits shift_facts). vm_compute. reflexivity.
Qed.

Section Facts.

Variables (p : Z) (d : bool).
Hypothesis Hp : 0 <= p < 256.

Lemma shift_in_range : 0 <= shift_in p (Z.b2z d) 0x80 < 256.
Proof.
  pose proof (shift_facts_all p d Hp) as H. unfold shift_facts in H.
  repeat (apply andb_prop in H as [H ?]). lia.
Qed.

Lemma shift_in_run :
  run_of (shift_in p (Z.b2z d) 0x80) = if d then Nat.min 8 (S (run_of p)) else 0%nat.
Proof.
  pose proof (shift_facts_all p d Hp) as H. unfold shift_facts in H.
  repeat (apply andb_prop in H as [H ?]).
  by apply Nat.eqb_eq.
Qed.

Lemma shift_in_flag :
  (shift_in p (Z.b2z d) 0x80 =? 0x7e) = negb d && Nat.eqb (run_of p) 6.
Proof.
  pose proof (shift_facts_all p d Hp) as H. unfold shift_facts in H.
  repeat (apply andb_prop in H as [H ?]).
  by apply Bool.eqb_prop.
Qed.

Lemma shift_in_abort :
  (shift_in p (Z.b2z d) 0x80 =? 0xfe) = d && Nat.eqb (run_of p) 6.
Proof.
  pose proof (shift_facts_all p d Hp) as H. unfold shift_facts in H.
  repeat (apply andb_prop in H as [H ?]).
  by apply Bool.eqb_prop.
Qed.

Lemma shift_in_destuff :
  (Z.land (shift_in p (Z.b2z d) 0x80) 0xfc =? 0x7c) = negb d && Nat.leb 5 (run_of p).
Proof.
  pose proof (shift_facts_all p d Hp) as H. unfold shift_facts in H.
  repeat (apply andb_prop in H as [H ?]).
  by apply Bool.eqb_prop.
Qed.

End Facts.

Lemma run_of_le p : (run_of p <= 8)%nat.
Proof.
  unfold run_of. generalize 8%nat. intros n; induction n; cbn [run_from]; [lia|].
  destruct (Z.testbit p (Z.of_nat n)); lia.
Qed.

End PatDet.

(** ** The receiving side on bit lists *)

Module RecBits.
Import Bits BitsFacts.

(** The count of consecutive ones after one more data bit, as the
    eight-bit detector sees it. *)
Definition next_run (r : nat) (d : bool) : nat :=
  if d then Nat.min 8 (S r) else 0%nat.

Fixpoint run_after (r : nat) (l : list bool) : nat :=
  match l with
  | [] => r
  | d :: t => run_after (next_run r d) t
  end.

(** De-stuffing: a zero that follows five or more ones is dropped. *)
Fixpoint destuff (r : nat) (l : list bool) : list bool :=
  match l with
  | [] => []
  | true :: t => true :: destuff (next_run r true) t
  | false :: t => if Nat.leb 5 r then destuff 0 t else false :: destuff 0 t
  end.

(** No bit of [l] arrives after exactly six ones: neither the flag nor
    the abort pattern shows up. *)
Fixpoint quiet (r : nat) (l : list bool) : bool :=
  match l with
  | [] => true
  | d :: t => negb (Nat.eqb r 6) && quiet (next_run r d) t
  end.

Lemma destuff_stuff r l : (r < 5)%nat -> destuff r (stuff_bits r l) = l.
Proof.
  revert r; induction l as [|[] l IH]; intros r Hr; cbn [stuff_bits destuff]; auto.
  - destruct (Nat.eqb_spec (S r) 5) as [E|E]; cbn [destuff next_run].
    + replace (Nat.min 8 (S r)) with 5%nat by lia. cbn [Nat.leb].
      by rewrite IH by lia.
    + replace (Nat.min 8 (S r)) with (S r) by lia. by rewrite IH by lia.
  - destruct (Nat.leb_spec 5 r); [lia|]. by rewrite IH by lia.
Qed.

Lemma quiet_stuff r l : (r < 5)%nat -> quiet r (stuff_bits r l) = true.
Proof.
  revert r; induction l as [|[] l IH]; intros r Hr; cbn [stuff_bits quiet]; auto.
  - destruct (Nat.eqb_spec (S r) 5) as [E|E]; cbn [quiet next_run].
    + replace (Nat.min 8 (S r)) with 5%nat by lia.
      destruct (Nat.eqb_spec r 6); [lia|]. cbn [negb andb Nat.eqb].
      apply IH. lia.
    + replace (Nat.min 8 (S r)) with (S r) by lia.
      destruct (Nat.eqb_spec r 6); [lia|]. cbn [negb andb]. apply IH. lia.
  - destruct (Nat.eqb_spec r 6); [lia|]. cbn [negb andb next_run]. apply IH. lia.
Qed.

Lemma run_after_stuff r l :
  (r < 5)%nat -> run_after r (stuff_bits r l) = stuff_count r l.
Proof.
  revert r; induction l as [|[] l IH]; intros r Hr;
    cbn [stuff_bits stuff_count run_after]; auto.
  - destruct (Nat.eqb_spec (S r) 5) as [E|E]; cbn [run_after next_run].
    + apply IH. lia.
    + replace (Nat.min 8 (S r)) with (S r) by lia. apply IH. lia.
  - apply IH. lia.
Qed.

Lemma quiet_app r l1 l2 :
  quiet r (l1 ++ l2) = quiet r l1 && quiet (run_after r l1) l2.
Proof.
  revert r; induction l1 as [|d l1 IH]; intros r; cbn [quiet run_after app]; auto.
  rewrite IH. by rewrite andb_assoc.
Qed.

Lemma run_after_app r l1 l2 :
  run_after r (l1 ++ l2) = run_after (run_after r l1) l2.
Proof.
  revert r; induction l1 as [|d l1 IH]; intros r; cbn [run_after app]; auto.
Qed.

Lemma last_cons {A} (a d : A) l : List.last (a :: l) d = List.last l a.
Proof.
  revert a d; induction l as [|b l IH]; intros a d; [done|].
  change (List.last (a :: b :: l) d) with (List.last (b :: l) d).
  by rewrite (IH b d), (IH b a).
Qed.

Lemma nrzi_decode_app prev l1 l2 :
  nrzi_decode prev (l1 ++ l2) =
  nrzi_decode prev l1 ++ nrzi_decode (List.last l1 prev) l2.
Proof.
  revert prev; induction l1 as [|a l1 IH]; intros prev; [done|].
  cbn [app nrzi_decode]. by rewrite IH, last_cons.
Qed.

Lemma nrzi_encode_last line l :
  List.last (nrzi_encode line l) line = nrzi_last line l.
Proof.
  revert line; induction l as [|d l IH]; intros line; [done|].
  cbn [nrzi_encode nrzi_last]. by rewrite last_cons, IH.
Qed.

End RecBits.

(** ** The deframer seen through the run of ones and the raw-bit buffer *)

Module DeframerSim.
Import Direwolf Bits BitsFacts Rrbb HdlcRec PatDet RecBits.

(** What decides the hand-offs of the deframer: the previous raw bit,
    the count of consecutive one data bits, and the raw bits collected. *)
Record abs_state : Type := Abs {
  a_prev : bool;
  a_run : nat;
  a_data : list bool
}.

Section Sim.

Variables AX25_MIN_PACKET_LEN AX25_MAX_PACKET_LEN : Z.
Variables chan subchan slice : Z.
Variable al : alevel_t.

Abbreviation MIN_FRAME_LEN := (MIN_FRAME_LEN AX25_MIN_PACKET_LEN).
Abbreviation hdlc_rec_bit :=
  (hdlc_rec_bit AX25_MIN_PACKET_LEN AX25_MAX_PACKET_LEN chan subchan slice).
Abbreviation hdlc_rec_bits :=
  (hdlc_rec_bits AX25_MIN_PACKET_LEN AX25_MAX_PACKET_LEN chan subchan slice).

Definition abs_step (a : abs_state) (rb : bool) : abs_state * option (list bool) :=
  let d := Bool.eqb rb (a_prev a) in
  if negb d && Nat.eqb (a_run a) 6 then
    let data := a_data a ++ [rb] in
    let data := take (length data - 8) data in
    (Abs rb 0 [rb],
     if Z.of_nat (length data) >=? MIN_FRAME_LEN * 8 then Some data else None)
  else if d && Nat.eqb (a_run a) 6 then
    (Abs rb (next_run (a_run a) d) [], None)
  else
    (Abs rb (next_run (a_run a) d) (a_data a ++ [rb]), None).

Fixpoint abs_run (raws : list bool) (a : abs_state)
  : abs_state * list (list bool) :=
  match raws with
  | [] => (a, [])
  | rb :: t =>
      let '(a1, h) := abs_step a rb in
      let '(a2, hs) := abs_run t a1 in
      (a2, match h with Some b => b :: hs | None => hs end)
  end.

Definition raw_z (l : list bool) : list Z := map Z.b2z l.

(** Calls of [hdlc_rec_bit] for raw bits that are not scrambled and not
    hit by the error injection. *)
Definition calls (raws : list bool) : list rec_call :=
  map (fun rb => RecCall (Z.b2z rb) 0 false al) raws.

Definition buffer (a : alevel_t) (data : list bool) : rrbb_t :=
  RRBB chan subchan slice 0 0 0 a (raw_z data).

Definition sim (H : hdlc_state_s) (a : abs_state) : Prop :=
  prev_raw H = Z.b2z (a_prev a)
  /\ 0 <= pat_det H < 256
  /\ run_of (pat_det H) = a_run a
  /\ rrbb H = buffer alevel_none (a_data a)
  /\ lfsr H = 0 /\ prev_descram H = 0.

Lemma b2z_eqb a b : (Z.b2z a =? Z.b2z b) = Bool.eqb a b.
Proof. by destruct a, b. Qed.

Lemma raw_z_app l1 l2 : raw_z (l1 ++ l2) = raw_z l1 ++ raw_z l2.
Proof. apply map_app. Qed.

Lemma raw_z_take n l : raw_z (take n l) = take n (raw_z l).
Proof. unfold raw_z. symmetry. apply firstn_map. Qed.

Lemma raw_z_length l : length (raw_z l) = length l.
Proof. apply length_map. Qed.

Lemma sim_step H a rb :
  sim H a ->
  sim (fst (hdlc_rec_bit (Z.b2z rb) 0 false al H)) (fst (abs_step a rb))
  /\ snd (hdlc_rec_bit (Z.b2z rb) 0 false al H)
     = option_map (buffer al) (snd (abs_step a rb)).
Proof.
  intros (Hprev & Hpat & Hrun & Hrr & Hl & Hd).
  unfold HdlcRec.hdlc_rec_bit, abs_step.
  rewrite Hprev, b2z_eqb.
  set (d := Bool.eqb rb (a_prev a)).
  rewrite (shift_in_flag _ d Hpat), (shift_in_abort _ d Hpat),
    (shift_in_destuff _ d Hpat), Hrun.
  pose proof (shift_in_range _ d Hpat) as Hrange.
  pose proof (shift_in_run _ d Hpat) as Hrun'. rewrite Hrun in Hrun'.
  fold (next_run (a_run a) d) in Hrun'.
  rewrite Hrr, Hl, Hd.
  unfold rrbb_chop8, rrbb_append_bit, rrbb_set_data, rrbb_get_len, rrbb_clear,
    rrbb_new, rrbb_set_audio_level, buffer.
  cbn [rr_data rr_chan rr_subchan rr_slice rr_is_scrambled rr_descram_state
         rr_prev_descram rr_alevel].
  change [Z.b2z rb] with (raw_z [rb]).
  rewrite <- !raw_z_app, !raw_z_length, <- !raw_z_take, !raw_z_length.
  destruct (negb d && Nat.eqb (a_run a) 6) eqn:Hflag.
  - apply andb_prop in Hflag as [Hd0 Hr6].
    destruct d; [discriminate|]. cbn [next_run] in Hrun'.
    destruct (_ >=? _); cbn [fst snd option_map]; (split; [|reflexivity]);
      repeat split; cbn [prev_raw pat_det rrbb lfsr prev_descram a_prev a_run a_data];
      auto; lia.
  - destruct (d && Nat.eqb (a_run a) 6) eqn:Habort.
    + cbn [fst snd option_map]. split; [|reflexivity].
      repeat split; cbn [prev_raw pat_det rrbb lfsr prev_descram a_prev a_run a_data];
        auto; lia.
    + assert (Hsim : forall oa ol fb fl,
        sim (HdlcState (Z.b2z rb) 0 0 (shift_in (pat_det H) (Z.b2z d) 128)
               (shift_in (flag4_det H) (Z.b2z d) 2147483648) oa ol fb fl
               (RRBB chan subchan slice 0 0 0 alevel_none (raw_z (a_data a ++ [rb]))))
            (Abs rb (next_run (a_run a) d) (a_data a ++ [rb]))).
      { intros. repeat split;
          cbn [prev_raw pat_det rrbb lfsr prev_descram a_prev a_run a_data];
          auto; lia. }
      destruct (negb d && Nat.leb 5 (a_run a)); [by split|].
      destruct (olen H >=? 0); [|by split].
      destruct (olen H + 1 =? 8); [|by split].
      destruct (frame_len H <? _); by split.
Qed.

Lemma sim_run raws : forall H a,
  sim H a ->
  sim (fst (hdlc_rec_bits (calls raws) H)) (fst (abs_run raws a))
  /\ snd (hdlc_rec_bits (calls raws) H)
     = map (buffer al) (snd (abs_run raws a)).
Proof.
  induction raws as [|rb raws IH]; intros H a Hsim; [by split|].
  cbn [calls map HdlcRec.hdlc_rec_bits abs_run rc_raw rc_is_scrambled
         rc_ber_hit rc_alevel].
  destruct (sim_step H a rb Hsim) as [Hs1 Hh1].
  destruct (hdlc_rec_bit (Z.b2z rb) 0 false al H) as [H1 h1].
  destruct (abs_step a rb) as [a1 h1'].
  cbn [fst snd] in *.
  destruct (IH H1 a1 Hs1) as [Hs2 Hh2].
  fold (calls raws).
  destruct (hdlc_rec_bits (calls raws) H1) as [H2 hs].
  destruct (abs_run raws a1) as [a2 hs'].
  cbn [fst snd] in *. split; [done|].
  subst h1 hs. by destruct h1'.
Qed.

(** The state [hdlc_rec_init] leaves is the start of the abstract run. *)
Lemma sim_init :
  sim (hdlc_rec_init AX25_MAX_PACKET_LEN chan subchan slice) (Abs false 0 []).
Proof. repeat split; cbn; lia. Qed.

End Sim.

End DeframerSim.

(** ** The deframer on the bit stream of one frame *)

Module FrameStream.
Import Direwolf Bits BitsFacts Rrbb HdlcRec PatDet RecBits DeframerSim.

Section Stream.

Variable AX25_MIN_PACKET_LEN : Z.

Abbreviation MIN_FRAME_LEN := (MIN_FRAME_LEN AX25_MIN_PACKET_LEN).
Abbreviation abs_step := (abs_step AX25_MIN_PACKET_LEN).
Abbreviation abs_run := (abs_run AX25_MIN_PACKET_LEN).

Lemma abs_run_app l1 l2 a :
  abs_run (l1 ++ l2) a =
  let '(a1, h1) := abs_run l1 a in
  let '(a2, h2) := abs_run l2 a1 in
  (a2, h1 ++ h2).
Proof.
  revert a; induction l1 as [|rb l1 IH]; intros a.
  - cbn [app DeframerSim.abs_run]. by destruct (abs_run l2 a).
  - cbn [app DeframerSim.abs_run]. destruct (abs_step a rb) as [a1 h].
    rewrite IH. destruct (abs_run l1 a1) as [a2 h1].
    destruct (abs_run l2 a2) as [a3 h2]. by destruct h.
Qed.

Lemma abs_step_quiet a rb :
  a_run a <> 6%nat ->
  abs_step a rb =
  (Abs rb (next_run (a_run a) (Bool.eqb rb (a_prev a))) (a_data a ++ [rb]), None).
Proof.
  intros Hr. unfold DeframerSim.abs_step.
  destruct (Nat.eqb_spec (a_run a) 6); [done|].
  by rewrite !andb_false_r.
Qed.

Lemma abs_run_quiet raws : forall a,
  quiet (a_run a) (nrzi_decode (a_prev a) raws) = true ->
  abs_run raws a =
  (Abs (List.last raws (a_prev a))
       (run_after (a_run a) (nrzi_decode (a_prev a) raws))
       (a_data a ++ raws), []).
Proof.
  induction raws as [|rb raws IH]; intros a Hq.
  - cbn. rewrite app_nil_r. by destruct a.
  - cbn [nrzi_decode quiet] in Hq. apply andb_prop in Hq as [Hr Hq].
    cbn [DeframerSim.abs_run]. rewrite abs_step_quiet
      by (intros E; rewrite E in Hr; discriminate).
    rewrite IH by exact Hq. cbn [a_prev a_run a_data nrzi_decode run_after].
    by rewrite last_cons, <- app_assoc.
Qed.

Lemma abs_step_flag a rb :
  a_run a = 6%nat -> rb = negb (a_prev a) ->
  abs_step a rb =
  (Abs rb 0 [rb],
   let data := take (length (a_data a ++ [rb]) - 8) (a_data a ++ [rb]) in
   if Z.of_nat (length data) >=? MIN_FRAME_LEN * 8 then Some data else None).
Proof.
  intros Hr ->. unfold DeframerSim.abs_step. rewrite Hr.
  by destruct (a_prev a).
Qed.

(** The raw bits of a flag sent from line level [l]: seven times the
    opposite level, then [l] again. *)
Lemma nrzi_flag l :
  nrzi_encode l flag_bits = replicate 7 (negb l) ++ [l]
  /\ nrzi_last l flag_bits = l.
Proof. by destruct l. Qed.

(** A flag that arrives in step with the decoder (its seven bits after
    the first are seen as a zero and six ones), from a run that is not
    six: seven quiet bits, then the flag is recognised and what was
    collected before the flag is handed on if it is long enough. *)
Lemma abs_run_flag l r data :
  r <> 6%nat ->
  abs_run (nrzi_encode l flag_bits) (Abs l r data) =
  (Abs l 0 [l],
   if Z.of_nat (length data) >=? MIN_FRAME_LEN * 8 then [data] else []).
Proof.
  intros Hr. destruct (nrzi_flag l) as [-> _].
  rewrite abs_run_app.
  rewrite abs_run_quiet.
  2:{ cbn [a_run a_prev]. destruct l; cbn; destruct (Nat.eqb_spec r 6); done. }
  cbn [a_prev a_run a_data DeframerSim.abs_run].
  rewrite abs_step_flag.
  2:{ cbn [a_run a_prev]. by destruct l. }
  2:{ cbn [a_prev]. by destruct l. }
  cbn [a_data]. rewrite <- app_assoc, !length_app. cbn [length replicate app].
  replace (length data + (7 + 1) - 8)%nat with (length data) by lia.
  rewrite take_app_length.
  destruct (_ >=? _); by destruct l.
Qed.

(** The first flag after [hdlc_rec_init], whatever the level of the
    line before it: the decoder ends up with the run at zero and the
    last bit of the flag as the only collected bit; nothing is handed
    on.  When the line was at the other level the first data bit is
    misread, the seven ones are taken for an abort and the flag itself
    is not recognised. *)
Lemma abs_run_first_flag l :
  0 < MIN_FRAME_LEN ->
  abs_run (nrzi_encode l flag_bits) (Abs false 0 []) = (Abs l 0 [l], []).
Proof.
  intros Hmin. destruct l.
  - reflexivity.
  - rewrite abs_run_flag by done. cbn [length].
    destruct (Z.geb_spec (Z.of_nat 0) (MIN_FRAME_LEN * 8)); [lia|done].
Qed.

(** The deframer on a whole frame: start flag, stuffed body, end flag.
    Exactly one buffer is handed on, with the last bit of the start
    flag and the raw bits of the body. *)
Lemma abs_run_frame l (body : list bool) :
  0 < MIN_FRAME_LEN ->
  MIN_FRAME_LEN * 8 <= Z.of_nat (length body) ->
  abs_run (nrzi_encode l (flag_bits ++ stuff_bits 0 body ++ flag_bits))
          (Abs false 0 []) =
  (Abs (nrzi_last l (stuff_bits 0 body)) 0 [nrzi_last l (stuff_bits 0 body)],
   [l :: nrzi_encode l (stuff_bits 0 body)]).
Proof.
  intros Hmin Hlen.
  rewrite !nrzi_encode_app. destruct (nrzi_flag l) as [_ ->].
  rewrite abs_run_app, abs_run_first_flag by done. cbv beta iota.
  rewrite abs_run_app, abs_run_quiet
    by (cbn [a_run a_prev]; rewrite nrzi_decode_encode; apply quiet_stuff; lia).
  cbv beta iota.
  cbn [a_prev a_run a_data]. rewrite nrzi_decode_encode, nrzi_encode_last.
  rewrite abs_run_flag.
  2:{ rewrite run_after_stuff by lia.
      pose proof (stuff_count_lt 0 body). lia. }
  cbn [app length]. rewrite nrzi_encode_length.
  pose proof (stuff_bits_length_ge 0 body).
  destruct (Z.geb_spec (Z.of_nat (S (length (stuff_bits 0 body))))
              (MIN_FRAME_LEN * 8)); [done|lia].
Qed.

End Stream.

End FrameStream.

(** ** Facts about the FCS *)

Module FcsFacts.
Import Fcs.

Lemma lxor_range n a b :
  0 < n -> 0 <= a < 2 ^ n -> 0 <= b < 2 ^ n -> 0 <= Z.lxor a b < 2 ^ n.
Proof.
  intros Hn Ha Hb.
  assert (0 <= Z.lxor a b) as H0 by (apply Z.lxor_nonneg; lia).
  split; [done|].
  destruct (Z.eq_dec (Z.lxor a b) 0) as [->|Hne]; [apply Z.pow_pos_nonneg; lia|].
  apply Z.log2_lt_pow2; [lia|].
  pose proof (Z.log2_lxor a b ltac:(lia) ltac:(lia)) as Hl.
  assert (Z.log2 a < n) as Hla.
  { destruct (Z.eq_dec a 0) as [->|]; [cbn; lia|]. apply Z.log2_lt_pow2; lia. }
  assert (Z.log2 b < n) as Hlb.
  { destruct (Z.eq_dec b 0) as [->|]; [cbn; lia|]. apply Z.log2_lt_pow2; lia. }
  lia.
Qed.

Lemma crc_bit_range crc : 0 <= crc < 2 ^ 16 -> 0 <= crc_bit crc < 2 ^ 16.
Proof.
  intros Hc. unfold crc_bit.
  assert (0 <= Z.shiftr crc 1 < 2 ^ 16) as Hs.
  { rewrite Z.shiftr_div_pow2 by lia. change (2 ^ 1) with 2.
    change (2 ^ 16) with 65536 in *. split.
    - apply Z.div_pos; lia.
    - apply Z.div_lt_upper_bound; lia. }
  destruct (Z.odd crc); [|done].
  apply lxor_range; [lia|done|]. change (2 ^ 16) with 65536. lia.
Qed.

Lemma crc_octet_range crc x : 0 <= crc < 2 ^ 16 -> 0 <= crc_octet crc x < 2 ^ 16.
Proof.
  intros Hc. unfold crc_octet.
  assert (0 <= Z.lxor crc (Z.land x 255) < 2 ^ 16) as H0.
  { apply lxor_range; [lia|done|].
    change (Z.land x 255) with (Z.land x (Z.ones 8)).
    rewrite Z.land_ones by lia.
    pose proof (Z.mod_pos_bound x (2 ^ 8) eq_refl).
    change (2 ^ 8) with 256 in *. change (2 ^ 16) with 65536. lia. }
  generalize 8%nat. intros n. induction n as [|n IH]; [exact H0|].
  cbn [Nat.iter nat_rect]. apply crc_bit_range, IH.
Qed.

Lemma fcs_calc_range data : 0 <= fcs_calc data < 65536.
Proof.
  unfold fcs_calc. change 65536 with (2 ^ 16).
  apply lxor_range; [lia| |done].
  assert (forall c, 0 <= c < 2 ^ 16 -> 0 <= fold_left crc_octet data c < 2 ^ 16) as H.
  { induction data as [|x data IH]; intros c Hc; [done|].
    cbn [fold_left]. apply IH, crc_octet_range, Hc. }
  by apply H.
Qed.

(** The two octets of the FCS, low octet first, read back little-endian. *)
Lemma fcs_split f :
  0 <= f < 65536 ->
  Z.lor (Z.land f 0xff) (Z.shiftl (Z.land (Z.shiftr f 8) 0xff) 8) = f.
Proof.
  intros Hf. apply Z.bits_inj'. intros n Hn.
  change 0xff with (Z.ones 8).
  rewrite Z.lor_spec, Z.land_spec, Z.shiftl_spec by done.
  rewrite Z.testbit_ones_nonneg by lia.
  destruct (Z.ltb_spec n 8) as [Hlt|Hge].
  - rewrite (Z.testbit_neg_r _ (n - 8)) by lia.
    by rewrite andb_true_r, orb_false_r.
  - rewrite Z.land_spec, Z.shiftr_spec by lia.
    rewrite Z.testbit_ones_nonneg by lia.
    replace (n - 8 + 8) with n by lia.
    rewrite andb_false_r, orb_false_l.
    destruct (Z.ltb_spec (n - 8) 8) as [Hlt|Hge']; [apply andb_true_r|].
    rewrite andb_false_r. symmetry.
    destruct (Z.eq_dec f 0) as [->|Hne]; [apply Z.bits_0|].
    apply Z.bits_above_log2; [lia|].
    assert (Z.log2 f < 16) by (apply Z.log2_lt_pow2; [lia|]; change (2 ^ 16) with 65536; lia).
    lia.
Qed.

End FcsFacts.

(** ** The dispatcher on the raw bits of one frame *)

Module DispatchFacts.
Import Direwolf Bits BitsFacts Rrbb HdlcRec HdlcRec2 PatDet RecBits DeframerSim FcsFacts.

(** Eight data bits, least significant first, shifted into the octet
    accumulator. *)
Definition acc8 (oacc x : Z) : Z :=
  fold_left (fun o d => shift_in o (Z.b2z d) 0x80) (octet_bits x) oacc.

Lemma acc8_all :
  forallb (fun o => forallb (fun x => acc8 o x =? x) bytes) bytes = true.
Proof. vm_compute. reflexivity. Qed.

Lemma acc8_octet oacc x : 0 <= oacc < 256 -> 0 <= x < 256 -> acc8 oacc x = x.
Proof.
  intros Ho Hx. pose proof acc8_all as H. rewrite forallb_forall in H.
  specialize (H oacc (bytes_in _ Ho)). rewrite forallb_forall in H.
  apply Z.eqb_eq, H, bytes_in, Hx.
Qed.

Section Decode.

Variables AX25_MIN_PACKET_LEN AX25_MAX_PACKET_LEN : Z.

Abbreviation MAX_FRAME_LEN := (MAX_FRAME_LEN AX25_MAX_PACKET_LEN).
Abbreviation MIN_FRAME_LEN := (MIN_FRAME_LEN AX25_MIN_PACKET_LEN).
Abbreviation decode_bit := (decode_bit AX25_MAX_PACKET_LEN).

(** Octet assembly alone: the accumulator, its length and the frame. *)
Definition acc_bit (st : Z * Z * list Z) (d : bool) : Z * Z * list Z :=
  let '(oacc, olen, frame) := st in
  let oacc' := shift_in oacc (Z.b2z d) 0x80 in
  if olen + 1 =? 8 then
    if Z.of_nat (length frame) <? MAX_FRAME_LEN
    then (oacc', 0, frame ++ [oacc']) else (oacc', 0, frame)
  else (oacc', olen + 1, frame).

Definition acc_of (st : decode_state) : Z * Z * list Z :=
  (d_oacc st, d_olen st, d_frame st).

Lemma decode_bit_acc st rb pb :
  d_prev_raw st = Z.b2z pb ->
  0 <= d_pat_det st < 256 ->
  let d := Bool.eqb rb pb in
  let st' := decode_bit st (Z.b2z rb) in
  d_prev_raw st' = Z.b2z rb
  /\ d_pat_det st' = shift_in (d_pat_det st) (Z.b2z d) 0x80
  /\ acc_of st' = if negb d && Nat.leb 5 (run_of (d_pat_det st))
                  then acc_of st else acc_bit (acc_of st) d.
Proof.
  intros Hprev Hpat d st'. unfold st', HdlcRec2.decode_bit.
  rewrite Hprev, b2z_eqb. fold d. rewrite (shift_in_destuff _ d Hpat).
  destruct (negb d && Nat.leb 5 (run_of (d_pat_det st))); [done|].
  unfold acc_of, acc_bit.
  destruct (d_olen st + 1 =? 8); [|done].
  by destruct (Z.of_nat (length (d_frame st)) <? MAX_FRAME_LEN).
Qed.

(** Decoding raw bits is NRZI decoding, then de-stuffing, then octet
    assembly. *)
Lemma decode_fold raws : forall st pb,
  d_prev_raw st = Z.b2z pb ->
  0 <= d_pat_det st < 256 ->
  acc_of (fold_left decode_bit (raw_z raws) st) =
  fold_left acc_bit (destuff (run_of (d_pat_det st)) (nrzi_decode pb raws))
            (acc_of st).
Proof.
  induction raws as [|rb raws IH]; intros st pb Hprev Hpat; [done|].
  cbn [raw_z map fold_left nrzi_decode]. fold (raw_z raws).
  destruct (decode_bit_acc st rb pb Hprev Hpat) as (Hp' & Hpat' & Hacc).
  set (d := Bool.eqb rb pb) in *.
  pose proof (shift_in_range _ d Hpat) as Hrange.
  pose proof (shift_in_run _ d Hpat) as Hrun.
  rewrite (IH _ rb Hp') by (rewrite Hpat'; exact Hrange).
  rewrite Hpat', Hrun, Hacc.
  destruct d; cbn [negb andb destuff fold_left next_run]; [done|].
  by destruct (Nat.leb 5 (run_of (d_pat_det st))).
Qed.

Lemma acc_bits l : forall oacc olen frame,
  0 <= olen < 8 -> olen + Z.of_nat (length l) <= 8 ->
  Z.of_nat (length frame) < MAX_FRAME_LEN ->
  fold_left acc_bit l (oacc, olen, frame) =
  let o' := fold_left (fun o d => shift_in o (Z.b2z d) 0x80) l oacc in
  if olen + Z.of_nat (length l) =? 8 then (o', 0, frame ++ [o'])
  else (o', olen + Z.of_nat (length l), frame).
Proof.
  induction l as [|d l IH]; intros oacc olen frame Hol Hlen Hroom; cbv zeta.
  - cbn [fold_left length]. destruct (Z.eqb_spec (olen + Z.of_nat 0) 8); [lia|].
    do 2 f_equal. lia.
  - cbn [fold_left length] in *. unfold acc_bit at 2.
    destruct (Z.eqb_spec (olen + 1) 8) as [E|E].
    + destruct l; [|cbn [length] in Hlen; lia]. cbn [fold_left length].
      destruct (Z.ltb_spec (Z.of_nat (length frame)) MAX_FRAME_LEN); [|lia].
      destruct (Z.eqb_spec (olen + Z.of_nat 1) 8); [done|lia].
    + rewrite IH by lia. cbv zeta.
      replace (olen + 1 + Z.of_nat (length l)) with (olen + Z.of_nat (S (length l)))
        by lia.
      reflexivity.
Qed.

Lemma acc_octet oacc frame x :
  0 <= oacc < 256 -> 0 <= x < 256 ->
  Z.of_nat (length frame) < MAX_FRAME_LEN ->
  fold_left acc_bit (octet_bits x) (oacc, 0, frame) = (x, 0, frame ++ [x]).
Proof.
  intros Ho Hx Hroom.
  rewrite acc_bits by (unfold octet_bits; rewrite ?bits_lsb_length; lia).
  cbv zeta. fold (acc8 oacc x). rewrite acc8_octet by done.
  unfold octet_bits. by rewrite bits_lsb_length.
Qed.

Lemma acc_octets l : forall oacc frame,
  0 <= oacc < 256 -> Forall (fun x => 0 <= x < 256) l ->
  Z.of_nat (length frame + length l) <= MAX_FRAME_LEN ->
  exists oacc',
    fold_left acc_bit (octets_bits l) (oacc, 0, frame) = (oacc', 0, frame ++ l)
    /\ 0 <= oacc' < 256.
Proof.
  induction l as [|x l IH]; intros oacc frame Ho Hl Hroom.
  - exists oacc. by rewrite app_nil_r.
  - apply Forall_cons in Hl as [Hx Hl]. cbn [length] in Hroom.
    unfold octets_bits. cbn [flat_map]. rewrite fold_left_app.
    rewrite acc_octet by (try done; lia).
    destruct (IH x (frame ++ [x]) Hx Hl) as (o' & Hrun & Ho').
    { rewrite length_app. cbn [length]. lia. }
    exists o'. fold (octets_bits l). rewrite Hrun. by rewrite <- app_assoc.
Qed.

End Decode.

End DispatchFacts.

(** ** Serialize, then deframe *)

Module RoundTrip.
Import Direwolf Bits BitsFacts Rrbb HdlcSend HdlcSendFacts HdlcRec HdlcRec2.
Import PatDet RecBits DeframerSim FrameStream FcsFacts DispatchFacts.

Definition is_octet (x : Z) : Prop := 0 <= x < 256.

(** The bits the demodulator delivers for what the serializer put on
    the line: one call of [hdlc_rec_bit] per bit, not scrambled, no
    error injected. *)
Definition receive (al : alevel_t) (sent : list bit_event) : list rec_call :=
  map (fun e => RecCall (ev_line e) 0 false al) sent.

Lemma receive_mk_events al line l :
  line = 0 \/ line = 1 ->
  receive al (mk_events line l) = calls al (nrzi_encode (truthy line) l).
Proof.
  unfold receive, calls. revert line; induction l as [|d l IH]; intros line Hl; [done|].
  cbn [mk_events map nrzi_encode]. rewrite IH.
  - cbn [ev_line]. do 2 f_equal.
    + destruct d, Hl as [-> | ->]; reflexivity.
    + do 2 f_equal. destruct d; by rewrite ?truthy_lnot.
  - destruct d; [done|]. unfold lnot. destruct (line =? 0); auto.
Qed.

Section RoundTrip.

Variables AX25_MIN_PACKET_LEN AX25_MAX_PACKET_LEN : Z.
Variables chan subchan slice : Z.
Variable al : alevel_t.

Abbreviation hdlc_rec2_block :=
  (hdlc_rec2_block AX25_MIN_PACKET_LEN AX25_MAX_PACKET_LEN).

Hypothesis Hmin : 0 <= AX25_MIN_PACKET_LEN.

Lemma fcs_octets_good payload :
  fcs_octets payload 0 =
  [Z.land (Fcs.fcs_calc payload) 0xff;
   Z.land (Z.shiftr (Fcs.fcs_calc payload) 8) 0xff].
Proof. reflexivity. Qed.

(** The dispatcher delivers a candidate made of a seed bit and the raw
    bits of a stuffed payload with its FCS. *)
Lemma dispatch_frame l payload :
  Forall is_octet payload ->
  AX25_MIN_PACKET_LEN <= Z.of_nat (length payload) <= AX25_MAX_PACKET_LEN ->
  hdlc_rec2_block
    (buffer chan subchan slice al
       (l :: nrzi_encode l
               (stuff_bits 0 (octets_bits (payload ++ fcs_octets payload 0)))))
  = Some (FrameEvent chan subchan slice al payload fec_type_none RETRY_NONE).
Proof.
  intros Hoct Hlen. unfold HdlcRec2.hdlc_rec2_block, buffer.
  cbn [rr_data rr_chan rr_subchan rr_slice rr_alevel raw_z map].
  fold (raw_z (nrzi_encode l
     (stuff_bits 0 (octets_bits (payload ++ fcs_octets payload 0))))).
  set (st := fold_left _ _ _).
  assert (Hacc : exists o, acc_of st = (o, 0, payload ++ fcs_octets payload 0)).
  { unfold st. rewrite (decode_fold _ _ _ l) by (cbn; (done || lia)).
    cbn [d_pat_det]. change (run_of 0) with 0%nat.
    rewrite nrzi_decode_encode, destuff_stuff by lia.
    destruct (acc_octets AX25_MAX_PACKET_LEN (payload ++ fcs_octets payload 0) 0 [])
      as (o & Hrun & _).
    - lia.
    - apply Forall_app; split; [exact Hoct|].
      rewrite fcs_octets_good. repeat constructor;
        apply CsmaSpec.land_byte_range || (pose proof (CsmaSpec.land_byte_range
          (Z.shiftr (Fcs.fcs_calc payload) 8)); unfold is_octet; lia)
        || (pose proof (CsmaSpec.land_byte_range (Fcs.fcs_calc payload));
            unfold is_octet; lia).
    - rewrite length_app. cbn [length fcs_octets]. unfold HdlcRec.MAX_FRAME_LEN.
      rewrite fcs_octets_good. cbn [length]. lia.
    - exists o. exact Hrun. }
  destruct Hacc as (o & Hacc). unfold acc_of in Hacc.
  injection Hacc as _ Holen Hframe. rewrite Holen, Hframe.
  rewrite length_app, fcs_octets_good. cbn [length].
  replace (length payload + 2 - 2)%nat with (length payload) by lia.
  replace (length payload + 2 - 1)%nat with (length payload + 1)%nat by lia.
  rewrite take_app_length.
  rewrite lookup_app_r by lia. rewrite lookup_app_r by lia.
  replace (length payload - length payload)%nat with 0%nat by lia.
  replace (length payload + 1 - length payload)%nat with 1%nat by lia.
  cbn [lookup list_lookup from_option id].
  rewrite fcs_split by apply fcs_calc_range. rewrite !Z.eqb_refl.
  unfold HdlcRec.MIN_FRAME_LEN.
  destruct (Z.leb_spec (AX25_MIN_PACKET_LEN + 2) (Z.of_nat (length payload + 2)));
    [done|lia].
Qed.

End RoundTrip.


End RoundTrip.

(** ** An abort in the middle of a frame *)

Module MidFrameAbort.
Import Direwolf Bits BitsFacts Rrbb HdlcSend HdlcSendFacts HdlcRec HdlcRec2.
Import HdlcRecSpec PatDet RoundTrip.

(** [l1] occurs in [l2] as a run of consecutive elements. *)
Definition infix {A} (l1 l2 : list A) : Prop :=
  exists k1 k2, l2 = k1 ++ l1 ++ k2.

(** The raw bits [hdlc_rec_bit] works on, after the error injection. *)
Definition effective_raw (c : rec_call) : Z :=
  if rc_ber_hit c then lnot (rc_raw c) else rc_raw c.

Definition effective_raws (cs : list rec_call) : list Z := map effective_raw cs.

Lemma infix_app_r {A} (l1 l2 k : list A) : infix l1 l2 -> infix l1 (l2 ++ k).
Proof.
  intros (k1 & k2 & ->). exists k1, (k2 ++ k). by rewrite <- !app_assoc.
Qed.

Lemma suffix_take_infix {A} (l1 l2 : list A) n :
  l1 `suffix_of` l2 -> infix (take n l1) l2.
Proof.
  intros (k & ->). exists k, (drop n l1). by rewrite take_drop.
Qed.

Section AbortSection.

Variables AX25_MIN_PACKET_LEN AX25_MAX_PACKET_LEN : Z.
Variables chan subchan slice : Z.

Abbreviation hdlc_rec_bit :=
  (hdlc_rec_bit AX25_MIN_PACKET_LEN AX25_MAX_PACKET_LEN chan subchan slice).
Abbreviation hdlc_rec_bits :=
  (hdlc_rec_bits AX25_MIN_PACKET_LEN AX25_MAX_PACKET_LEN chan subchan slice).

(** One call: the buffer stays a suffix of the raw bits seen, and a
    buffer handed on is a run of them. *)
Lemma hdlc_rec_bit_suffix c H pre :
  rr_data (rrbb H) `suffix_of` pre ->
  let r := hdlc_rec_bit (rc_raw c) (rc_is_scrambled c) (rc_ber_hit c)
             (rc_alevel c) H in
  rr_data (rrbb (fst r)) `suffix_of` (pre ++ [effective_raw c])
  /\ (forall b, snd r = Some b -> infix (rr_data b) (pre ++ [effective_raw c])).
Proof.
  intros Hsuf. cbv zeta. unfold effective_raw.
  set (raw := if rc_ber_hit c then lnot (rc_raw c) else rc_raw c).
  assert (Happ : (rr_data (rrbb H) ++ [raw]) `suffix_of` (pre ++ [raw])).
  { destruct Hsuf as (k & ->). exists k. by rewrite app_assoc. }
  assert (Hone : [raw] `suffix_of` (pre ++ [raw])) by (by exists pre).
  assert (Hnil : [] `suffix_of` (pre ++ [raw])) by apply suffix_nil.
  rec_bit_cases; fold raw;
    cbn [fst snd rrbb rr_data rrbb_append_bit rrbb_set_data rrbb_clear rrbb_new
           rrbb_chop8 rrbb_set_audio_level app];
    (split; [done|]); try discriminate.
  intros b [= <-]. cbn [rr_data]. by apply suffix_take_infix.
Qed.

Lemma hdlc_rec_bits_infix cs : forall H pre,
  rr_data (rrbb H) `suffix_of` pre ->
  Forall (fun b => infix (rr_data b) (pre ++ effective_raws cs))
         (snd (hdlc_rec_bits cs H)).
Proof.
  induction cs as [|c cs IH]; intros H pre Hsuf; [by constructor|].
  cbn [HdlcRec.hdlc_rec_bits effective_raws map].
  destruct (hdlc_rec_bit_suffix c H pre Hsuf) as [Hs1 Hb1].
  destruct (hdlc_rec_bit _ _ _ _ H) as [H1 h]. cbn [fst snd] in *.
  specialize (IH H1 _ Hs1).
  destruct (hdlc_rec_bits cs H1) as [H2 hs]. cbn [snd] in *.
  fold (effective_raws cs). rewrite <- app_assoc in IH. cbn [app] in IH.
  destruct h as [b|]; [|done].
  constructor; [|done]. pose proof (Hb1 b eq_refl) as Hb.
  apply infix_app_r with (k := effective_raws cs) in Hb.
  by rewrite <- app_assoc in Hb.
Qed.

(** A one data bit (the raw bit repeats the previous one, no error
    injected) never completes a flag; it completes the abort pattern
    exactly when six ones came before it. *)
Lemma hdlc_rec_bit_one scr al H :
  0 <= pat_det H < 256 ->
  let r := hdlc_rec_bit (prev_raw H) scr false al H in
  prev_raw (fst r) = prev_raw H
  /\ 0 <= pat_det (fst r) < 256
  /\ run_of (pat_det (fst r)) = Nat.min 8 (S (run_of (pat_det H)))
  /\ (run_of (pat_det H) = 6%nat -> pat_det (fst r) = 0xfe)
  /\ snd r = None.
Proof.
  intros Hpat. cbv zeta.
  pose proof (shift_in_range _ true Hpat) as Hrange.
  pose proof (shift_in_run _ true Hpat) as Hrun.
  pose proof (shift_in_flag _ true Hpat) as Hflag.
  pose proof (shift_in_abort _ true Hpat) as Habort.
  cbn [negb andb Z.b2z] in *.
  unfold HdlcRec.hdlc_rec_bit. rewrite Z.eqb_refl. cbn [Z.b2z].
  rewrite Hflag, Habort.
  assert (Hab : run_of (pat_det H) = 6%nat ->
                shift_in (pat_det H) 1 128 = 254).
  { intros E. rewrite E in Habort. by apply Z.eqb_eq. }
  destruct (Nat.eqb (run_of (pat_det H)) 6);
    repeat match goal with
           | |- context [if ?b then _ else _] => destruct b
           end;
    cbn [fst snd prev_raw pat_det]; repeat split; auto; lia.
Qed.

(** Ones in a row reach the abort pattern: from a run of at most six,
    after [7 - run] one bits the detector is 0xFE, and nothing was
    handed on meanwhile. *)
Lemma ones_reach_abort scr al (k : nat) : forall H,
  0 <= pat_det H < 256 ->
  (run_of (pat_det H) + k = 6)%nat ->
  let r := hdlc_rec_bits (replicate (S k) (RecCall (prev_raw H) scr false al)) H in
  pat_det (fst r) = 0xfe /\ snd r = [] /\ olen (fst r) = -1
  /\ frame_len (fst r) = 0 /\ rr_data (rrbb (fst r)) = [].
Proof.
  induction k as [|k IH]; intros H Hpat Hrun; cbv zeta.
  - cbn [replicate HdlcRec.hdlc_rec_bits rc_raw rc_is_scrambled rc_ber_hit rc_alevel].
    destruct (hdlc_rec_bit_one scr al H Hpat) as (_ & _ & _ & Hfe & Hnone).
    pose proof (hdlc_rec_bit_abort AX25_MIN_PACKET_LEN AX25_MAX_PACKET_LEN
                  chan subchan slice (prev_raw H) scr false al H) as Hab.
    destruct (hdlc_rec_bit (prev_raw H) scr false al H) as [H1 h].
    cbn [fst snd] in *. subst h.
    destruct (Hab (Hfe ltac:(lia))) as (Ho & Hf & Hr & _).
    by rewrite Hfe by lia.
  - change (replicate (S (S k)) (RecCall (prev_raw H) scr false al))
      with (RecCall (prev_raw H) scr false al
            :: replicate (S k) (RecCall (prev_raw H) scr false al)).
    cbn [HdlcRec.hdlc_rec_bits rc_raw rc_is_scrambled rc_ber_hit rc_alevel].
    destruct (hdlc_rec_bit_one scr al H Hpat) as (Hprev & Hpat1 & Hrun1 & _ & Hnone).
    destruct (hdlc_rec_bit (prev_raw H) scr false al H) as [H1 h].
    cbn [fst snd] in *. subst h.
    specialize (IH H1 Hpat1). rewrite Hprev in IH.
    cbv zeta in IH.
    destruct (hdlc_rec_bits (replicate (S k) _) H1) as [H2 hs].
    cbn [fst snd] in *. apply IH. rewrite Hrun1. lia.
Qed.

(** C3, as the code has it.  Whenever the pattern detector, after the
    new bit is shifted in, equals 0xFE, the call sets [olen] to -1 and
    [frame_len] to 0, empties the raw-bit buffer and hands nothing to
    the dispatcher.  Consequently, eight one data bits in a row, from a
    state that has seen at most six ones in a row, reach that point
    within eight bits, and what was received before is discarded:
    every buffer handed to the dispatcher by the calls that follow is a
    run of the raw bits of those calls. *)
Theorem abort_discards_frame_in_progress :
  (forall (c : rec_call) (H : hdlc_state_s),
      let r := hdlc_rec_bit (rc_raw c) (rc_is_scrambled c) (rc_ber_hit c)
                 (rc_alevel c) H in
      pat_det (fst r) = 0xfe ->
      olen (fst r) = -1 /\ frame_len (fst r) = 0
      /\ rr_data (rrbb (fst r)) = [] /\ snd r = None)
  /\ (forall (scr : Z) (al : alevel_t) (H : hdlc_state_s),
        0 <= pat_det H < 256 ->
        (run_of (pat_det H) <= 6)%nat ->
        let ones := replicate 8 (RecCall (prev_raw H) scr false al) in
        exists n, (0 < n <= 7)%nat /\
          let r := hdlc_rec_bits (take n ones) H in
          pat_det (fst r) = 0xfe
          /\ snd r = []
          /\ olen (fst r) = -1 /\ frame_len (fst r) = 0
          /\ rr_data (rrbb (fst r)) = []
          /\ forall cs,
               Forall (fun b => infix (rr_data b) (effective_raws cs))
                      (snd (hdlc_rec_bits cs (fst r)))).
Proof.
  split.
  - intros c H. apply hdlc_rec_bit_abort.
  - intros scr al H Hpat Hrun. cbv zeta.
    exists (S (6 - run_of (pat_det H))). split; [lia|].
    replace (take (S (6 - run_of (pat_det H)))
               (replicate 8 (RecCall (prev_raw H) scr false al)))
      with (replicate (S (6 - run_of (pat_det H)))
              (RecCall (prev_raw H) scr false al))
      by (rewrite take_replicate; f_equal; lia).
    destruct (ones_reach_abort scr al (6 - run_of (pat_det H)) H Hpat ltac:(lia))
      as (Hfe & Hnone & Ho & Hf & Hr).
    repeat split; auto. intros cs.
    apply (hdlc_rec_bits_infix cs _ []). rewrite Hr. apply suffix_nil.
Qed.

End AbortSection.

End MidFrameAbort.

(** ** Worked examples *)

Module Examples.
Import Direwolf Bits Rrbb HdlcSend HdlcSendFacts HdlcRec HdlcRec2 HdlcRecSpec.
Import DeframerSim RoundTrip MidFrameAbort.

(** Destination TEST, source WB2OSZ-15, control octet of a UI frame. *)
Definition header_packet : list Z :=
  [168; 138; 166; 168; 64; 64; 96; 174; 132; 100; 158; 166; 180; 127; 3].

(** The same with the PID and "The quick brown fox". *)
Definition fox_packet : list Z :=
  header_packet ++
  [240; 84; 104; 101; 32; 113; 117; 105; 99; 107; 32;
   98; 114; 111; 119; 110; 32; 102; 111; 120].

(** Two octets that take the CRC register from 0xFFFF back to 0xFFFF,
    followed by [header_packet]: the FCS of the whole is the FCS of
    [header_packet]. *)
Definition crafted_packet : list Z := [222; 12] ++ header_packet.

(** Eight one data bits put into a stream of data bits after [k] bits. *)
Definition inject_ones (k : nat) (dbits : list bool) : list bool :=
  take k dbits ++ replicate 8 true ++ drop k dbits.


(** C3 as worded fails.  [crafted_packet] is serialized, eight one data
    bits are put into the data bits after the start flag and the first
    two octets (24 bits), and the stream, NRZI encoded, is fed to the
    deframer.  At the seventh of the eight ones the detector is 0xFE and
    the frame in progress is dropped ([olen] -1, buffer empty); but the
    bits that follow are collected from there, handed to the dispatcher
    at the closing flag, and delivered as a frame event for
    [header_packet]. *)
Lemma abort_mid_frame_counterexample :
  let '(_, _, sent) := ax25_only_hdlc_send_frame crafted_packet 0 (SendState 0 0 0) in
  let raws := nrzi_encode false (inject_ones 24 (data_bits sent)) in
  let cs := calls alevel_none raws in
  let H0 := hdlc_rec_init 256 0 0 0 in
  take 24 (data_bits sent) = flag_bits ++ octets_bits [222; 12]
  /\ pat_det (fst (hdlc_rec_bits 15 256 0 0 0 (take 31 cs) H0)) = 0xfe
  /\ olen (fst (hdlc_rec_bits 15 256 0 0 0 (take 31 cs) H0)) = -1
  /\ rr_data (rrbb (fst (hdlc_rec_bits 15 256 0 0 0 (take 31 cs) H0))) = []
  /\ dispatch 15 256 (snd (hdlc_rec_bits 15 256 0 0 0 cs H0))
     = [FrameEvent 0 0 0 alevel_none header_packet fec_type_none RETRY_NONE].
Proof. vm_compute. repeat split. Qed.

Lemma abort_discards_frame_in_progress_witness :
  let ones := replicate 8 (RecCall 0 0 false alevel_none) in
  exists n, (0 < n <= 7)%nat /\
    let r := hdlc_rec_bits 15 256 0 0 0 (take n ones) (example_state 0xf8) in
    pat_det (fst r) = 0xfe
    /\ snd r = []
    /\ olen (fst r) = -1 /\ frame_len (fst r) = 0
    /\ rr_data (rrbb (fst r)) = []
    /\ forall cs,
         Forall (fun b => infix (rr_data b) (effective_raws cs))
                (snd (hdlc_rec_bits 15 256 0 0 0 cs (fst r))).
Proof.
  apply (proj2 (abort_discards_frame_in_progress 15 256 0 0 0)
           0 alevel_none (example_state 0xf8)).
  - cbn. lia.
  - vm_compute. lia.
Defined.

End Examples.

(** * Beyond the specification

    The modules below follow the code further than the specification
    does: the filler flags and the cost of bit stuffing (hdlc_send.c),
    how the deframer finds its step, reassembles a frame and stays idle
    (hdlc_rec.c), the DCD output, the paths of the wait for a clear
    channel and the time the transmitter stays keyed (xmit.c), the tone
    generator (gen_tone.c), the queue of received frames (dlq.c) with
    its consumer and the audio input thread (recv.c), and the audio
    file of gen_packets.c. *)

(** ** hdlc_send.c: the filler flags and the cost of bit stuffing *)

Module Preamble.
Import Direwolf Bits BitsFacts HdlcSend HdlcSendFacts.

(** [layer2_preamble_postamble] with the bits it puts on the line.
    [audio_flush], called when [finish] is set, puts no bit on the
    line. *)
Definition layer2_preamble_postamble (nbytes finish : Z) : Send Z :=
  let* s0 := get in
  put (SendState (output s0) (stuff s0) 0) ;;;
  send_flags (Z.to_nat nbytes) ;;;
  let* s := get in
  ret (number_of_bits_sent s).

(** The data bits of [n] flags in a row. *)
Definition flags_bits (n : nat) : list bool := concat (replicate n flag_bits).

Lemma flags_bits_length n : length (flags_bits n) = (8 * n)%nat.
Proof.
  unfold flags_bits. induction n as [|n IH]; [done|].
  cbn [replicate concat]. rewrite length_app, IH. cbn [flag_bits length]. lia.
Qed.

(** The two zeros of a flag invert the line twice. *)
Lemma line_after_flag line :
  line = 0 \/ line = 1 -> line_after line flag_bits = line.
Proof. by intros [-> | ->]. Qed.

Lemma line_after_flags n line :
  line = 0 \/ line = 1 -> line_after line (flags_bits n) = line.
Proof.
  intros Hl. unfold flags_bits. induction n as [|n IH]; [done|].
  cbn [replicate concat]. by rewrite line_after_app, line_after_flag, IH.
Qed.

Lemma send_flags_run n s :
  send_flags n s =
  (tt, SendState (line_after (output s) (flags_bits n))
                 (match n with O => stuff s | S _ => 0 end)
                 (number_of_bits_sent s + 8 * Z.of_nat n),
   mk_events (output s) (flags_bits n)).
Proof.
  revert s; induction n as [|n IH]; intros s.
  - destruct s; cbn. by rewrite Z.add_0_r.
  - cbn [send_flags]. unfold bind. rewrite send_control_nrzi_run, IH.
    cbn [output stuff number_of_bits_sent].
    unfold flags_bits. cbn [replicate concat].
    change (octet_bits 126) with flag_bits.
    rewrite line_after_app, mk_events_app.
    do 2 f_equal. f_equal; [by destruct n | lia].
Qed.

Lemma nrzi_encode_flags n l :
  nrzi_encode l (flags_bits n) = concat (replicate n (nrzi_encode l flag_bits)).
Proof.
  unfold flags_bits. induction n as [|n IH]; [done|].
  cbn [replicate concat]. rewrite nrzi_encode_app, <- IH.
  by destruct l.
Qed.

(** X1. The filler flags.  From a line level of 0 or 1,
    [layer2_preamble_postamble] sends [nbytes] times the flag octet,
    bit for bit and without a stuffed zero although the flag has six
    ones in a row; every flag looks the same on the line (seven bits
    at the opposite level, then one at the level before) and leaves the
    line level as it found it; the result, and the bit counter, is
    [8 * nbytes], or 0 for a count that is not positive, in which case
    nothing at all is sent and the ones-run counter keeps its value; and
    the scheduler's view of the function agrees. *)
Theorem preamble_postamble_flags (nbytes finish : Z) (s : send_state) :
  output s = 0 \/ output s = 1 ->
  let '(nbits, s', sent) := layer2_preamble_postamble nbytes finish s in
  let n := Z.to_nat nbytes in
  data_bits sent = concat (replicate n flag_bits)
  /\ line_bits sent =
     concat (replicate n (replicate 7 (negb (truthy (output s)))
                          ++ [truthy (output s)]))
  /\ nbits = 8 * Z.max 0 nbytes
  /\ number_of_bits_sent s' = nbits
  /\ output s' = output s
  /\ (0 < nbytes -> stuff s' = 0)
  /\ (nbytes <= 0 -> sent = [] /\ stuff s' = stuff s)
  /\ Xmit.layer2_preamble_postamble nbytes s = (nbits, s').
Proof.
  intros Hout. unfold layer2_preamble_postamble, Xmit.layer2_preamble_postamble.
  cbv [bind get put ret]. rewrite send_flags_run.
  cbn [output stuff number_of_bits_sent app]. cbv zeta.
  rewrite !app_nil_r, data_bits_mk_events, line_bits_mk_events, nrzi_encode_flags.
  rewrite line_after_flags by done.
  assert (Hflag : nrzi_encode (truthy (output s)) flag_bits
                  = replicate 7 (negb (truthy (output s))) ++ [truthy (output s)])
    by (by destruct (truthy (output s))).
  rewrite Hflag.
  assert (Hn : 0 + 8 * Z.of_nat (Z.to_nat nbytes) = 8 * Z.max 0 nbytes) by lia.
  rewrite Hn.
  split; [done|]. split; [done|]. split; [done|]. split; [done|].
  split; [done|]. split; [|split].
  - intros Hpos. destruct (Z.to_nat nbytes) eqn:E; [lia|done].
  - intros Hle. replace (Z.to_nat nbytes) with 0%nat by lia. done.
  - done.
Qed.

Lemma preamble_postamble_flags_witness :
  let '(nbits, s', sent) := layer2_preamble_postamble 2 0 (SendState 1 3 99) in
  data_bits sent = concat (replicate 2 flag_bits)
  /\ line_bits sent = concat (replicate 2 (replicate 7 false ++ [true]))
  /\ nbits = 16
  /\ number_of_bits_sent s' = nbits
  /\ output s' = 1
  /\ (0 < 2 -> stuff s' = 0)
  /\ (2 <= 0 -> sent = [] /\ stuff s' = 3)
  /\ Xmit.layer2_preamble_postamble 2 (SendState 1 3 99) = (nbits, s').
Proof.
  apply (preamble_postamble_flags 2 0 (SendState 1 3 99)). right. reflexivity.
Defined.

End Preamble.

Module StuffingCost.
Import Direwolf Bits BitsFacts HdlcSend HdlcSendFacts.

(** Every stuffed zero is paid for by five one bits: five times the
    number of zeros added, plus the run in progress at the end, is at
    most the run in progress at the start plus the length of the data. *)
Lemma stuff_bits_cost c l :
  (5 * (length (stuff_bits c l) - length l) + stuff_count c l <= c + length l)%nat.
Proof.
  revert c; induction l as [|[] l IH]; intros c;
    cbn [stuff_bits stuff_count length]; [lia| |].
  - pose proof (stuff_bits_length_ge 0 l). pose proof (stuff_bits_length_ge (S c) l).
    destruct (Nat.eqb_spec (S c) 5) as [E|E]; cbn [length].
    + specialize (IH 0%nat). lia.
    + specialize (IH (S c)). lia.
  - pose proof (stuff_bits_length_ge 0 l). specialize (IH 0%nat). lia.
Qed.

(** X2. The number of bits [ax25_only_hdlc_send_frame] returns, for a
    frame of [n] octets: the two flags and the [n + 2] octets of frame
    and FCS, and at most one stuffed zero for every five of the
    [8 * (n + 2)] data bits in between, whatever the octets are. *)
Theorem send_frame_bit_count (fbuf : list Z) (bad_fcs : Z) (s : send_state) :
  let n := Z.of_nat (length fbuf) in
  let nbits := fst (fst (ax25_only_hdlc_send_frame fbuf bad_fcs s)) in
  8 * (n + 4) <= nbits <= 8 * (n + 4) + (8 * (n + 2)) / 5.
Proof.
  cbv zeta. rewrite send_frame_run. cbn [fst].
  unfold frame_bits, frame_body_bits. rewrite !length_app.
  change (length flag_bits) with 8%nat.
  set (body := octets_bits (fbuf ++ fcs_octets fbuf bad_fcs)).
  assert (Hlen : length body = (8 * (length fbuf + 2))%nat).
  { unfold body. rewrite octets_bits_length, length_app.
    unfold fcs_octets. by destruct (truthy bad_fcs). }
  pose proof (stuff_bits_length_ge 0 body) as Hge.
  pose proof (stuff_bits_cost 0 body) as Hcost.
  split; [lia|].
  assert (Z.of_nat (length (stuff_bits 0 body)) - Z.of_nat (length body)
          <= (8 * (Z.of_nat (length fbuf) + 2)) / 5); [|lia].
  apply Z.div_le_lower_bound; lia.
Qed.

End StuffingCost.

(** ** hdlc_rec.c: flags bring the deframer into step *)

Module FlagSync.
Import Direwolf Bits BitsFacts Rrbb HdlcSend HdlcSendFacts HdlcRec HdlcRecSpec.
Import PatDet RecBits DeframerSim RoundTrip MidFrameAbort Preamble.

(** The previous raw bit and the pattern detector after one call, from
    their values before and the raw bit the call works on. *)
Definition track (st : Z * Z) (raw : Z) : Z * Z :=
  (raw, shift_in (snd st) (Z.b2z (raw =? fst st)) 0x80).

(** The deframer has just seen a flag that ended at line level [line]. *)
Definition in_step (line : Z) (H : hdlc_state_s) : Prop :=
  pat_det H = 0x7e /\ prev_raw H = line.

(** The detector after two flags sent from line level [l], when the
    detector held [p] before and the first bit of the first flag was
    read as [d]. *)
Definition sync_pat (p : Z) (d l : bool) : Z * Z :=
  fold_left track (raw_z (tail (nrzi_encode l (flag_bits ++ flag_bits))))
            (Z.b2z (negb l), shift_in p (Z.b2z d) 0x80).

Definition sync_check (p : Z) (d : bool) : bool :=
  forallb (fun l => (fst (sync_pat p d l) =? Z.b2z l) && (snd (sync_pat p d l) =? 0x7e))
          [false; true].

Lemma sync_check_all p d : 0 <= p < 256 -> sync_check p d = true.
Proof. apply (forall_bytes_bits sync_check). vm_compute. reflexivity. Qed.

Lemma sync_pat_flag p d l : 0 <= p < 256 -> sync_pat p d l = (Z.b2z l, 0x7e).
Proof.
  intros Hp. pose proof (sync_check_all p d Hp) as H. unfold sync_check in H.
  cbn [forallb] in H. rewrite andb_true_r in H.
  apply andb_prop in H as [Hf Ht].
  apply andb_prop in Hf as [Hf1 Hf2]. apply andb_prop in Ht as [Ht1 Ht2].
  apply Z.eqb_eq in Hf1, Hf2, Ht1, Ht2.
  destruct (sync_pat p d false) eqn:Ef, (sync_pat p d true) eqn:Et.
  cbn [fst snd] in *. destruct l; congruence.
Qed.

Section Sync.

Variables AX25_MIN_PACKET_LEN AX25_MAX_PACKET_LEN : Z.
Variables chan subchan slice : Z.

Abbreviation hdlc_rec_bit :=
  (hdlc_rec_bit AX25_MIN_PACKET_LEN AX25_MAX_PACKET_LEN chan subchan slice).
Abbreviation hdlc_rec_bits :=
  (hdlc_rec_bits AX25_MIN_PACKET_LEN AX25_MAX_PACKET_LEN chan subchan slice).

Lemma hdlc_rec_bits_app cs1 cs2 H :
  hdlc_rec_bits (cs1 ++ cs2) H =
  let '(H1, h1) := hdlc_rec_bits cs1 H in
  let '(H2, h2) := hdlc_rec_bits cs2 H1 in
  (H2, h1 ++ h2).
Proof.
  revert H; induction cs1 as [|c cs1 IH]; intros H.
  - cbn [app HdlcRec.hdlc_rec_bits]. by destruct (hdlc_rec_bits cs2 H).
  - cbn [app HdlcRec.hdlc_rec_bits].
    destruct (hdlc_rec_bit _ _ _ _ H) as [H1 h]. rewrite IH.
    destruct (hdlc_rec_bits cs1 H1) as [H2 h1].
    destruct (hdlc_rec_bits cs2 H2) as [H3 h2]. by destruct h.
Qed.

Lemma hdlc_rec_bit_track c H :
  let H' := fst (hdlc_rec_bit (rc_raw c) (rc_is_scrambled c) (rc_ber_hit c)
                   (rc_alevel c) H) in
  (prev_raw H', pat_det H') = track (prev_raw H, pat_det H) (effective_raw c).
Proof.
  cbv zeta. unfold track, effective_raw. cbn [fst snd].
  rec_bit_cases; reflexivity.
Qed.

Lemma hdlc_rec_bits_track cs : forall H,
  let H' := fst (hdlc_rec_bits cs H) in
  (prev_raw H', pat_det H') =
  fold_left track (effective_raws cs) (prev_raw H, pat_det H).
Proof.
  induction cs as [|c cs IH]; intros H; [done|].
  cbn [HdlcRec.hdlc_rec_bits effective_raws map fold_left].
  pose proof (hdlc_rec_bit_track c H) as Hc. cbv zeta in Hc.
  destruct (hdlc_rec_bit _ _ _ _ H) as [H1 h]. cbn [fst] in Hc.
  specialize (IH H1). cbv zeta in IH.
  destruct (hdlc_rec_bits cs H1) as [H2 hs]. cbn [fst] in *.
  by rewrite IH, Hc.
Qed.

(** The flag branch: whenever the detector equals 0x7E after a call,
    the call has reset [olen] and [frame_len] to 0 and left the raw bit
    as the only one in the buffer; the frame buffer is not touched. *)
Lemma hdlc_rec_bit_flag c H :
  let H' := fst (hdlc_rec_bit (rc_raw c) (rc_is_scrambled c) (rc_ber_hit c)
                   (rc_alevel c) H) in
  pat_det H' = 0x7e ->
  olen H' = 0 /\ frame_len H' = 0 /\ rr_data (rrbb H') = [effective_raw c]
  /\ frame_buf H' = frame_buf H /\ oacc H' = oacc H.
Proof.
  cbv zeta. unfold effective_raw.
  rec_bit_cases;
    cbn [fst pat_det olen frame_len rrbb frame_buf oacc rr_data rrbb_append_bit
           rrbb_set_data rrbb_new rrbb_clear rrbb_chop8 app];
    intros Hp; try (exfalso; lia); auto.
Qed.

Lemma calls_app al l1 l2 : calls al (l1 ++ l2) = calls al l1 ++ calls al l2.
Proof. apply map_app. Qed.

Lemma effective_raws_calls al raws : effective_raws (calls al raws) = raw_z raws.
Proof.
  unfold effective_raws, calls, raw_z. rewrite map_map. by apply map_ext.
Qed.

(** A sequence of calls whose last one leaves the flag in the detector. *)
Lemma hdlc_rec_bits_ends_with_flag cs c H line :
  fold_left track (effective_raws (cs ++ [c])) (prev_raw H, pat_det H)
  = (line, 0x7e) ->
  let H' := fst (hdlc_rec_bits (cs ++ [c]) H) in
  in_step line H' /\ olen H' = 0 /\ frame_len H' = 0
  /\ rr_data (rrbb H') = [line].
Proof.
  intros Htrack. cbv zeta.
  pose proof (hdlc_rec_bits_track (cs ++ [c]) H) as Ht. cbv zeta in Ht.
  rewrite Htrack in Ht. injection Ht as Hprev Hpat.
  rewrite hdlc_rec_bits_app in Hprev, Hpat |- *.
  destruct (hdlc_rec_bits cs H) as [H1 h1].
  cbn [HdlcRec.hdlc_rec_bits] in *.
  pose proof (hdlc_rec_bit_flag c H1) as Hflag. cbv zeta in Hflag.
  pose proof (hdlc_rec_bit_track c H1) as Hc. cbv zeta in Hc.
  destruct (hdlc_rec_bit _ _ _ _ H1) as [H2 h]. cbn [fst] in *.
  destruct (Hflag Hpat) as (Ho & Hf & Hrr & _).
  unfold track in Hc. injection Hc as Hraw _. rewrite Hprev in Hraw.
  unfold in_step. rewrite Hrr, <- Hraw. auto.
Qed.

Lemma two_flags_in_step al l H :
  0 <= pat_det H < 256 ->
  let H' := fst (hdlc_rec_bits (calls al (nrzi_encode l (flag_bits ++ flag_bits))) H) in
  in_step (Z.b2z l) H' /\ olen H' = 0 /\ frame_len H' = 0
  /\ rr_data (rrbb H') = [Z.b2z l].
Proof.
  intros Hp.
  assert (Hsplit : exists raws rb,
    nrzi_encode l (flag_bits ++ flag_bits) = raws ++ [rb]).
  { destruct l; by eexists (_ :: _ :: _ :: _ :: _ :: _ :: _ :: _ :: _ :: _ :: _
                              :: _ :: _ :: _ :: [_]), _. }
  destruct Hsplit as (raws & rb & Hsplit).
  assert (Hcalls : calls al (nrzi_encode l (flag_bits ++ flag_bits))
                   = calls al raws ++ [RecCall (Z.b2z rb) 0 false al]).
  { rewrite Hsplit. by rewrite calls_app. }
  rewrite Hcalls. apply hdlc_rec_bits_ends_with_flag.
  rewrite <- Hcalls, effective_raws_calls.
  assert (Hfirst : nrzi_encode l (flag_bits ++ flag_bits)
                   = negb l :: tail (nrzi_encode l (flag_bits ++ flag_bits)))
    by (by destruct l).
  rewrite Hfirst at 1. cbn [raw_z map fold_left]. fold (raw_z).
  unfold track at 2. cbn [fst snd].
  exact (sync_pat_flag (pat_det H) (Z.b2z (negb l) =? prev_raw H) l Hp).
Qed.

Lemma one_flag_keeps_step al l H :
  in_step (Z.b2z l) H ->
  let H' := fst (hdlc_rec_bits (calls al (nrzi_encode l flag_bits)) H) in
  in_step (Z.b2z l) H' /\ olen H' = 0 /\ frame_len H' = 0
  /\ rr_data (rrbb H') = [Z.b2z l].
Proof.
  intros [Hpat Hprev].
  assert (Hcalls : calls al (nrzi_encode l flag_bits)
                   = calls al (replicate 7 (negb l)) ++ [RecCall (Z.b2z l) 0 false al])
    by (by destruct l).
  rewrite Hcalls. apply hdlc_rec_bits_ends_with_flag.
  rewrite <- Hcalls, effective_raws_calls, Hpat, Hprev. by destruct l.
Qed.

Lemma flags_in_step al l n : forall H,
  0 <= pat_det H < 256 ->
  let H' := fst (hdlc_rec_bits (calls al (nrzi_encode l (flags_bits (S (S n))))) H) in
  in_step (Z.b2z l) H' /\ olen H' = 0 /\ frame_len H' = 0
  /\ rr_data (rrbb H') = [Z.b2z l].
Proof.
  induction n as [|n IH]; intros H Hp.
  - unfold flags_bits. cbn [replicate concat]. rewrite app_nil_r.
    by apply two_flags_in_step.
  - assert (Hbits : flags_bits (S (S (S n))) = flags_bits (S (S n)) ++ flag_bits).
    { unfold flags_bits. rewrite <- (concat_app _ [flag_bits]).
      f_equal. change [flag_bits] with (replicate 1 flag_bits).
      rewrite <- replicate_add. f_equal. lia. }
    rewrite Hbits, nrzi_encode_app.
    assert (Hl : nrzi_last l (flags_bits (S (S n))) = l).
    { generalize (S (S n)). intros k. unfold flags_bits.
      induction k as [|k IHk]; [done|].
      cbn [replicate concat]. rewrite nrzi_last_app.
      replace (nrzi_last l flag_bits) with l by (by destruct l). exact IHk. }
    rewrite Hl, calls_app, hdlc_rec_bits_app.
    specialize (IH H Hp). cbv zeta in IH.
    destruct (hdlc_rec_bits (calls al (nrzi_encode l (flags_bits (S (S n))))) H)
      as [H1 h1]. cbn [fst] in IH.
    destruct IH as (Hstep & _).
    pose proof (one_flag_keeps_step al l H1 Hstep) as Hone. cbv zeta in Hone.
    destruct (hdlc_rec_bits (calls al (nrzi_encode l flag_bits)) H1) as [H2 h2].
    exact Hone.
Qed.

End Sync.

(** X3. Two flags are enough.  Whatever the deframer has seen before (any
    detector contents, any previous raw bit, any [olen]), after the
    bits of a preamble of two or more flags sent by
    [layer2_preamble_postamble] it is in step with the sender: the
    detector holds the flag, the previous raw bit is the line level,
    [olen] and [frame_len] are 0 and the raw-bit buffer holds the last
    bit of the last flag only. *)
Theorem flags_bring_deframer_in_step
    (AX25_MIN_PACKET_LEN AX25_MAX_PACKET_LEN chan subchan slice : Z)
    (al : alevel_t) (nbytes finish : Z) (s : send_state) (H : hdlc_state_s) :
  output s = 0 \/ output s = 1 ->
  0 <= pat_det H < 256 ->
  2 <= nbytes ->
  let '(_, _, sent) := layer2_preamble_postamble nbytes finish s in
  let H' := fst (hdlc_rec_bits AX25_MIN_PACKET_LEN AX25_MAX_PACKET_LEN
                   chan subchan slice (receive al sent) H) in
  in_step (output s) H' /\ olen H' = 0 /\ frame_len H' = 0
  /\ rr_data (rrbb H') = [output s].
Proof.
  intros Hout Hp Hn. unfold layer2_preamble_postamble.
  cbv [bind get put ret]. rewrite send_flags_run.
  cbn [output stuff number_of_bits_sent app]. rewrite !app_nil_r.
  rewrite receive_mk_events by done.
  assert (Hb : Z.b2z (truthy (output s)) = output s) by (by destruct Hout as [-> | ->]).
  replace (Z.to_nat nbytes) with (S (S (Z.to_nat (nbytes - 2)))) by lia.
  rewrite <- Hb, truthy_b2z.
  apply flags_in_step. exact Hp.
Qed.

Lemma flags_bring_deframer_in_step_witness :
  let '(_, _, sent) := layer2_preamble_postamble 3 0 (SendState 1 0 0) in
  let H' := fst (hdlc_rec_bits 15 256 0 0 0 (receive alevel_none sent)
                   (example_state 0xff)) in
  in_step 1 H' /\ olen H' = 0 /\ frame_len H' = 0 /\ rr_data (rrbb H') = [1].
Proof.
  apply (flags_bring_deframer_in_step 15 256 0 0 0 alevel_none 3 0
           (SendState 1 0 0) (example_state 0xff)).
  - right. reflexivity.
  - cbn. lia.
  - lia.
Defined.

End FlagSync.

(** ** hdlc_rec.c: the frame buffer of the deframer *)

Module Reassembly.
Import Direwolf Bits BitsFacts Rrbb HdlcSend HdlcSendFacts HdlcRec HdlcRecSpec.
Import PatDet RecBits DeframerSim DispatchFacts RoundTrip MidFrameAbort.
Import Preamble FlagSync.

Section Reassemble.

Variables AX25_MIN_PACKET_LEN AX25_MAX_PACKET_LEN : Z.
Variables chan subchan slice : Z.
Variable al : alevel_t.

Abbreviation MAX_FRAME_LEN := (MAX_FRAME_LEN AX25_MAX_PACKET_LEN).
Abbreviation hdlc_rec_bit :=
  (hdlc_rec_bit AX25_MIN_PACKET_LEN AX25_MAX_PACKET_LEN chan subchan slice).
Abbreviation hdlc_rec_bits :=
  (hdlc_rec_bits AX25_MIN_PACKET_LEN AX25_MAX_PACKET_LEN chan subchan slice).
Abbreviation acc_bit := (acc_bit AX25_MAX_PACKET_LEN).

(** The [unsigned char] fields hold octets and the frame buffer has the
    size it is declared with. *)
Definition wf_state (H : hdlc_state_s) : Prop :=
  0 <= pat_det H < 256 /\ 0 <= oacc H < 256
  /\ length (frame_buf H) = Z.to_nat MAX_FRAME_LEN.

(** The octet in progress and the octets collected so far. *)
Definition acc_view (H : hdlc_state_s) : Z * Z * list Z :=
  (oacc H, olen H, take (Z.to_nat (frame_len H)) (frame_buf H)).

Lemma hdlc_rec_bit_wf raw scr ber a H :
  wf_state H -> wf_state (fst (hdlc_rec_bit raw scr ber a H)).
Proof.
  intros (Hp & Ho & Hl). unfold wf_state.
  pose proof (fun d => shift_in_range (pat_det H) d Hp) as Hp'.
  pose proof (fun d => shift_in_range (oacc H) d Ho) as Ho'.
  rec_bit_cases; cbn [fst pat_det oacc frame_buf]; rewrite ?length_insert; auto.
Qed.

Lemma hdlc_rec_bits_wf cs : forall H,
  wf_state H -> wf_state (fst (hdlc_rec_bits cs H)).
Proof.
  induction cs as [|c cs IH]; intros H Hwf; [done|].
  cbn [HdlcRec.hdlc_rec_bits].
  pose proof (hdlc_rec_bit_wf (rc_raw c) (rc_is_scrambled c) (rc_ber_hit c)
                (rc_alevel c) H Hwf) as H1wf.
  destruct (hdlc_rec_bit _ _ _ _ H) as [H1 h]. cbn [fst] in H1wf.
  specialize (IH H1 H1wf). by destruct (hdlc_rec_bits cs H1).
Qed.

(** One call away from a flag and an abort: the bit is dropped when it
    is a stuffed zero and shifted into the octet otherwise. *)
Lemma hdlc_rec_bit_quiet rb pb H :
  prev_raw H = Z.b2z pb -> wf_state H ->
  run_of (pat_det H) <> 6%nat ->
  0 <= olen H <= 7 -> 0 <= frame_len H <= MAX_FRAME_LEN ->
  let d := Bool.eqb rb pb in
  let H' := fst (hdlc_rec_bit (Z.b2z rb) 0 false al H) in
  prev_raw H' = Z.b2z rb
  /\ wf_state H'
  /\ run_of (pat_det H') = next_run (run_of (pat_det H)) d
  /\ 0 <= olen H' <= 7 /\ 0 <= frame_len H' <= MAX_FRAME_LEN
  /\ acc_view H' = (if negb d && Nat.leb 5 (run_of (pat_det H))
                    then acc_view H else acc_bit (acc_view H) d).
Proof.
  intros Hprev Hwf Hrun Hol Hfl d H'.
  pose proof (hdlc_rec_bit_wf (Z.b2z rb) 0 false al H Hwf) as Hwf'. fold H' in Hwf'.
  destruct Hwf as (Hp & Ho & Hlen).
  assert (Hr6 : Nat.eqb (run_of (pat_det H)) 6 = false) by (by apply Nat.eqb_neq).
  pose proof (shift_in_run _ d Hp) as Hrun'. fold (next_run (run_of (pat_det H)) d) in Hrun'.
  split; [|split; [exact Hwf'|]]; unfold H', HdlcRec.hdlc_rec_bit;
    rewrite Hprev, b2z_eqb; fold d;
    rewrite (shift_in_flag _ d Hp), (shift_in_abort _ d Hp),
      (shift_in_destuff _ d Hp), Hr6, !andb_false_r.
  - destruct (negb d && Nat.leb 5 (run_of (pat_det H))); [done|].
    destruct (olen H >=? 0); [|done].
    destruct (olen H + 1 =? 8); [|done].
    by destruct (frame_len H <? _).
  - unfold acc_view, DispatchFacts.acc_bit.
    destruct (negb d && Nat.leb 5 (run_of (pat_det H)));
      [cbn [fst pat_det olen frame_len oacc frame_buf]; repeat split; (done || lia)|].
    destruct (Z.geb_spec (olen H) 0) as [_|]; [|lia].
    rewrite length_take_le by lia. rewrite Z2Nat.id by lia.
    destruct (Z.eqb_spec (olen H + 1) 8) as [E|E].
    + destruct (Z.ltb_spec (frame_len H) MAX_FRAME_LEN) as [Hlt|Hge];
        cbn [fst pat_det olen frame_len oacc frame_buf];
        (split; [done|]); (split; [lia|]); (split; [lia|]); [|done].
      f_equal. replace (Z.to_nat (frame_len H + 1)) with (S (Z.to_nat (frame_len H)))
        by lia.
      rewrite (take_S_r _ _ (shift_in (oacc H) (Z.b2z d) 128))
        by (apply list_lookup_insert_eq; lia).
      by rewrite take_insert_ge by lia.
    + cbn [fst pat_det olen frame_len oacc frame_buf].
      repeat split; (done || lia).
Qed.

(** A run of calls away from flags and aborts. *)
Lemma hdlc_rec_bits_quiet raws : forall H pb,
  prev_raw H = Z.b2z pb -> wf_state H ->
  0 <= olen H <= 7 -> 0 <= frame_len H <= MAX_FRAME_LEN ->
  quiet (run_of (pat_det H)) (nrzi_decode pb raws) = true ->
  let H' := fst (hdlc_rec_bits (calls al raws) H) in
  prev_raw H' = Z.b2z (List.last raws pb)
  /\ wf_state H'
  /\ run_of (pat_det H') = run_after (run_of (pat_det H)) (nrzi_decode pb raws)
  /\ 0 <= olen H' <= 7 /\ 0 <= frame_len H' <= MAX_FRAME_LEN
  /\ acc_view H' =
     fold_left acc_bit (destuff (run_of (pat_det H)) (nrzi_decode pb raws))
               (acc_view H).
Proof.
  induction raws as [|rb raws IH]; intros H pb Hprev Hwf Hol Hfl Hq; [done|].
  cbn [nrzi_decode quiet] in Hq. apply andb_prop in Hq as [Hr Hq].
  assert (Hr6 : run_of (pat_det H) <> 6%nat)
    by (intros E; rewrite E in Hr; discriminate).
  destruct (hdlc_rec_bit_quiet rb pb H Hprev Hwf Hr6 Hol Hfl)
    as (Hprev1 & Hwf1 & Hrun1 & Hol1 & Hfl1 & Hacc1).
  cbn [calls map HdlcRec.hdlc_rec_bits rc_raw rc_is_scrambled rc_ber_hit rc_alevel].
  fold (calls al raws).
  destruct (hdlc_rec_bit (Z.b2z rb) 0 false al H) as [H1 h1]. cbn [fst] in *.
  rewrite <- Hrun1 in Hq.
  specialize (IH H1 rb Hprev1 Hwf1 Hol1 Hfl1 Hq). cbv zeta in IH.
  destruct (hdlc_rec_bits (calls al raws) H1) as [H2 hs]. cbn [fst] in *.
  destruct IH as (Hprev2 & Hwf2 & Hrun2 & Hol2 & Hfl2 & Hacc2).
  cbn [nrzi_decode run_after]. rewrite last_cons.
  split; [done|]. split; [done|]. split; [by rewrite Hrun2, Hrun1|].
  split; [done|]. split; [done|].
  rewrite Hacc2, Hacc1, Hrun1.
  destruct (Bool.eqb rb pb); cbn [negb andb destuff next_run fold_left]; [done|].
  by destruct (Nat.leb 5 (run_of (pat_det H))).
Qed.

Lemma fcs_octets_are_octets payload bad_fcs :
  Forall is_octet (fcs_octets payload bad_fcs).
Proof.
  unfold fcs_octets, is_octet.
  destruct (truthy bad_fcs); repeat constructor;
    match goal with
    | |- _ <= Z.land ?x _ => pose proof (CsmaSpec.land_byte_range x); lia
    | |- Z.land ?x _ < _ => pose proof (CsmaSpec.land_byte_range x); lia
    end.
Qed.

Lemma fcs_octets_length payload bad_fcs : length (fcs_octets payload bad_fcs) = 2%nat.
Proof. unfold fcs_octets. by destruct (truthy bad_fcs). Qed.

(** Bits that do not complete the octet in progress. *)
Lemma acc_bits_partial l : forall o ol frame,
  0 <= ol -> ol + Z.of_nat (length l) < 8 ->
  fold_left acc_bit l (o, ol, frame) =
  (fold_left (fun o d => shift_in o (Z.b2z d) 0x80) l o,
   ol + Z.of_nat (length l), frame).
Proof.
  induction l as [|d l IH]; intros o ol frame Hol Hlen.
  - cbn [fold_left length]. do 2 f_equal. lia.
  - cbn [fold_left length] in *. unfold DispatchFacts.acc_bit at 2.
    destruct (Z.eqb_spec (ol + 1) 8) as [E|E]; [lia|].
    rewrite IH by lia. do 2 f_equal. lia.
Qed.

(** The seven bits of a flag before its last one, after a stuffed body:
    they are shifted into the octet in progress, none completes it. *)
Lemma seven_flag_bits r :
  (r < 5)%nat ->
  quiet r [false; true; true; true; true; true; true] = true
  /\ destuff r [false; true; true; true; true; true; true]
     = [false; true; true; true; true; true; true]
  /\ run_after r [false; true; true; true; true; true; true] = 6%nat.
Proof.
  intros Hr. destruct r as [|[|[|[|[|r]]]]]; try lia; by vm_compute.
Qed.

End Reassemble.

(** X4. The frame buffer of the deframer holds what was sent.  A deframer
    in step with the sender (its detector holds a flag that ended at
    the sender's line level, as after any preamble of two flags) is fed
    the bits of one frame from [ax25_only_hdlc_send_frame].  When all
    bits but the last one of the closing flag are in, [frame_len] is the
    length of the frame plus two, the frame buffer starts with the
    octets of the frame followed by the two FCS octets as sent, and
    seven bits of the closing flag sit in the octet in progress; the
    last bit resets [frame_len] and [olen] to 0, leaves the octets in
    the buffer, and the deframer is in step for the next frame. *)
Theorem deframer_reassembles_frame
    (AX25_MIN_PACKET_LEN AX25_MAX_PACKET_LEN chan subchan slice : Z)
    (al : alevel_t) (payload : list Z) (bad_fcs : Z) (s : send_state)
    (H : hdlc_state_s) :
  output s = 0 \/ output s = 1 ->
  in_step (output s) H ->
  wf_state AX25_MAX_PACKET_LEN H ->
  Forall is_octet payload ->
  Z.of_nat (length payload) <= AX25_MAX_PACKET_LEN ->
  let '(_, s', sent) := ax25_only_hdlc_send_frame payload bad_fcs s in
  let cs := receive al sent in
  let H1 := fst (hdlc_rec_bits AX25_MIN_PACKET_LEN AX25_MAX_PACKET_LEN
                   chan subchan slice (take (length cs - 1) cs) H) in
  let H2 := fst (hdlc_rec_bits AX25_MIN_PACKET_LEN AX25_MAX_PACKET_LEN
                   chan subchan slice cs H) in
  frame_len H1 = Z.of_nat (length payload) + 2
  /\ take (length payload + 2) (frame_buf H1) = payload ++ fcs_octets payload bad_fcs
  /\ olen H1 = 7
  /\ frame_len H2 = 0 /\ olen H2 = 0
  /\ frame_buf H2 = frame_buf H1
  /\ in_step (output s') H2.
Proof.
  intros Hout Hstep Hwf Hoct Hlen. rewrite send_frame_run.
  rewrite receive_mk_events by done.
  unfold frame_bits, frame_body_bits.
  set (l := truthy (output s)).
  assert (Hb : output s = Z.b2z l) by (unfold l; by destruct Hout as [-> | ->]).
  set (octs := payload ++ fcs_octets payload bad_fcs).
  set (body := stuff_bits 0 (octets_bits octs)).
  set (lb := nrzi_last l body).
  assert (Hraws : nrzi_encode l (flag_bits ++ body ++ flag_bits)
                  = nrzi_encode l flag_bits ++ nrzi_encode l body
                    ++ replicate 7 (negb lb) ++ [lb]).
  { rewrite !nrzi_encode_app.
    replace (nrzi_last l flag_bits) with l by (by destruct l).
    fold lb. f_equal. f_equal. by destruct lb. }
  assert (Hline : line_after (output s) (flag_bits ++ body ++ flag_bits) = Z.b2z lb).
  { assert (Ht : truthy (line_after (output s) (flag_bits ++ body ++ flag_bits)) = lb).
    { rewrite truthy_line_after. fold l. rewrite !nrzi_last_app.
      replace (nrzi_last l flag_bits) with l by (by destruct l).
      fold lb. by destruct lb. }
    assert (H01 : forall x t, x = 0 \/ x = 1 -> line_after x t = 0 \/ line_after x t = 1).
    { intros x t; revert x; induction t as [|d t IH]; intros x Hx; [done|].
      cbn [line_after]. apply IH. destruct d; [done|].
      unfold lnot. destruct (x =? 0); auto. }
    destruct (H01 (output s) (flag_bits ++ body ++ flag_bits) Hout) as [E|E];
      rewrite E in Ht |- *; by subst lb; rewrite <- Ht. }
  cbv zeta. cbn [output]. rewrite Hline, Hraws.
  set (front := nrzi_encode l flag_bits ++ nrzi_encode l body ++ replicate 7 (negb lb)).
  assert (Hcs : calls al (nrzi_encode l flag_bits ++ nrzi_encode l body
                          ++ replicate 7 (negb lb) ++ [lb])
                = calls al front ++ [RecCall (Z.b2z lb) 0 false al]).
  { change [RecCall (Z.b2z lb) 0 false al] with (calls al [lb]).
    unfold front. rewrite <- !calls_app. f_equal. by rewrite <- !app_assoc. }
  rewrite Hcs, length_app. cbn [length].
  replace (length (calls al front) + 1 - 1)%nat with (length (calls al front)) by lia.
  rewrite take_app_length.
  rewrite (hdlc_rec_bits_app _ _ _ _ _ (calls al front)).
  assert (Hfront :
    let Hc := fst (hdlc_rec_bits AX25_MIN_PACKET_LEN AX25_MAX_PACKET_LEN
                     chan subchan slice (calls al front) H) in
    prev_raw Hc = Z.b2z (negb lb)
    /\ wf_state AX25_MAX_PACKET_LEN Hc
    /\ run_of (pat_det Hc) = 6%nat
    /\ olen Hc = 7
    /\ frame_len Hc = Z.of_nat (length payload) + 2
    /\ take (Z.to_nat (frame_len Hc)) (frame_buf Hc) = octs).
  { (* the start flag *)
    unfold front. rewrite !calls_app.
    rewrite (hdlc_rec_bits_app _ _ _ _ _ (calls al (nrzi_encode l flag_bits))).
    rewrite Hb in Hstep.
    pose proof (one_flag_keeps_step AX25_MIN_PACKET_LEN AX25_MAX_PACKET_LEN
                  chan subchan slice al l H Hstep) as Ha.
    pose proof (hdlc_rec_bits_wf AX25_MIN_PACKET_LEN AX25_MAX_PACKET_LEN
                  chan subchan slice (calls al (nrzi_encode l flag_bits)) H Hwf) as Hwfa.
    cbv zeta in Ha.
    destruct (hdlc_rec_bits _ _ _ _ _ (calls al (nrzi_encode l flag_bits)) H)
      as [Ha' ha]. cbn [fst] in Ha, Hwfa.
    destruct Ha as ((Hpa & Hpra) & Hoa & Hfa & _).
    (* the body *)
    rewrite (hdlc_rec_bits_app _ _ _ _ _ (calls al (nrzi_encode l body))).
    pose proof (hdlc_rec_bits_quiet AX25_MIN_PACKET_LEN AX25_MAX_PACKET_LEN
                  chan subchan slice al (nrzi_encode l body) Ha' l Hpra Hwfa) as Hbq.
    rewrite Hpa, Hoa, Hfa, nrzi_decode_encode in Hbq.
    change (run_of 126) with 0%nat in Hbq.
    assert (Hmax : 0 <= HdlcRec.MAX_FRAME_LEN AX25_MAX_PACKET_LEN)
      by (unfold HdlcRec.MAX_FRAME_LEN; lia).
    specialize (Hbq ltac:(lia) ltac:(lia) ltac:(apply quiet_stuff; lia)).
    cbv zeta in Hbq.
    destruct (hdlc_rec_bits _ _ _ _ _ (calls al (nrzi_encode l body)) Ha')
      as [Hb' hb]. cbn [fst] in Hbq.
    destruct Hbq as (Hprb & Hwfb & Hrunb & Holb & Hflb & Haccb).
    unfold body in Hrunb, Haccb at 1.
    rewrite destuff_stuff in Haccb by lia.
    rewrite run_after_stuff in Hrunb by lia.
    unfold acc_view in Haccb at 2. rewrite Hoa, Hfa in Haccb.
    change (take (Z.to_nat 0) (frame_buf Ha')) with (@nil Z) in Haccb.
    destruct Hwfa as (_ & Hoacca & _).
    destruct (acc_octets AX25_MAX_PACKET_LEN octs (oacc Ha') [] Hoacca)
      as (o1 & Hocts & Ho1).
    { unfold octs. apply Forall_app. split; [done|apply fcs_octets_are_octets]. }
    { unfold octs. rewrite length_app, fcs_octets_length. cbn [length].
      unfold HdlcRec.MAX_FRAME_LEN. lia. }
    rewrite Hocts in Haccb. cbn [app] in Haccb.
    rewrite nrzi_encode_last in Hprb. fold lb in Hprb.
    (* seven bits of the closing flag *)
    pose proof (stuff_count_lt 0 (octets_bits octs) ltac:(lia)) as Hr5.
    destruct (seven_flag_bits (stuff_count 0 (octets_bits octs)) Hr5)
      as (Hq7 & Hd7 & Hr7).
    pose proof (hdlc_rec_bits_quiet AX25_MIN_PACKET_LEN AX25_MAX_PACKET_LEN
                  chan subchan slice al (replicate 7 (negb lb)) Hb' lb Hprb Hwfb
                  Holb Hflb) as Hcq.
    assert (Hdec : nrzi_decode lb (replicate 7 (negb lb))
                   = [false; true; true; true; true; true; true]) by (by destruct lb).
    rewrite Hdec, Hrunb in Hcq. specialize (Hcq Hq7). cbv zeta in Hcq.
    destruct (hdlc_rec_bits _ _ _ _ _ (calls al (replicate 7 (negb lb))) Hb')
      as [Hc' hc]. cbn [fst] in Hcq |- *.
    destruct Hcq as (Hprc & Hwfc & Hrunc & Holc & Hflc & Haccc).
    rewrite Hd7, Haccb in Haccc. rewrite Hr7 in Hrunc.
    rewrite (acc_bits_partial AX25_MAX_PACKET_LEN) in Haccc by (cbn [length]; lia).
    change (0 + Z.of_nat (length [false; true; true; true; true; true; true]))
      with 7 in Haccc.
    unfold acc_view in Haccc. injection Haccc as _ Holen7 Hframe.
    replace (List.last (replicate 7 (negb lb)) lb) with (negb lb) in Hprc
      by (by destruct lb).
    split; [done|]. split; [done|]. split; [done|]. split; [done|].
    split; [|done].
    apply (f_equal (@length Z)) in Hframe.
    destruct Hwfc as (_ & _ & Hlenc).
    rewrite length_take_le in Hframe by lia.
    unfold octs in Hframe. rewrite length_app, fcs_octets_length in Hframe. lia. }
  cbv zeta in Hfront.
  destruct (hdlc_rec_bits _ _ _ _ _ (calls al front) H) as [Hc' hc].
  cbn [fst] in Hfront |- *.
  destruct Hfront as (Hprc & Hwfc & Hrunc & Holen7 & Hfl7 & Hframe).
  (* the last bit of the closing flag *)
  cbn [HdlcRec.hdlc_rec_bits].
  pose proof (hdlc_rec_bit_flag AX25_MIN_PACKET_LEN AX25_MAX_PACKET_LEN
                chan subchan slice (RecCall (Z.b2z lb) 0 false al) Hc') as Hflag.
  pose proof (hdlc_rec_bit_track AX25_MIN_PACKET_LEN AX25_MAX_PACKET_LEN
                chan subchan slice (RecCall (Z.b2z lb) 0 false al) Hc') as Htr.
  cbv zeta in Hflag, Htr. cbn [rc_raw rc_is_scrambled rc_ber_hit rc_alevel] in *.
  destruct (HdlcRec.hdlc_rec_bit _ _ _ _ _ (Z.b2z lb) 0 false al Hc') as [Hd' hd].
  cbn [fst] in *.
  unfold track, effective_raw in Htr. cbn [fst snd rc_ber_hit rc_raw] in Htr.
  injection Htr as Hprd Hpatd.
  assert (Hpat7e : pat_det Hd' = 0x7e).
  { rewrite Hpatd, Hprc.
    rewrite b2z_eqb. replace (Bool.eqb lb (negb lb)) with false by (by destruct lb).
    destruct Hwfc as (Hpc & _).
    pose proof (shift_in_flag _ false Hpc) as Hf. rewrite Hrunc in Hf.
    cbn in Hf. by apply Z.eqb_eq. }
  destruct (Hflag Hpat7e) as (Ho0 & Hf0 & _ & Hbuf & _).
  split; [exact Hfl7|]. split.
  { rewrite <- Hframe, Hfl7. f_equal. lia. }
  split; [exact Holen7|]. split; [exact Hf0|]. split; [exact Ho0|].
  split; [exact Hbuf|]. by split.
Qed.

Lemma deframer_reassembles_frame_witness :
  let '(_, s', sent) :=
    ax25_only_hdlc_send_frame [0x82; 0xff; 0x3e] 0 (SendState 0 0 0) in
  let cs := receive alevel_none sent in
  let H1 := fst (hdlc_rec_bits 15 256 0 0 0 (take (length cs - 1) cs)
                   (example_state 0x7e)) in
  let H2 := fst (hdlc_rec_bits 15 256 0 0 0 cs (example_state 0x7e)) in
  frame_len H1 = Z.of_nat (length [0x82; 0xff; 0x3e]) + 2
  /\ take (length [0x82; 0xff; 0x3e] + 2) (frame_buf H1)
     = [0x82; 0xff; 0x3e] ++ fcs_octets [0x82; 0xff; 0x3e] 0
  /\ olen H1 = 7
  /\ frame_len H2 = 0 /\ olen H2 = 0
  /\ frame_buf H2 = frame_buf H1
  /\ in_step (output s') H2.
Proof.
  apply (deframer_reassembles_frame 15 256 0 0 0 alevel_none [0x82; 0xff; 0x3e] 0
           (SendState 0 0 0) (example_state 0x7e)).
  - left. reflexivity.
  - split; reflexivity.
  - repeat split; cbn; lia.
  - repeat constructor; cbn; lia.
  - cbn. lia.
Defined.

End Reassembly.

(** ** hdlc_rec.c: the polarity of the signal does not matter *)

Module Polarity.
Import Direwolf Rrbb HdlcRec HdlcRecSpec.

Definition is_bit (x : Z) : Prop := x = 0 \/ x = 1.

(** The same buffer with every raw bit inverted. *)
Definition invert_bits (b : rrbb_t) : rrbb_t :=
  rrbb_set_data b (map lnot (rr_data b)).

(** The same decoder state, had every raw bit so far been inverted. *)
Definition invert_state (H : hdlc_state_s) : hdlc_state_s :=
  HdlcState (lnot (prev_raw H)) (lfsr H) (prev_descram H) (pat_det H)
            (flag4_det H) (oacc H) (olen H) (frame_buf H) (frame_len H)
            (invert_bits (rrbb H)).

Definition invert_call (c : rec_call) : rec_call :=
  RecCall (lnot (rc_raw c)) (rc_is_scrambled c) (rc_ber_hit c) (rc_alevel c).

Lemma lnot_bit x : is_bit x -> is_bit (lnot x) /\ lnot (lnot x) = x.
Proof. by intros [-> | ->]; split; [right | | left | ]. Qed.

Lemma lnot_eqb x y : is_bit x -> is_bit y -> (lnot x =? lnot y) = (x =? y).
Proof. by intros [-> | ->] [-> | ->]. Qed.

Lemma invert_append b v :
  rrbb_append_bit (invert_bits b) (lnot v) = invert_bits (rrbb_append_bit b v).
Proof.
  unfold rrbb_append_bit, invert_bits, rrbb_set_data. cbn [rr_data rr_chan
    rr_subchan rr_slice rr_is_scrambled rr_descram_state rr_prev_descram rr_alevel].
  by rewrite map_app.
Qed.

Lemma invert_chop8 b : rrbb_chop8 (invert_bits b) = invert_bits (rrbb_chop8 b).
Proof.
  unfold rrbb_chop8, invert_bits, rrbb_set_data. cbn [rr_data rr_chan
    rr_subchan rr_slice rr_is_scrambled rr_descram_state rr_prev_descram rr_alevel].
  by rewrite length_map, <- firstn_map.
Qed.

Lemma invert_get_len b : rrbb_get_len (invert_bits b) = rrbb_get_len b.
Proof. unfold rrbb_get_len, invert_bits. cbn [rrbb_set_data rr_data]. by rewrite length_map. Qed.

Section Invert.

Variables AX25_MIN_PACKET_LEN AX25_MAX_PACKET_LEN : Z.
Variables chan subchan slice : Z.

Abbreviation hdlc_rec_bit :=
  (hdlc_rec_bit AX25_MIN_PACKET_LEN AX25_MAX_PACKET_LEN chan subchan slice).
Abbreviation hdlc_rec_bits :=
  (hdlc_rec_bits AX25_MIN_PACKET_LEN AX25_MAX_PACKET_LEN chan subchan slice).

Lemma hdlc_rec_bit_inverted raw scr ber al H :
  is_bit raw -> is_bit (prev_raw H) ->
  hdlc_rec_bit (lnot raw) scr ber al (invert_state H) =
  (invert_state (fst (hdlc_rec_bit raw scr ber al H)),
   option_map invert_bits (snd (hdlc_rec_bit raw scr ber al H)))
  /\ is_bit (prev_raw (fst (hdlc_rec_bit raw scr ber al H))).
Proof.
  intros Hraw Hprev. unfold HdlcRec.hdlc_rec_bit.
  set (e := if ber then lnot raw else raw).
  assert (He : is_bit e) by (unfold e; destruct ber; [apply lnot_bit|]; done).
  assert (He' : (if ber then lnot (lnot raw) else lnot raw) = lnot e).
  { unfold e. destruct ber; [|done]. by destruct (lnot_bit raw Hraw) as [_ ->]. }
  rewrite He'. cbn [invert_state prev_raw lfsr prev_descram pat_det flag4_det oacc
                     olen frame_buf frame_len rrbb].
  rewrite lnot_eqb by done.
  rewrite invert_append, invert_chop8, invert_get_len.
  repeat match goal with
         | |- context [if ?b then _ else _] =>
             lazymatch b with
             | Z.eqb _ _ => destruct b
             | Z.ltb _ _ => destruct b
             | Z.geb _ _ => destruct b
             end
         end;
    cbn [fst snd option_map prev_raw]; (split; [|exact He]);
    unfold invert_state;
    cbn [prev_raw lfsr prev_descram pat_det flag4_det oacc olen frame_buf
           frame_len rrbb];
    rewrite <- ?invert_append; reflexivity.
Qed.

Lemma hdlc_rec_bits_inverted cs : forall H,
  is_bit (prev_raw H) -> Forall (fun c => is_bit (rc_raw c)) cs ->
  hdlc_rec_bits (map invert_call cs) (invert_state H) =
  (invert_state (fst (hdlc_rec_bits cs H)),
   map invert_bits (snd (hdlc_rec_bits cs H))).
Proof.
  induction cs as [|c cs IH]; intros H Hprev Hcs; [done|].
  apply Forall_cons in Hcs as [Hc Hcs].
  cbn [map HdlcRec.hdlc_rec_bits invert_call rc_raw rc_is_scrambled rc_ber_hit
         rc_alevel].
  destruct (hdlc_rec_bit_inverted (rc_raw c) (rc_is_scrambled c) (rc_ber_hit c)
              (rc_alevel c) H Hc Hprev) as [-> Hprev1].
  destruct (hdlc_rec_bit _ _ _ _ H) as [H1 h]. cbn [fst snd] in *.
  rewrite (IH H1 Hprev1 Hcs).
  destruct (hdlc_rec_bits cs H1) as [H2 hs]. cbn [fst snd].
  by destruct h.
Qed.

End Invert.

(** X5. An inverted signal decodes the same.  When every raw bit given to
    [hdlc_rec_bit] is inverted (and the remembered previous raw bit with
    them), the deframer goes through the same detector contents, octets,
    lengths and frame buffer, and hands on buffers at the same calls,
    with the same raw bits inverted. *)
Theorem deframer_ignores_polarity
    (AX25_MIN_PACKET_LEN AX25_MAX_PACKET_LEN chan subchan slice : Z)
    (cs : list rec_call) (H : hdlc_state_s) :
  is_bit (prev_raw H) ->
  Forall (fun c => is_bit (rc_raw c)) cs ->
  let '(H', blocks) :=
    hdlc_rec_bits AX25_MIN_PACKET_LEN AX25_MAX_PACKET_LEN chan subchan slice cs H in
  let '(Hi, blocks_i) :=
    hdlc_rec_bits AX25_MIN_PACKET_LEN AX25_MAX_PACKET_LEN chan subchan slice
      (map invert_call cs) (invert_state H) in
  Hi = invert_state H'
  /\ blocks_i = map invert_bits blocks
  /\ pat_det Hi = pat_det H' /\ oacc Hi = oacc H' /\ olen Hi = olen H'
  /\ frame_len Hi = frame_len H' /\ frame_buf Hi = frame_buf H'.
Proof.
  intros Hprev Hcs.
  rewrite (hdlc_rec_bits_inverted AX25_MIN_PACKET_LEN AX25_MAX_PACKET_LEN
             chan subchan slice cs H Hprev Hcs).
  destruct (hdlc_rec_bits _ _ _ _ _ cs H) as [H' blocks]. cbn [fst snd].
  repeat split.
Qed.

Lemma deframer_ignores_polarity_witness :
  let cs := [RecCall 1 0 false alevel_none; RecCall 1 0 true alevel_none;
             RecCall 0 0 false alevel_none] in
  let '(H', blocks) := hdlc_rec_bits 15 256 0 0 0 cs (example_state 0xfc) in
  let '(Hi, blocks_i) :=
    hdlc_rec_bits 15 256 0 0 0 (map invert_call cs) (invert_state (example_state 0xfc)) in
  Hi = invert_state H'
  /\ blocks_i = map invert_bits blocks
  /\ pat_det Hi = pat_det H' /\ oacc Hi = oacc H' /\ olen Hi = olen H'
  /\ frame_len Hi = frame_len H' /\ frame_buf Hi = frame_buf H'.
Proof.
  apply (deframer_ignores_polarity 15 256 0 0 0
           [RecCall 1 0 false alevel_none; RecCall 1 0 true alevel_none;
            RecCall 0 0 false alevel_none] (example_state 0xfc)).
  - left. reflexivity.
  - repeat constructor; cbn; (by left) || (by right).
Defined.

End Polarity.

(** ** hdlc_rec.c: nothing is collected before a flag *)

Module Idle.
Import Direwolf Rrbb HdlcRec HdlcRecSpec.

Section IdleSection.

Variables AX25_MIN_PACKET_LEN AX25_MAX_PACKET_LEN : Z.
Variables chan subchan slice : Z.

Abbreviation hdlc_rec_bit :=
  (hdlc_rec_bit AX25_MIN_PACKET_LEN AX25_MAX_PACKET_LEN chan subchan slice).
Abbreviation hdlc_rec_bits :=
  (hdlc_rec_bits AX25_MIN_PACKET_LEN AX25_MAX_PACKET_LEN chan subchan slice).

Lemma hdlc_rec_bit_idle raw scr ber al H :
  olen H = -1 ->
  let r := hdlc_rec_bit raw scr ber al H in
  pat_det (fst r) <> 0x7e ->
  olen (fst r) = -1 /\ oacc (fst r) = oacc H /\ frame_buf (fst r) = frame_buf H
  /\ (frame_len (fst r) = frame_len H \/ frame_len (fst r) = 0)
  /\ snd r = None.
Proof.
  intros Hol. cbv zeta.
  rec_bit_cases; cbn [fst snd pat_det olen oacc frame_buf frame_len];
    intros Hp; try (exfalso; lia); repeat split; auto.
Qed.

(** X6. While idle nothing is collected.  From a state with [olen = -1]
    (as [hdlc_rec_init] and every abort leave it), as long as no call
    leaves the flag in the detector, the deframer stays idle: [olen]
    stays -1, the octet in progress and the frame buffer are not
    written, [frame_len] keeps its value or is reset to 0, and no
    buffer is handed on, whatever bits arrive. *)
Theorem idle_until_flag (cs : list rec_call) : forall (H : hdlc_state_s),
  olen H = -1 ->
  (forall n, pat_det (fst (hdlc_rec_bits (take (S n) cs) H)) <> 0x7e) ->
  let '(H', blocks) := hdlc_rec_bits cs H in
  olen H' = -1 /\ oacc H' = oacc H /\ frame_buf H' = frame_buf H
  /\ (frame_len H' = frame_len H \/ frame_len H' = 0)
  /\ blocks = [].
Proof.
  induction cs as [|c cs IH]; intros H Hol Hnf; [cbn; repeat split; auto|].
  cbn [HdlcRec.hdlc_rec_bits].
  pose proof (hdlc_rec_bit_idle (rc_raw c) (rc_is_scrambled c) (rc_ber_hit c)
                (rc_alevel c) H Hol) as Hstep. cbv zeta in Hstep.
  pose proof (Hnf 0%nat) as Hn0. cbn [take HdlcRec.hdlc_rec_bits] in Hn0.
  assert (Htail : forall n H1 h,
    hdlc_rec_bit (rc_raw c) (rc_is_scrambled c) (rc_ber_hit c) (rc_alevel c) H
    = (H1, h) ->
    pat_det (fst (hdlc_rec_bits (take (S n) cs) H1)) <> 0x7e).
  { intros n H1 h E. specialize (Hnf (S n)).
    change (take (S (S n)) (c :: cs)) with (c :: take (S n) cs) in Hnf.
    cbn [HdlcRec.hdlc_rec_bits] in Hnf. rewrite E in Hnf.
    by destruct (hdlc_rec_bits (take (S n) cs) H1). }
  destruct (hdlc_rec_bit _ _ _ _ H) as [H1 h] eqn:E. cbn [fst snd] in *.
  destruct (Hstep Hn0) as (Hol1 & Hoa1 & Hfb1 & Hfl1 & ->).
  specialize (IH H1 Hol1 (fun n => Htail n H1 None eq_refl)).
  destruct (hdlc_rec_bits cs H1) as [H2 hs].
  destruct IH as (Hol2 & Hoa2 & Hfb2 & Hfl2 & ->).
  split; [done|]. split; [congruence|]. split; [congruence|]. split; [|done].
  destruct Hfl2 as [E2|E2]; [|by right].
  destruct Hfl1 as [E1|E1]; [left|right]; congruence.
Qed.

End IdleSection.

Lemma idle_until_flag_witness :
  let '(H', blocks) :=
    hdlc_rec_bits 15 256 0 0 0
      [RecCall 1 0 false alevel_none; RecCall 0 0 false alevel_none]
      (hdlc_rec_init 256 0 0 0) in
  olen H' = -1 /\ oacc H' = oacc (hdlc_rec_init 256 0 0 0)
  /\ frame_buf H' = frame_buf (hdlc_rec_init 256 0 0 0)
  /\ (frame_len H' = frame_len (hdlc_rec_init 256 0 0 0) \/ frame_len H' = 0)
  /\ blocks = [].
Proof.
  apply (idle_until_flag 15 256 0 0 0
           [RecCall 1 0 false alevel_none; RecCall 0 0 false alevel_none]
           (hdlc_rec_init 256 0 0 0)).
  - reflexivity.
  - intros [|[|n]]; vm_compute; discriminate.
Defined.

End Idle.

(** ** hdlc_rec.c, gen_packets.c: the private random number generator *)

Module MyRand.

Definition MY_RAND_MAX : Z := 0x7fffffff.

(** Conversion of an [int] to [unsigned], and unsigned arithmetic:
    modulo 2^32. *)
Definition to_unsigned (x : Z) : Z := x mod 2 ^ 32.

(** Conversion of an [unsigned] to [int] on a two's complement machine. *)
Definition to_int (x : Z) : Z := if x <? 2 ^ 31 then x else x - 2 ^ 32.

(** [seed = (int)(((unsigned)seed * 1103515245) + 12345) & MY_RAND_MAX;
    return (seed);]: the result is also the new seed. *)
Definition my_rand (seed : Z) : Z :=
  Z.land (to_int (to_unsigned (to_unsigned (to_unsigned seed * 1103515245) + 12345)))
         MY_RAND_MAX.

Lemma to_int_mod x : 0 <= x < 2 ^ 32 -> to_int x mod 2 ^ 31 = x mod 2 ^ 31.
Proof.
  intros Hx. unfold to_int. destruct (Z.ltb_spec x (2 ^ 31)); [done|].
  replace (x - 2 ^ 32) with (x + (-2) * 2 ^ 31) by lia.
  apply Z.mod_add. lia.
Qed.

Lemma mod32_mod31 x : (x mod 2 ^ 32) mod 2 ^ 31 = x mod 2 ^ 31.
Proof.
  apply Z.mod_mod_divide. exists 2. lia.
Qed.

(** X7. The generator is the linear congruential generator modulo 2^31:
    whatever the seed (negative ones included), the casts and the mask
    compute [(seed * 1103515245 + 12345) mod 2^31], so the result is in
    [0, MY_RAND_MAX] and depends on the seed modulo 2^31 only. *)
Theorem my_rand_lcg (seed : Z) :
  my_rand seed = (seed * 1103515245 + 12345) mod 2 ^ 31
  /\ 0 <= my_rand seed <= MY_RAND_MAX
  /\ my_rand (seed + 2 ^ 31) = my_rand seed.
Proof.
  assert (Hval : forall sd, my_rand sd = (sd * 1103515245 + 12345) mod 2 ^ 31).
  { intros sd. unfold my_rand, MY_RAND_MAX, to_unsigned.
    change 0x7fffffff with (Z.ones 31). rewrite Z.land_ones by lia.
    rewrite to_int_mod by (apply Z.mod_pos_bound; lia).
    rewrite <- (mod32_mod31 (sd * 1103515245 + 12345)). f_equal.
    rewrite Z.add_mod_idemp_l by lia.
    rewrite <- (Z.add_mod_idemp_l (sd mod 2 ^ 32 * 1103515245)) by lia.
    rewrite Z.mul_mod_idemp_l by lia. by rewrite Z.add_mod_idemp_l by lia. }
  split; [apply Hval|]. split.
  - rewrite Hval. unfold MY_RAND_MAX.
    pose proof (Z.mod_pos_bound (seed * 1103515245 + 12345) (2 ^ 31) ltac:(lia)). lia.
  - rewrite !Hval.
    replace ((seed + 2 ^ 31) * 1103515245 + 12345)
      with (seed * 1103515245 + 12345 + 1103515245 * 2 ^ 31) by lia.
    apply Z.mod_add. lia.
Qed.

End MyRand.

(** ** hdlc_rec.c: the DCD output follows the DCD matrix *)

Module DcdIndicator.
Import Direwolf Dcd DcdSpec.

(** One call of [dcd_change] as a demodulator makes it. *)
Record dcd_call : Type := DcdCall {
  dc_chan : Z;
  dc_subchan : Z;
  dc_slice : Z;
  dc_state : Z
}.

(** The call passes the assertions at the head of [dcd_change]. *)
Definition dcd_call_ok (c : dcd_call) : Prop :=
  dcd_args_ok (dc_chan c) (dc_subchan c) (dc_slice c) (dc_state c).

(** A call of [dcd_change] and what it does to the DCD outputs:
    [ind ch] is the value last given to [ptt_set(OCTYPE_DCD, ch, ...)];
    [txinh ch] is what the transmit-inhibit input of channel [ch]
    reads.  [None] when the call stops the program at an assertion. *)
Definition dcd_step (txinh : Z -> Z) (sti : dcd_state * (Z -> Z)) (c : dcd_call)
  : option (dcd_state * (Z -> Z)) :=
  match dcd_change (fst sti) (dc_chan c) (dc_subchan c) (dc_slice c) (dc_state c)
                   (txinh (dc_chan c)) (txinh (dc_chan c)) with
  | Some (st', ptt) =>
      Some (st', match ptt with
                 | Some v => fun ch => if ch =? dc_chan c then v else snd sti ch
                 | None => snd sti
                 end)
  | None => None
  end.

(** The calls of a list, one after the other, up to the first that
    stops the program. *)
Fixpoint dcd_run (txinh : Z -> Z) (sti : dcd_state * (Z -> Z))
    (cs : list dcd_call) : option (dcd_state * (Z -> Z)) :=
  match cs with
  | [] => Some sti
  | c :: cs =>
      match dcd_step txinh sti c with
      | Some sti' => dcd_run txinh sti' cs
      | None => None
      end
  end.

(** [dcd_change] on one channel leaves the words of every other channel
    and the answer for it as they are. *)
Lemma dcd_change_other_channel st chan subchan slice state o n st' ptt ch :
  dcd_change st chan subchan slice state o n = Some (st', ptt) ->
  0 <= ch -> ch <> chan ->
  dcd_row st' ch = dcd_row st ch
  /\ forall t, hdlc_rec_data_detect_any st' ch t = hdlc_rec_data_detect_any st ch t.
Proof.
  intros E Hch Hne.
  destruct (decide (dcd_args_ok chan subchan slice state)) as [Hok|Hbad];
    [|by rewrite dcd_change_args_bad in E].
  rewrite dcd_change_args_ok in E by done. cbv zeta in E.
  injection E as <- _. destruct Hok as (Hc & _).
  assert (Hrow : forall r, dcd_row (DcdState (num_subchan st)
                    (<[Z.to_nat chan := r]> (composite_dcd st))) ch = dcd_row st ch).
  { intros r. unfold dcd_row. cbn [composite_dcd].
    by rewrite list_lookup_insert_ne by lia. }
  split; [apply Hrow|].
  intros t. unfold hdlc_rec_data_detect_any. by rewrite Hrow.
Qed.

(** One call keeps the outputs in step with the matrix, and touches
    neither the output nor the answer of a channel other than its
    own. *)
Lemma dcd_step_in_sync txinh st ind c :
  dcd_call_ok c ->
  exists st' ind',
    dcd_step txinh (st, ind) c = Some (st', ind')
    /\ ((forall ch, 0 <= ch < MAX_CHANS -> ind ch = hdlc_rec_data_detect_any st ch (txinh ch)) ->
        forall ch, 0 <= ch < MAX_CHANS -> ind' ch = hdlc_rec_data_detect_any st' ch (txinh ch))
    /\ (forall ch, 0 <= ch < MAX_CHANS -> ch <> dc_chan c ->
          ind' ch = ind ch
          /\ dcd_row st' ch = dcd_row st ch
          /\ forall t, hdlc_rec_data_detect_any st' ch t
                       = hdlc_rec_data_detect_any st ch t).
Proof.
  intros Hok. unfold dcd_step. cbn [fst snd].
  pose proof (dcd_change_other_channel st (dc_chan c) (dc_subchan c) (dc_slice c)
                (dc_state c) (txinh (dc_chan c)) (txinh (dc_chan c))) as Hother.
  rewrite dcd_change_args_ok in Hother |- * by exact Hok. cbv zeta in Hother |- *.
  set (st' := DcdState _ _) in *.
  specialize (fun ch => Hother _ _ ch eq_refl).
  eexists st', _. split; [reflexivity|]. split.
  - intros Hsync ch Hch. destruct (Z.eqb_spec ch (dc_chan c)) as [->|Hne].
    + destruct (Z.eqb_spec (hdlc_rec_data_detect_any st' (dc_chan c) (txinh (dc_chan c)))
                  (hdlc_rec_data_detect_any st (dc_chan c) (txinh (dc_chan c))))
        as [Eq|Ne]; cbn [negb].
      * rewrite Eq. by apply Hsync.
      * by rewrite Z.eqb_refl.
    + destruct (Hother ch ltac:(lia) Hne) as [_ ->].
      destruct (negb _); [|by apply Hsync].
      destruct (Z.eqb_spec ch (dc_chan c)); [done|by apply Hsync].
  - intros ch Hch Hne. destruct (Hother ch ltac:(lia) Hne) as [Hrow Hany].
    split; [|done].
    destruct (negb _); [|done].
    by destruct (Z.eqb_spec ch (dc_chan c)).
Qed.

(** X8. The DCD output is never stale, and the channels do not disturb each
    other.  While the transmit-inhibit inputs keep their values, any
    sequence of calls of [dcd_change] that pass its assertions runs to
    its end; afterwards the value last given to
    [ptt_set(OCTYPE_DCD, ch, ...)] is, for every channel below
    [MAX_CHANS], what
    [hdlc_rec_data_detect_any] returns for it, provided this was so
    before (as it is after [hdlc_rec_init] with the outputs off and the
    inputs not asserted); and for a channel that none of the calls
    names, the output, the words of the matrix and the answer of
    [hdlc_rec_data_detect_any] (for every reading of its input) are
    what they were before. *)
Theorem dcd_output_in_sync (txinh : Z -> Z) (cs : list dcd_call) :
  forall (st : dcd_state) (ind : Z -> Z),
  Forall dcd_call_ok cs ->
  (forall ch, 0 <= ch < MAX_CHANS -> ind ch = hdlc_rec_data_detect_any st ch (txinh ch)) ->
  exists st' ind',
    dcd_run txinh (st, ind) cs = Some (st', ind')
    /\ (forall ch, 0 <= ch < MAX_CHANS -> ind' ch = hdlc_rec_data_detect_any st' ch (txinh ch))
    /\ (forall ch, 0 <= ch < MAX_CHANS -> Forall (fun c => dc_chan c <> ch) cs ->
          ind' ch = ind ch
          /\ dcd_row st' ch = dcd_row st ch
          /\ forall t, hdlc_rec_data_detect_any st' ch t
                       = hdlc_rec_data_detect_any st ch t).
Proof.
  induction cs as [|c cs IH]; intros st ind Hok Hsync.
  - exists st, ind. cbn [dcd_run]. repeat split; auto.
  - apply Forall_cons in Hok as [Hc Hok]. cbn [dcd_run].
    destruct (dcd_step_in_sync txinh st ind c Hc)
      as (st1 & ind1 & -> & Hsync1 & Hother1).
    destruct (IH st1 ind1 Hok (Hsync1 Hsync)) as (st' & ind' & -> & Hsync' & Hother').
    exists st', ind'. split; [done|]. split; [exact Hsync'|].
    intros ch Hch Hnot. apply Forall_cons in Hnot as [Hne Hnot].
    destruct (Hother' ch Hch Hnot) as (-> & -> & Hany').
    destruct (Hother1 ch Hch ltac:(congruence)) as (-> & -> & Hany1).
    repeat split. intros t. by rewrite Hany', Hany1.
Qed.

Definition example_calls : list dcd_call :=
  [DcdCall 0 1 3 1; DcdCall 0 0 2 1; DcdCall 0 1 3 0; DcdCall 1 0 0 1].

Lemma dcd_output_in_sync_witness :
  exists st' ind',
    dcd_run (fun _ => 0) (dcd_init [2; 1; 1], fun _ => 0) example_calls
    = Some (st', ind')
    /\ (forall ch, 0 <= ch < MAX_CHANS ->
          ind' ch = hdlc_rec_data_detect_any st' ch 0)
    /\ ind' 0 = 1 /\ ind' 1 = 1
    /\ ind' 2 = 0
    /\ dcd_row st' 2 = dcd_row (dcd_init [2; 1; 1]) 2
    /\ forall t, hdlc_rec_data_detect_any st' 2 t
                 = hdlc_rec_data_detect_any (dcd_init [2; 1; 1]) 2 t.
Proof.
  destruct (dcd_output_in_sync (fun _ => 0) example_calls
              (dcd_init [2; 1; 1]) (fun _ => 0)) as (st' & ind' & Hrun & Hsync & Hother).
  - repeat (apply Forall_cons; split;
            [unfold dcd_call_ok, dcd_args_ok, MAX_CHANS, MAX_RADIO_CHANS, MAX_ADEVS,
               MAX_SUBCHANS, MAX_SLICERS; cbn; lia|]).
    by apply Forall_nil.
  - intros ch Hch. unfold hdlc_rec_data_detect_any, dcd_init, dcd_row, nsub.
    cbn [composite_dcd num_subchan].
    destruct (Z.to_nat ch) as [|[|[|[|[|[|n]]]]]]; reflexivity.
  - exists st', ind'. split; [exact Hrun|]. split; [exact Hsync|].
    destruct (Hother 2 ltac:(unfold MAX_CHANS, MAX_RADIO_CHANS, MAX_ADEVS; lia))
      as (H2 & Hrow & Hany).
    { repeat (apply Forall_cons; split; [cbn; lia|]). by apply Forall_nil. }
    vm_compute in Hrun. injection Hrun as <- <-.
    split; [reflexivity|]. split; [reflexivity|]. split; [reflexivity|].
    split; [exact Hrow|exact Hany].
Defined.

(** Setting a slicer bit and clearing it again. *)
Lemma set_clear_bit v slice :
  0 <= slice -> Z.testbit v slice = false ->
  Z.land (Z.lor v (Z.shiftl 1 slice)) (Z.lnot (Z.shiftl 1 slice)) = v.
Proof.
  intros Hs Hv. apply Z.bits_inj'. intros n Hn.
  rewrite Z.land_spec, Z.lor_spec, Z.lnot_spec, shiftl_1_testbit by done.
  destruct (Z.eqb_spec n slice) as [->|]; [by rewrite Hv|].
  by rewrite orb_false_r, andb_true_r.
Qed.

Lemma dcd_row_insert ns dcd chan row :
  (Z.to_nat chan < length dcd)%nat ->
  dcd_row (DcdState ns (<[Z.to_nat chan := row]> dcd)) chan = row.
Proof.
  intros Hl. unfold dcd_row. cbn [composite_dcd].
  by rewrite list_lookup_insert_eq.
Qed.

(** X9. A locked slicer makes the channel busy, and unlocking it undoes
    the change.  For a channel below [MAX_CHANS], a sub-channel below
    [num_subchan[chan]] (and not above [MAX_SUBCHANS]) and a slicer
    below [MAX_SLICERS], the arguments that the assertions let
    through, the matrix holding a word for that channel and
    sub-channel: [dcd_change(chan, subchan, slice, 1)] returns and after it
    the channel is busy whatever the transmit-inhibit input reads; a
    following [dcd_change(chan, subchan, slice, 0)] returns too, and if
    the bit was clear before the first call it restores the whole
    matrix.  With a slicer number of [MAX_SLICERS] or more the first
    call stops the program at its assertion. *)
Theorem dcd_set_then_clear (st : dcd_state) (chan subchan slice t1 t2 t3 t4 : Z) :
  0 <= chan < MAX_CHANS -> (Z.to_nat chan < length (composite_dcd st))%nat ->
  0 <= subchan < nsub st chan -> subchan <= MAX_SUBCHANS ->
  (Z.to_nat subchan < length (dcd_row st chan))%nat ->
  0 <= slice ->
  (slice < MAX_SLICERS ->
   exists st1 ptt1 st2 ptt2,
     dcd_change st chan subchan slice 1 t1 t2 = Some (st1, ptt1)
     /\ dcd_change st1 chan subchan slice 0 t3 t4 = Some (st2, ptt2)
     /\ (forall t, hdlc_rec_data_detect_any st1 chan t = 1)
     /\ (Z.testbit (dcd_cell st chan subchan) slice = false -> st2 = st))
  /\ (MAX_SLICERS <= slice -> dcd_change st chan subchan slice 1 t1 t2 = None).
Proof.
  intros Hc Hlc Hs Hsm Hls Hsl. split.
  - intros Hslm.
    assert (Hok : forall v, v = 0 \/ v = 1 -> dcd_args_ok chan subchan slice v).
    { intros v Hv. unfold dcd_args_ok. intuition lia. }
    destruct (dcd_change_exact st chan subchan slice 1 t1 t2
                (Hok 1 ltac:(auto)) Hlc Hls) as (st1 & ptt1 & E1 & Hbit & _ & Hns).
    pose proof E1 as E1'.
    rewrite dcd_change_args_ok in E1' by auto. cbv zeta in E1'.
    change (truthy 1) with true in E1'. cbv iota in E1'.
    injection E1' as Hst1 _.
    eexists st1, ptt1, _, _. split; [exact E1|].
    rewrite (dcd_change_args_ok st1 chan subchan slice 0) by auto. cbv zeta.
    change (truthy 0) with false. cbv iota.
    split; [reflexivity|]. split.
    + intros t. apply hdlc_rec_data_detect_any_spec. left.
      exists subchan. split.
      * unfold nsub in *. by rewrite Hns.
      * intros E. specialize (Hbit slice Hsl). rewrite E, Z.eqb_refl in Hbit.
        by rewrite Z.bits_0 in Hbit.
    + intros Hclear.
      assert (Hcell1 : dcd_cell st1 chan subchan
                       = Z.lor (dcd_cell st chan subchan) (Z.shiftl 1 slice)).
      { rewrite <- Hst1. unfold dcd_cell at 1. rewrite dcd_row_insert by done.
        by rewrite list_lookup_insert_eq. }
      rewrite Hcell1, set_clear_bit by done.
      rewrite <- Hst1. cbn [num_subchan composite_dcd].
      rewrite dcd_row_insert by done.
      rewrite !list_insert_insert_eq.
      assert (Hrow : composite_dcd st !! Z.to_nat chan = Some (dcd_row st chan)).
      { unfold dcd_row. destruct (lookup_lt_is_Some_2 _ _ Hlc) as [r ->]. done. }
      assert (Hcell : dcd_row st chan !! Z.to_nat subchan
                      = Some (dcd_cell st chan subchan)).
      { unfold dcd_cell. destruct (lookup_lt_is_Some_2 _ _ Hls) as [v ->]. done. }
      rewrite (list_insert_id _ _ _ Hcell), (list_insert_id _ _ _ Hrow).
      by destruct st.
  - intros Hbig. apply dcd_change_args_bad. intros (_ & _ & ? & _). lia.
Qed.

Definition two_subchans : dcd_state := dcd_init [2; 1].

Lemma dcd_set_then_clear_witness :
  (exists st1 ptt1 st2 ptt2,
     dcd_change two_subchans 0 1 3 1 0 0 = Some (st1, ptt1)
     /\ dcd_change st1 0 1 3 0 0 0 = Some (st2, ptt2)
     /\ (forall t, hdlc_rec_data_detect_any st1 0 t = 1)
     /\ st2 = two_subchans)
  /\ dcd_change two_subchans 0 1 9 1 0 0 = None.
Proof.
  assert (Hpre : forall P : Prop,
            (0 <= 0 < MAX_CHANS ->
             (Z.to_nat 0 < length (composite_dcd two_subchans))%nat ->
             0 <= 1 < nsub two_subchans 0 -> 1 <= MAX_SUBCHANS ->
             (Z.to_nat 1 < length (dcd_row two_subchans 0))%nat -> P) -> P).
  { intros P HP. apply HP; vm_compute; (lia || (split; congruence) || done). }
  split.
  - apply Hpre. intros H1 H2 H3 H4 H5.
    destruct (dcd_set_then_clear two_subchans 0 1 3 0 0 0 0 H1 H2 H3 H4 H5
                ltac:(lia)) as [Hset _].
    destruct (Hset ltac:(unfold MAX_SLICERS; lia))
      as (st1 & ptt1 & st2 & ptt2 & E1 & E2 & Hbusy & Hback).
    exists st1, ptt1, st2, ptt2. split; [exact E1|]. split; [exact E2|].
    split; [exact Hbusy|]. apply Hback. reflexivity.
  - apply Hpre. intros H1 H2 H3 H4 H5.
    apply (dcd_set_then_clear two_subchans 0 1 9 0 0 0 0 H1 H2 H3 H4 H5
             ltac:(lia)).
    unfold MAX_SLICERS. lia.
Defined.

End DcdIndicator.

(** ** xmit.c: the paths of the wait for a clear channel *)

Module CsmaPaths.
Import Direwolf Outcome XmitParams Xmit Csma CsmaSpec.

Ltac wait_simpl :=
  cbn [wait_run wait_step sleep_ms use_dcd use_hi use_rand use_lock incr_n
         wait_start w_dcd w_hi w_rand w_lock w_n w_slept app].

(** In the last loop, the one for the lock of the audio device, the
    function reads neither the DCD state nor the queue nor [rand()],
    and sleeps 10 ms at a time. *)
Lemma try_lock_reads_nothing env slottime persist dwait fuel : forall s r ws,
  wait_run env slottime persist dwait fuel AtTryLock s = Some (r, ws) ->
  w_dcd ws = w_dcd s /\ w_hi ws = w_hi s /\ w_rand ws = w_rand s
  /\ exists j, w_slept ws = w_slept s ++ replicate j WAIT_CHECK_EVERY_MS.
Proof.
  induction fuel as [|fuel IH]; intros s r ws; [discriminate|].
  cbn [wait_run wait_step].
  destruct (try_locks env (w_lock s)).
  - intros [= <- <-]. repeat split. exists 0%nat. cbn. by rewrite app_nil_r.
  - destruct (_ >? _).
    + intros [= <- <-]. repeat split. by exists 1%nat.
    + intros Hrun. apply IH in Hrun as (H1 & H2 & H3 & j & H4).
      cbn in H1, H2, H3, H4. repeat split; try done.
      exists (S j). by rewrite H4, <- app_assoc.
Qed.

(** X10. Full duplex skips carrier sense.  With [fulldup] set, whatever the
    receiver, the queue and [rand()] would answer, a call that returns
    has not asked any of them and has slept only in steps of 10 ms; and
    when the lock of the audio device is refused [k <= 6000] times and
    then granted, the call returns 1 after exactly [k] such sleeps. *)
Theorem full_duplex_skips_carrier_sense (env : wait_env)
    (slottime persist dwait fulldup : Z) (k : nat) :
  truthy fulldup = true ->
  (forall fuel r ws,
      wait_for_clear_channel env slottime persist dwait fuel fulldup wait_start
      = Some (r, ws) ->
      w_dcd ws = 0%nat /\ w_hi ws = 0%nat /\ w_rand ws = 0%nat
      /\ exists j, w_slept ws = replicate j WAIT_CHECK_EVERY_MS)
  /\ (Z.of_nat k <= 6000 ->
      (forall i, (i < k)%nat -> try_locks env i = false) ->
      try_locks env k = true ->
      forall fuel,
        wait_for_clear_channel env slottime persist dwait (k + S fuel) fulldup
          wait_start
        = Some (1, WaitState 0 0 0 (S k) (Z.of_nat k)
                     (replicate k WAIT_CHECK_EVERY_MS))).
Proof.
  intros Hfd. unfold wait_for_clear_channel. rewrite Hfd. split.
  - intros fuel r ws Hrun.
    by apply try_lock_reads_nothing in Hrun.
  - intros Hk Hbusy Hlock fuel.
    rewrite try_lock_busy by (cbn [w_lock w_n wait_start]; auto; lia).
    cbn [wait_run wait_step after_locked wait_start w_lock w_dcd w_hi w_rand
           w_n w_slept Nat.add app].
    rewrite Hlock. unfold use_lock. cbn [w_lock w_dcd w_hi w_rand w_n w_slept].
    done.
Qed.

(** The lock refused twice, then granted. *)
Definition lock_env : wait_env :=
  WaitEnv (fun _ => 1) (fun _ => false) (fun _ => 0)
          (fun i => match i with 0%nat | 1%nat => false | _ => true end).

Lemma full_duplex_skips_carrier_sense_witness :
  wait_for_clear_channel lock_env 10 63 0 3 1 wait_start
  = Some (1, WaitState 0 0 0 3 2 [10; 10]).
Proof.
  refine (proj2 (full_duplex_skips_carrier_sense lock_env 10 63 0 1 2 eq_refl)
            _ _ _ 0%nat).
  - lia.
  - intros [|[|i]] Hi; [reflexivity|reflexivity|lia].
  - reflexivity.
Defined.

(** X11. A high-priority frame is not made to wait.  Half duplex, the
    channel clear at the two checks, a frame in the high-priority
    queue and the lock of the audio device granted at the first
    attempt: whatever [persist] and [slottime] are, the call goes to the
    lock of the audio device without a slot-time sleep and without
    drawing a random number; the only sleep is [dwait * 10] ms, when
    [dwait > 0]. *)
Theorem high_priority_skips_random_wait (env : wait_env)
    (slottime persist dwait : Z) :
  truthy (dcd_reads env 0) = false ->
  truthy (dcd_reads env 1) = false ->
  hi_peeks env 0 = true ->
  try_locks env 0 = true ->
  wait_for_clear_channel env slottime persist dwait 3 0 wait_start
  = Some (1, WaitState 2 1 0 1 0 (if dwait >? 0 then [dwait * 10] else [])).
Proof.
  intros Hd0 Hd1 Hhi Hlock. unfold wait_for_clear_channel.
  change (truthy 0) with false. cbv iota.
  change 3%nat with (S (S (S O))).
  cbn [wait_run wait_step wait_start w_dcd]. rewrite Hd0.
  destruct (dwait >? 0); wait_simpl; rewrite Hd1; wait_simpl;
    rewrite Hhi; wait_simpl; by rewrite Hlock.
Qed.

(** A clear channel and a frame in the high-priority queue, with
    [rand()] at its most unfavourable. *)
Definition urgent_env : wait_env :=
  WaitEnv (fun _ => 0) (fun _ => true) (fun _ => 255) (fun _ => true).

Lemma high_priority_skips_random_wait_witness :
  wait_for_clear_channel urgent_env 10 0 3 3 0 wait_start
  = Some (1, WaitState 2 1 0 1 0 [30]).
Proof.
  apply (high_priority_skips_random_wait urgent_env 10 0 3); reflexivity.
Defined.

(** One turn of the random wait that draws a byte above [persist]. *)
Lemma random_wait_stays env slottime persist dwait s :
  hi_peeks env (w_hi s) = false ->
  truthy (dcd_reads env (w_dcd s)) = false ->
  persist < Z.land (rand_calls env (w_rand s)) 0xff ->
  wait_step env slottime persist dwait AtRandomWait s
  = inl (AtRandomWait, use_rand (use_dcd (sleep_ms (slottime * 10) (use_hi s)))).
Proof.
  intros Hhi Hdcd Hr. cbn [wait_step]. rewrite Hhi.
  cbn [sleep_ms use_hi w_dcd w_rand]. rewrite Hdcd.
  by destruct (Z.leb_spec (Z.land (rand_calls env (w_rand s)) 255) persist); [lia|].
Qed.

Lemma random_wait_forever env slottime persist dwait :
  (forall i, truthy (dcd_reads env i) = false) ->
  (forall i, hi_peeks env i = false) ->
  (forall i, persist < Z.land (rand_calls env i) 0xff) ->
  forall fuel pc s, pc <> AtTryLock ->
    wait_run env slottime persist dwait fuel pc s = None.
Proof.
  intros Hclear Hnohi Hrand. induction fuel as [|fuel IH]; intros pc s Hpc; [done|].
  cbn [wait_run]. destruct pc; [| |done].
  - cbn [wait_step]. rewrite Hclear.
    destruct (dwait >? 0); rewrite Hclear; by apply IH.
  - rewrite random_wait_stays by auto. by apply IH.
Qed.

(** X12. The random wait has no timeout.  The 60 second limit counts only
    the 10 ms sleeps of the first and the last loop.  Half duplex, the
    channel clear, no high-priority frame: as long as every byte drawn
    from [rand()] is above [persist], the function does not return,
    however many turns it is given, and so neither does the turn of the
    transmit thread; the frame stays in the queue.  For a negative
    [persist], which [xmit_set_persist] stores as it stands, this is so
    for every sequence of random numbers. *)
Theorem random_wait_has_no_timeout (layer2_fx25 : bool)
    (fx25_send_frame : packet -> Z) (send_invalid_fcs : packet -> bool)
    (params : xmit_params) (env : wait_env) (dwait chan : Z) (st : xmit_state) :
  let persist := chan_param (xmit_persist params) chan in
  truthy (chan_param (xmit_fulldup params) chan) = false ->
  (forall i, truthy (dcd_reads env i) = false) ->
  (forall i, hi_peeks env i = false) ->
  (persist < 0 \/ forall i, persist < Z.land (rand_calls env i) 0xff) ->
  forall fuel,
    wait_for_clear_channel env (chan_param (xmit_slottime params) chan) persist
      dwait fuel (chan_param (xmit_fulldup params) chan) wait_start = None
    /\ xmit_thread_iter layer2_fx25 fx25_send_frame send_invalid_fcs params env
         dwait fuel chan st = NoFuel.
Proof.
  intros persist Hfd Hclear Hnohi Hrand fuel.
  assert (Hr : forall i, persist < Z.land (rand_calls env i) 0xff).
  { destruct Hrand as [Hneg|Hr]; [|done].
    intros i. pose proof (land_byte_range (rand_calls env i)). lia. }
  assert (Hwait : wait_for_clear_channel env (chan_param (xmit_slottime params) chan)
                    persist dwait fuel (chan_param (xmit_fulldup params) chan)
                    wait_start = None).
  { unfold wait_for_clear_channel. rewrite Hfd. by apply random_wait_forever. }
  split; [done|]. unfold xmit_thread_iter. fold persist. by rewrite Hwait.
Qed.

Lemma random_wait_has_no_timeout_witness :
  (forall fuel, wait_for_clear_channel clear_env 10 63 0 fuel 0 wait_start = None)
  /\ (forall fuel,
        xmit_thread_iter false (fun _ => 0) (fun _ => false) example_params
          clear_env 0 fuel 0
          (XmitState (TQ [] [XmitBundling.new_packet]) (HdlcSend.SendState 0 0 0))
        = NoFuel).
Proof.
  pose proof (random_wait_has_no_timeout false (fun _ => 0) (fun _ => false)
                example_params clear_env 0 0
                (XmitState (TQ [] [XmitBundling.new_packet])
                           (HdlcSend.SendState 0 0 0))
                eq_refl (fun _ => eq_refl) (fun _ => eq_refl)
                (or_intror (fun _ => eq_refl))) as H.
  split; intros fuel; apply (H fuel).
Defined.

End CsmaPaths.

(** ** xmit.c: how long the transmitter stays keyed *)

Module TxTiming.
Import Direwolf Outcome IntFacts Bits HdlcSend HdlcSendFacts XmitParams Xmit XmitBundling.

(** The bits of the frames handed to [layer2_send_frame], as the
    calls returned them. *)
Definition frame_bits_sum (evs : list xmit_event) : Z :=
  fold_right (fun e acc => match e with EvFrame _ _ _ nb => nb + acc | _ => acc end)
             0 evs.

(** A frame sent or a packet released. *)
Definition frame_or_delete (e : xmit_event) : Prop :=
  match e with EvFrame _ _ _ _ | EvDelete _ => True | _ => False end.

Lemma frame_bits_sum_app a b :
  frame_bits_sum (a ++ b) = frame_bits_sum a + frame_bits_sum b.
Proof.
  induction a as [|e a IH]; [done|]. cbn [app frame_bits_sum fold_right].
  fold (frame_bits_sum (a ++ b)). fold (frame_bits_sum a). rewrite IH.
  destruct e; lia.
Qed.

Section Timing.

Variable layer2_fx25 : bool.
Variable fx25_send_frame : packet -> Z.
Variable send_invalid_fcs : packet -> bool.
Variable params : xmit_params.

Lemma send_one_frame_bits c p pp l :
  let '(nb, _, ev) :=
    send_one_frame layer2_fx25 fx25_send_frame send_invalid_fcs c p pp l in
  frame_bits_sum (ev ++ [EvDelete pp]) = nb
  /\ Forall frame_or_delete (ev ++ [EvDelete pp]).
Proof.
  unfold send_one_frame. destruct (pk_is_null_frame pp).
  - split; [done|]. apply Forall_cons; split; [done|]. by apply Forall_nil.
  - destruct (layer2_send_frame _ _ pp _ l) as [nb l']. split.
    + cbn. lia.
    + repeat (apply Forall_cons; split; [done|]). by apply Forall_nil.
Qed.

(** The bundling loop only sends frames and releases packets, and
    adds to [num_bits], in [int], what the frames took. *)
Lemma bundle_loop_bits chan max_bundle fuel : forall b b',
  bundle_loop layer2_fx25 fx25_send_frame send_invalid_fcs fuel chan max_bundle b
  = Ok b' ->
  exists more,
    b_events b' = b_events b ++ more
    /\ Forall frame_or_delete more
    /\ wrap32 (b_num_bits b') = wrap32 (b_num_bits b + frame_bits_sum more).
Proof.
  assert (Hrefl : forall b, exists more,
             b_events b = b_events b ++ more /\ Forall frame_or_delete more
             /\ wrap32 (b_num_bits b) = wrap32 (b_num_bits b + frame_bits_sum more)).
  { intros b. exists []. rewrite app_nil_r. split; [done|].
    split; [by apply Forall_nil|]. cbn. by rewrite Z.add_0_r. }
  induction fuel as [|fuel IH]; intros b b'; cbn [bundle_loop].
  - destruct (negb _); [|discriminate]. intros [= <-]. apply Hrefl.
  - destruct (negb _); [intros [= <-]; apply Hrefl|].
    assert (Hstep : forall prio pp q',
      (let '(nb, l', ev) :=
         send_one_frame layer2_fx25 fx25_send_frame send_invalid_fcs chan prio pp
           (line (b_state b)) in
       bundle_loop layer2_fx25 fx25_send_frame send_invalid_fcs fuel chan max_bundle
         (Bundle (XmitState q' l')
                 (if nb >? 0 then b_numframe b + 1 else b_numframe b)
                 (wrap32 (b_num_bits b + nb))
                 (b_events b ++ ev ++ [EvDelete pp]))) = Ok b' ->
      exists more,
        b_events b' = b_events b ++ more /\ Forall frame_or_delete more
        /\ wrap32 (b_num_bits b') = wrap32 (b_num_bits b + frame_bits_sum more)).
    { intros prio pp q'.
      pose proof (send_one_frame_bits chan prio pp (line (b_state b))) as Hone.
      destruct (send_one_frame _ _ _ chan prio pp _) as [[nb l'] ev].
      destruct Hone as [Hbits Hev]. intros Hrun.
      apply IH in Hrun as (more & He & Hf & Hn). cbn [b_events b_num_bits] in *.
      exists ((ev ++ [EvDelete pp]) ++ more). split; [by rewrite He, <- !app_assoc|].
      split; [by apply Forall_app|].
      rewrite Hn, wrap32_add_l, frame_bits_sum_app. f_equal. lia. }
    destruct (tq_peek (queue (b_state b)) TQ_PRIO_0_HI) as [pp|].
    + destruct (frame_flavor pp); [|intros [= <-]; apply Hrefl|];
        (destruct (tq_remove _ _) as [[pp'|] q']; [apply Hstep|discriminate]).
    + destruct (tq_peek (queue (b_state b)) TQ_PRIO_1_LO) as [pp|];
        [|intros [= <-]; apply Hrefl].
      destruct (frame_flavor pp); [|intros [= <-]; apply Hrefl|];
        (destruct (tq_remove _ _) as [[pp'|] q']; [apply Hstep|discriminate]).
Qed.

Lemma preamble_postamble_bits nbytes l :
  fst (layer2_preamble_postamble nbytes l) = 8 * Z.max 0 nbytes.
Proof.
  unfold layer2_preamble_postamble. rewrite Preamble.send_flags_run. cbn. lia.
Qed.

(** The number of flags of a filler of [t] units of 10 ms, as the code
    computes it in [int], and its value while the products stay below
    2^31. *)
Lemma filler_flags_in_range t rate :
  0 <= t * 10 * rate < 2 ^ 31 ->
  Z.quot (Z.quot (wrap32 (wrap32 (t * 10) * rate)) 1000) 8 = t * 10 * rate / 1000 / 8.
Proof.
  intros Hr. rewrite wrap32_mul_l, wrap32_small by lia.
  rewrite (Z.quot_div_nonneg (t * 10 * rate) 1000) by lia.
  rewrite Z.quot_div_nonneg; [done| |lia].
  apply Z.div_pos; lia.
Qed.

(** X13. One transmission, from PTT on to PTT off.  With enough fuel for
    the queue, a call of [xmit_ax25_frames] does, in this order: PTT
    on; the [pre_flags] flags of TXDELAY; frames sent and packets
    released, nothing else; the [post_flags] flags of TXTAIL; the wait
    for the audio device; then it computes [BITS_TO_MS(num_bits)],
    where [num_bits] is eight bits for every flag of the two fillers
    plus what the calls of [layer2_send_frame] returned, summed in
    [int].  When the bit rate of the channel is zero this division
    stops the program.  Otherwise the call sleeps
    that many ms in one sleep, left out when the number is not
    positive, and turns PTT off: the sleep is the duration of the
    whole transmission, the time already spent sending is not taken
    off.  All of this is arithmetic of [int]: while the products stay
    below 2^31 (a transmission of at most 2147483 bits) the numbers of
    flags are [t * 10 * rate / 1000 / 8] and the sleep is
    [total * 1000 / rate]; above, they are what the wrapped products
    give. *)
Theorem transmitter_keyed_for_air_time (fuel : nat) (chan prio : Z) (pp : packet)
    (max_bundle : Z) (st : xmit_state) :
  (tq_size (queue st) < fuel)%nat ->
  let rate := chan_param (xmit_bits_per_sec params) chan in
  let txdelay := chan_param (xmit_txdelay params) chan in
  let txtail := chan_param (xmit_txtail params) chan in
  let pre_flags := Z.quot (MS_TO_BITS params (wrap32 (txdelay * 10)) chan) 8 in
  let post_flags := Z.quot (MS_TO_BITS params (wrap32 (txtail * 10)) chan) 8 in
  let call := xmit_ax25_frames layer2_fx25 fx25_send_frame send_invalid_fcs params
                fuel chan prio pp max_bundle st in
  exists frames,
    let total :=
      8 * Z.max 0 pre_flags + frame_bits_sum frames + 8 * Z.max 0 post_flags in
    Forall frame_or_delete frames
    /\ match BITS_TO_MS params (wrap32 total) chan with
       | Some duration =>
           exists st',
             call = Ok (st',
                        [EvPtt chan 1; EvFlags chan pre_flags 0]
                        ++ frames
                        ++ [EvFlags chan post_flags 1; EvAudioWait (ACHAN2ADEV chan)]
                        ++ (if duration >? 0 then [EvSleep duration] else [])
                        ++ [EvPtt chan 0])
       | None => call = Abort
       end
    /\ (rate = 0 -> BITS_TO_MS params (wrap32 total) chan = None)
    /\ (0 < rate -> 0 <= total * 1000 < 2 ^ 31 ->
        BITS_TO_MS params (wrap32 total) chan = Some (total * 1000 / rate))
    /\ (0 <= txdelay * 10 * rate < 2 ^ 31 ->
        pre_flags = txdelay * 10 * rate / 1000 / 8)
    /\ (0 <= txtail * 10 * rate < 2 ^ 31 ->
        post_flags = txtail * 10 * rate / 1000 / 8).
Proof.
  intros Hfuel rate txdelay txtail pre_flags post_flags call.
  unfold call, xmit_ax25_frames. fold txdelay txtail. fold pre_flags post_flags.
  pose proof (preamble_postamble_bits pre_flags (line st)) as Hpre.
  destruct (layer2_preamble_postamble pre_flags (line st)) as [nb0 l1].
  cbn [fst] in Hpre.
  pose proof (send_one_frame_bits chan prio pp l1) as Hone.
  destruct (send_one_frame _ _ _ chan prio pp l1) as [[nb l2] ev].
  destruct Hone as [Hbits Hev].
  match goal with
  | |- context [bundle_loop _ _ _ fuel chan max_bundle ?b0] =>
      destruct (bundle_loop_spec layer2_fx25 fx25_send_frame send_invalid_fcs
                  chan max_bundle fuel b0 Hfuel) as (b & Hloop & _)
  end.
  rewrite Hloop.
  apply bundle_loop_bits in Hloop as (more & He & Hf & Hn).
  cbn [b_events b_num_bits] in He, Hn.
  pose proof (preamble_postamble_bits post_flags (line (b_state b))) as Hpost.
  destruct (layer2_preamble_postamble post_flags (line (b_state b))) as [nb3 l3].
  cbn [fst] in Hpost.
  exists ((ev ++ [EvDelete pp]) ++ more). cbv zeta.
  assert (Hbits' : wrap32 (b_num_bits b + nb3)
                   = wrap32 (8 * Z.max 0 pre_flags
                             + frame_bits_sum ((ev ++ [EvDelete pp]) ++ more)
                             + 8 * Z.max 0 post_flags)).
  { rewrite <- (wrap32_add_l (b_num_bits b) nb3), Hn, wrap32_add_l.
    rewrite <- Z.add_assoc, wrap32_add_l, frame_bits_sum_app.
    f_equal. lia. }
  rewrite Hbits'.
  set (total := 8 * Z.max 0 pre_flags + frame_bits_sum ((ev ++ [EvDelete pp]) ++ more)
                + 8 * Z.max 0 post_flags).
  split; [by apply Forall_app|]. split; [|split; [|split; [|split]]].
  - destruct (BITS_TO_MS params (wrap32 total) chan) as [duration|]; [|done].
    eexists. rewrite He, <- !app_assoc. reflexivity.
  - intros Hz. unfold BITS_TO_MS. fold rate. rewrite Hz. apply int_div_zero.
  - intros Hrate Htot. unfold BITS_TO_MS. fold rate.
    rewrite wrap32_mul_l, wrap32_small by lia. apply int_div_pos; lia.
  - intros Hr. unfold pre_flags, MS_TO_BITS. fold rate.
    by apply filler_flags_in_range.
  - intros Hr. unfold post_flags, MS_TO_BITS. fold rate.
    by apply filler_flags_in_range.
Qed.

End Timing.

(** A transmission of two frames at 1200 bits per second, TXDELAY 30
    and TXTAIL 10. *)
Definition example_transmission : run (xmit_state * list xmit_event) :=
  xmit_ax25_frames false (fun _ => 0) (fun _ => false) example_params 3 0 1
    new_packet 256 (XmitState (TQ [] [new_packet]) (SendState 0 0 0)).

Lemma transmitter_keyed_for_air_time_witness :
  exists st' frames,
    let total := 8 * 45 + frame_bits_sum frames + 8 * 15 in
    let duration := Z.quot (wrap32 (wrap32 total * 1000)) 1200 in
    example_transmission
    = Ok (st', [EvPtt 0 1; EvFlags 0 45 0] ++ frames
               ++ [EvFlags 0 15 1; EvAudioWait 0]
               ++ (if duration >? 0 then [EvSleep duration] else [])
               ++ [EvPtt 0 0])
    /\ Forall frame_or_delete frames.
Proof.
  destruct (transmitter_keyed_for_air_time false (fun _ => 0) (fun _ => false)
              example_params 3 0 1 new_packet 256
              (XmitState (TQ [] [new_packet]) (SendState 0 0 0)) ltac:(cbn; lia))
    as (frames & Hf & Hrun & _).
  unfold BITS_TO_MS, int_div in Hrun.
  change (chan_param (xmit_bits_per_sec example_params) 0) with 1200 in Hrun.
  rewrite andb_false_r in Hrun. cbn [orb Z.eqb] in Hrun.
  destruct Hrun as (st' & Hrun).
  exists st', frames. split; [exact Hrun|exact Hf].
Defined.

(** The same transmission in numbers: 45 and 15 flags, two frames of
    73 bits, 626 bits in all and a sleep of 521 ms. *)
Lemma example_transmission_run :
  exists st',
    example_transmission
    = Ok (st', [EvPtt 0 1; EvFlags 0 45 0;
                EvFrame 0 1 new_packet 73; EvDelete new_packet;
                EvFrame 0 1 new_packet 73; EvDelete new_packet;
                EvFlags 0 15 1; EvAudioWait 0; EvSleep 521; EvPtt 0 0]).
Proof. eexists. vm_compute. reflexivity. Qed.

(** With TXDELAY at 200000 the product of [MS_TO_BITS] wraps to a
    negative number: no flag is sent before the frame, and the sleep
    covers the frame and the TXTAIL only. *)
Definition long_txdelay : xmit_params := xmit_set_txdelay example_params 0 200000.

Lemma long_txdelay_run :
  exists st',
    xmit_ax25_frames false (fun _ => 0) (fun _ => false) long_txdelay 3 0 1
      new_packet 256 (XmitState (TQ [] []) (SendState 0 0 0))
    = Ok (st', [EvPtt 0 1; EvFlags 0 (-236870) 0;
                EvFrame 0 1 new_packet 73; EvDelete new_packet;
                EvFlags 0 15 1; EvAudioWait 0; EvSleep 160; EvPtt 0 0]).
Proof. eexists. vm_compute. reflexivity. Qed.

(** With a bit rate of zero the division of [BITS_TO_MS] stops the
    program. *)
Definition zero_rate : xmit_params :=
  XmitParamsRec (replicate 6 10) (replicate 6 63) (replicate 6 30)
                (replicate 6 10) (replicate 6 0) (replicate 6 0).

Lemma zero_rate_run :
  xmit_ax25_frames false (fun _ => 0) (fun _ => false) zero_rate 3 0 1
    new_packet 256 (XmitState (TQ [] []) (SendState 0 0 0))
  = Abort.
Proof. vm_compute. reflexivity. Qed.

End TxTiming.

(** ** gen_tone.c: from line bits to audio samples *)

Module GenTone.
Import Direwolf HdlcSend HdlcSendFacts Outcome.

(** [ADEVFIRSTCHAN(n)] is [(n) * 2]. *)
Definition ADEVFIRSTCHAN (n : Z) : Z := n * 2.

(** What the functions read for one channel: from the audio
    configuration, whether the channel is a radio channel, whether its
    modem is AFSK, and the [num_channels] and [bits_per_sample] of its
    device; and the entries of the static arrays [gen_tone_init] filled
    in, with the sine table of 256 entries. *)
Record tone_config : Type := ToneConfig {
  medium_radio : bool;
  modem_afsk : bool;
  num_channels : Z;
  bits_per_sample : Z;
  ticks_per_sample : Z;
  ticks_per_bit : Z;
  f1_change_per_sample : Z;
  f2_change_per_sample : Z;
  sine_table : list Z
}.

(** The accumulators of one channel, [tone_phase] (an [unsigned int]),
    [bit_len_acc] and [prev_dat], and the bytes given to [audio_put] so
    far, in order. *)
Record tone_state : Type := ToneState {
  tone_phase : Z;
  bit_len_acc : Z;
  prev_dat : Z;
  audio_out : list Z
}.

(** The clipping at the head of [gen_tone_put_sample]. *)
Definition clip (sam : Z) : Z :=
  if sam <? -32767 then -32767
  else if sam >? 32767 then 32767
  else sam.

(** [gen_tone_put_sample]: the bytes it gives to [audio_put], or
    [None] when one of its assertions fails. *)
Definition gen_tone_put_sample (cfg : tone_config) (chan a sam : Z)
  : option (list Z) :=
  if negb ((num_channels cfg =? 1) || (num_channels cfg =? 2)) then None
  else if negb ((bits_per_sample cfg =? 16) || (bits_per_sample cfg =? 8)) then None
  else
    let sam := clip sam in
    let b8 := Z.land (Z.shiftr (sam + 32768) 8) 0xff in
    let lo := Z.land sam 0xff in
    let hi := Z.land (Z.shiftr sam 8) 0xff in
    Some (if num_channels cfg =? 1 then
            if bits_per_sample cfg =? 8 then [b8] else [lo; hi]
          else if chan =? ADEVFIRSTCHAN a then
            if bits_per_sample cfg =? 8 then [b8; 0] else [lo; hi; 0; 0]
          else
            if bits_per_sample cfg =? 8 then [0; b8] else [0; 0; lo; hi]).

(** The [do ... while (bit_len_acc[chan] < ticks_per_bit[chan])] loop
    of [tone_gen_put_bit]. *)
Fixpoint put_bit_loop (fuel : nat) (cfg : tone_config) (chan a dat : Z)
    (st : tone_state) : run tone_state :=
  match fuel with
  | O => NoFuel
  | S fuel' =>
      if negb (modem_afsk cfg) then Abort
      else
        let phase :=
          (tone_phase st + (if truthy dat then f1_change_per_sample cfg
                            else f2_change_per_sample cfg)) mod 2 ^ 32 in
        let sam :=
          nth (Z.to_nat (Z.land (Z.shiftr phase 24) 0xff)) (sine_table cfg) 0 in
        match gen_tone_put_sample cfg chan a sam with
        | None => Abort
        | Some bytes =>
            let acc := bit_len_acc st + ticks_per_sample cfg in
            let st' := ToneState phase acc (prev_dat st) (audio_out st ++ bytes) in
            if acc <? ticks_per_bit cfg then put_bit_loop fuel' cfg chan a dat st'
            else Ok st'
        end
  end.

(** [tone_gen_put_bit]. *)
Definition tone_gen_put_bit (fuel : nat) (cfg : tone_config) (chan dat : Z)
    (st : tone_state) : run tone_state :=
  let a := ACHAN2ADEV chan in
  if negb (medium_radio cfg) then Ok st
  else
    let st0 :=
      if dat <? 0 then
        ToneState (tone_phase st) (bit_len_acc st - ticks_per_bit cfg)
                  (prev_dat st) (audio_out st)
      else st in
    let dat := if dat <? 0 then 0 else dat in
    match put_bit_loop fuel cfg chan a dat st0 with
    | Ok st1 =>
        Ok (ToneState (tone_phase st1) (bit_len_acc st1 - ticks_per_bit cfg)
                      dat (audio_out st1))
    | Abort => Abort
    | NoFuel => NoFuel
    end.

(** The calls of [tone_gen_put_bit] for a sequence of line levels. *)
Fixpoint tone_gen_put_bits (fuel : nat) (cfg : tone_config) (chan : Z)
    (dats : list Z) (st : tone_state) : run tone_state :=
  match dats with
  | [] => Ok st
  | dat :: rest =>
      match tone_gen_put_bit fuel cfg chan dat st with
      | Ok st' => tone_gen_put_bits fuel cfg chan rest st'
      | Abort => Abort
      | NoFuel => NoFuel
      end
  end.

(** A configuration the functions accept: a radio channel with an AFSK
    modem on a device of one or two channels and 8 or 16 bits. *)
Definition config_ok (cfg : tone_config) : Prop :=
  medium_radio cfg = true /\ modem_afsk cfg = true
  /\ (num_channels cfg = 1 \/ num_channels cfg = 2)
  /\ (bits_per_sample cfg = 8 \/ bits_per_sample cfg = 16).

(** The bytes of one sample of all channels of the device. *)
Definition block_align (cfg : tone_config) : Z :=
  num_channels cfg * (bits_per_sample cfg / 8).

(** The part of the bytes of one sample that belongs to [chan], and
    the rest. *)
Definition own_slot (cfg : tone_config) (chan a : Z) (bytes : list Z) : list Z :=
  let w := Z.to_nat (bits_per_sample cfg / 8) in
  if (num_channels cfg =? 1) || (chan =? ADEVFIRSTCHAN a) then take w bytes
  else drop w bytes.

Definition other_slot (cfg : tone_config) (chan a : Z) (bytes : list Z) : list Z :=
  let w := Z.to_nat (bits_per_sample cfg / 8) in
  if (num_channels cfg =? 1) || (chan =? ADEVFIRSTCHAN a) then drop w bytes
  else take w bytes.

(** A sample read back from its bytes: 16 bits signed, low byte
    first. *)
Definition decode16 (bytes : list Z) : Z :=
  let u := nth 0 bytes 0 + 256 * nth 1 bytes 0 in
  if u >=? 32768 then u - 65536 else u.

(** The bytes of [k] more samples of one tone, from the phase
    [phase]. *)
Fixpoint tone_bytes (k : nat) (cfg : tone_config) (chan a change phase : Z)
  : list Z :=
  match k with
  | O => []
  | S k' =>
      let phase := (phase + change) mod 2 ^ 32 in
      let sam :=
        nth (Z.to_nat (Z.land (Z.shiftr phase 24) 0xff)) (sine_table cfg) 0 in
      default [] (gen_tone_put_sample cfg chan a sam)
      ++ tone_bytes k' cfg chan a change phase
  end.

Lemma land_255 x : 0 <= Z.land x 0xff <= 255.
Proof.
  change (Z.land x 0xff) with (Z.land x (Z.ones 8)).
  rewrite Z.land_ones by lia.
  pose proof (Z.mod_pos_bound x (2 ^ 8) eq_refl). change (2 ^ 8) with 256 in *. lia.
Qed.

Lemma clip_range sam : -32767 <= clip sam <= 32767.
Proof.
  unfold clip. destruct (Z.ltb_spec sam (-32767)); [lia|].
  destruct (Z.gtb_spec sam 32767); lia.
Qed.

Lemma clip_id sam : -32767 <= sam <= 32767 -> clip sam = sam.
Proof.
  intros H. unfold clip. destruct (Z.ltb_spec sam (-32767)); [lia|].
  destruct (Z.gtb_spec sam 32767); lia.
Qed.

(** The two bytes of a 16 bit sample, read back. *)
Lemma decode16_bytes s rest :
  -32768 <= s <= 32767 ->
  decode16 (Z.land s 0xff :: Z.land (Z.shiftr s 8) 0xff :: rest) = s.
Proof.
  intros Hs. unfold decode16. cbn [nth].
  change 0xff with (Z.ones 8). rewrite !Z.land_ones, Z.shiftr_div_pow2 by lia.
  change (2 ^ 8) with 256.
  pose proof (Z.div_mod s 256 ltac:(lia)) as Hdm.
  pose proof (Z.mod_pos_bound s 256 ltac:(lia)) as Hm.
  assert (Hq : -128 <= s / 256 <= 127).
  { split; [apply Z.div_le_lower_bound; lia|].
    assert (s / 256 < 128); [apply Z.div_lt_upper_bound|]; lia. }
  destruct (Z_lt_le_dec s 0) as [Hneg|Hpos].
  - assert (Hq' : s / 256 < 0) by (apply Z.div_lt_upper_bound; lia).
    replace ((s / 256) mod 256) with (s / 256 + 256)
      by (apply Z.mod_unique with (-1); lia).
    destruct (Z.geb_spec (s mod 256 + 256 * (s / 256 + 256)) 32768); lia.
  - assert (Hq' : 0 <= s / 256) by (apply Z.div_pos; lia).
    rewrite (Z.mod_small (s / 256)) by lia.
    destruct (Z.geb_spec (s mod 256 + 256 * (s / 256)) 32768); lia.
Qed.

(** The byte of an 8 bit sample. *)
Lemma byte8_range s :
  -32768 <= s <= 32767 ->
  let b := Z.land (Z.shiftr (s + 32768) 8) 0xff in
  b = (s + 32768) / 256 /\ 256 * b - 32768 <= s < 256 * b - 32768 + 256.
Proof.
  intros Hs. cbv zeta.
  change 0xff with (Z.ones 8). rewrite Z.land_ones, Z.shiftr_div_pow2 by lia.
  change (2 ^ 8) with 256.
  pose proof (Z.div_mod (s + 32768) 256 ltac:(lia)) as Hdm.
  pose proof (Z.mod_pos_bound (s + 32768) 256 ltac:(lia)) as Hm.
  assert (Hq : 0 <= (s + 32768) / 256 < 256).
  { split; [apply Z.div_pos; lia|apply Z.div_lt_upper_bound; lia]. }
  rewrite (Z.mod_small ((s + 32768) / 256)) by lia. lia.
Qed.

Ltac config_cases cfg H :=
  destruct H as (_ & _ & [Hnc|Hnc] & [Hb|Hb]); unfold gen_tone_put_sample;
  rewrite Hnc, Hb; cbn [Z.eqb Pos.eqb orb negb].

(** X14. What one sample becomes.  On a device of one or two channels and
    8 or 16 bits, [gen_tone_put_sample] writes one byte or two for
    every channel of the device.  The sample is first limited to
    -32767 .. 32767.  With 16 bits the bytes of the channel it is for
    are the limited sample, signed, low byte first; with 8 bits the one
    byte is the limited sample plus 32768, divided by 256.  The bytes
    of the other channel of a stereo device are zero; the channel comes
    first exactly when it is the first channel of the device. *)
Theorem sample_bytes_encode_sample (cfg : tone_config) (chan a sam : Z) :
  config_ok cfg ->
  exists bytes,
    gen_tone_put_sample cfg chan a sam = Some bytes
    /\ Z.of_nat (length bytes) = block_align cfg
    /\ Forall (fun b => 0 <= b <= 255) bytes
    /\ -32767 <= clip sam <= 32767
    /\ (-32767 <= sam <= 32767 -> clip sam = sam)
    /\ (bits_per_sample cfg = 16 ->
        decode16 (own_slot cfg chan a bytes) = clip sam)
    /\ (bits_per_sample cfg = 8 ->
        exists b, own_slot cfg chan a bytes = [b]
                  /\ b = (clip sam + 32768) / 256
                  /\ 256 * b - 32768 <= clip sam < 256 * b - 32768 + 256)
    /\ Forall (fun b => b = 0) (other_slot cfg chan a bytes)
    /\ Z.of_nat (length (other_slot cfg chan a bytes))
       = (num_channels cfg - 1) * (bits_per_sample cfg / 8).
Proof.
  intros Hok.
  pose proof (clip_range sam) as Hc.
  pose proof (decode16_bytes (clip sam)) as H16.
  pose proof (byte8_range (clip sam) ltac:(lia)) as H8. cbv zeta in H8.
  pose proof (land_255 (clip sam)) as Hlo.
  pose proof (land_255 (Z.shiftr (clip sam) 8)) as Hhi.
  pose proof (land_255 (Z.shiftr (clip sam + 32768) 8)) as Hb8.
  assert (Hz : 0 <= 0 <= 255) by lia.
  unfold block_align, own_slot, other_slot.
  config_cases cfg Hok;
    [| |destruct (chan =? ADEVFIRSTCHAN a)..];
    eexists; (split; [reflexivity|]);
    (split; [reflexivity|]);
    (split; [repeat (apply Forall_cons; split; [assumption|]); by apply Forall_nil|]);
    (split; [exact Hc|]);
    (split; [apply clip_id|]);
    (split; [intros Hw; first [discriminate Hw | cbn; apply H16; lia]|]);
    (split; [intros Hw;
             first [discriminate Hw | cbn; eexists; split; [reflexivity|exact H8]]|]);
    (split; [cbn; repeat (apply Forall_cons; split; [reflexivity|]); by apply Forall_nil
            |reflexivity]).
Qed.

Definition example_config : tone_config :=
  ToneConfig true true 2 16 97391 3579139 116869 214263
             (map (fun j => Z.of_nat j * 100 - 12800) (seq 0 256)).

Lemma sample_bytes_encode_sample_witness :
  exists bytes,
    gen_tone_put_sample example_config 1 0 (-40000) = Some bytes
    /\ bytes = [0; 0; 1; 128]
    /\ decode16 (own_slot example_config 1 0 bytes) = -32767.
Proof.
  destruct (sample_bytes_encode_sample example_config 1 0 (-40000))
    as (bytes & Hrun & _ & _ & _ & _ & H16 & _).
  - unfold config_ok, example_config. cbn. auto.
  - exists bytes. split; [exact Hrun|]. split.
    + vm_compute in Hrun. congruence.
    + apply H16. reflexivity.
Defined.

Lemma gen_tone_put_sample_ok cfg chan a sam :
  config_ok cfg ->
  exists bytes, gen_tone_put_sample cfg chan a sam = Some bytes
                /\ Z.of_nat (length bytes) = block_align cfg.
Proof.
  intros Hok. unfold block_align.
  config_cases cfg Hok; [| |destruct (chan =? ADEVFIRSTCHAN a)..];
    eexists; split; reflexivity.
Qed.

Lemma tone_bytes_length cfg chan a change k : forall phase,
  config_ok cfg ->
  Z.of_nat (length (tone_bytes k cfg chan a change phase))
  = Z.of_nat k * block_align cfg.
Proof.
  induction k as [|k IH]; intros phase Hok; [cbn; lia|].
  cbn [tone_bytes]. rewrite length_app, Nat2Z.inj_add, IH by done.
  destruct (gen_tone_put_sample_ok cfg chan a
              (nth (Z.to_nat (Z.land (Z.shiftr ((phase + change) mod 2 ^ 32) 24) 255))
                   (sine_table cfg) 0) Hok) as (bytes & -> & Hlen).
  cbn [from_option id]. lia.
Qed.

(** The loop of [tone_gen_put_bit] makes [S k] turns when the
    accumulator stays below [ticks_per_bit] for [k] turns and not for
    one more. *)
Lemma put_bit_loop_run cfg chan a dat k : forall fuel st,
  config_ok cfg ->
  0 < ticks_per_sample cfg ->
  bit_len_acc st + Z.of_nat k * ticks_per_sample cfg < ticks_per_bit cfg ->
  ticks_per_bit cfg <= bit_len_acc st + Z.of_nat (S k) * ticks_per_sample cfg ->
  (k < fuel)%nat ->
  let change := if truthy dat then f1_change_per_sample cfg
                else f2_change_per_sample cfg in
  put_bit_loop fuel cfg chan a dat st
  = Ok (ToneState ((tone_phase st + Z.of_nat (S k) * change) mod 2 ^ 32)
                  (bit_len_acc st + Z.of_nat (S k) * ticks_per_sample cfg)
                  (prev_dat st)
                  (audio_out st ++ tone_bytes (S k) cfg chan a change (tone_phase st))).
Proof.
  induction k as [|k IH]; intros fuel st Hok Hpos Hlt Hge Hfuel change;
    (destruct fuel as [|fuel]; [lia|]); cbn [put_bit_loop];
    pose proof Hok as (_ & -> & _); cbn [negb]; fold change;
    destruct (gen_tone_put_sample_ok cfg chan a
                (nth (Z.to_nat (Z.land (Z.shiftr ((tone_phase st + change) mod 2 ^ 32)
                                                 24) 255))
                     (sine_table cfg) 0) Hok) as (bytes & Hb & _);
    cbn [tone_bytes]; rewrite Hb; cbn [from_option id].
  - destruct (Z.ltb_spec (bit_len_acc st + ticks_per_sample cfg) (ticks_per_bit cfg));
      [lia|].
    rewrite app_nil_r. do 2 f_equal; [f_equal|]; lia.
  - destruct (Z.ltb_spec (bit_len_acc st + ticks_per_sample cfg) (ticks_per_bit cfg));
      [|lia].
    rewrite IH; cbn [tone_phase bit_len_acc prev_dat audio_out];
      [|done|done|lia|lia|lia].
    fold change. rewrite Z.add_mod_idemp_l by lia.
    cbn [tone_bytes]. rewrite <- app_assoc.
    do 2 f_equal; [f_equal|]; lia.
Qed.

(** The number of samples of a bit that starts with [acc] ticks
    already spent. *)
Definition samples_of_bit (cfg : tone_config) (acc : Z) : Z :=
  (ticks_per_bit cfg - acc + ticks_per_sample cfg - 1) / ticks_per_sample cfg.

Lemma samples_of_bit_spec cfg acc :
  0 < ticks_per_sample cfg <= ticks_per_bit cfg ->
  0 <= acc < ticks_per_sample cfg ->
  let k := samples_of_bit cfg acc in
  1 <= k
  /\ acc + (k - 1) * ticks_per_sample cfg < ticks_per_bit cfg
  /\ ticks_per_bit cfg <= acc + k * ticks_per_sample cfg.
Proof.
  intros Ht Ha. cbv zeta. unfold samples_of_bit.
  set (tps := ticks_per_sample cfg) in *. set (tpb := ticks_per_bit cfg) in *.
  pose proof (Z.div_mod (tpb - acc + tps - 1) tps ltac:(lia)) as Hdm.
  pose proof (Z.mod_pos_bound (tpb - acc + tps - 1) tps ltac:(lia)) as Hm.
  assert (1 <= (tpb - acc + tps - 1) / tps)
    by (apply Z.div_le_lower_bound; lia).
  nia.
Qed.

(** The call as one equation. *)
Lemma tone_gen_put_bit_eq (fuel : nat) (cfg : tone_config) (chan dat : Z)
    (st : tone_state) :
  config_ok cfg ->
  0 < ticks_per_sample cfg <= ticks_per_bit cfg ->
  0 <= bit_len_acc st < ticks_per_sample cfg ->
  0 <= dat ->
  ticks_per_bit cfg <= Z.of_nat fuel * ticks_per_sample cfg ->
  let k := samples_of_bit cfg (bit_len_acc st) in
  let change := if truthy dat then f1_change_per_sample cfg
                else f2_change_per_sample cfg in
  tone_gen_put_bit fuel cfg chan dat st
  = Ok (ToneState ((tone_phase st + k * change) mod 2 ^ 32)
                  (bit_len_acc st + k * ticks_per_sample cfg - ticks_per_bit cfg)
                  dat
                  (audio_out st
                   ++ tone_bytes (Z.to_nat k) cfg chan (ACHAN2ADEV chan) change
                        (tone_phase st))).
Proof.
  intros Hok Ht Ha Hd Hfuel k change.
  destruct (samples_of_bit_spec cfg (bit_len_acc st) Ht Ha) as (Hk1 & Hk2 & Hk3).
  fold k in Hk1, Hk2, Hk3.
  unfold tone_gen_put_bit. pose proof Hok as (-> & _). cbn [negb].
  destruct (Z.ltb_spec dat 0) as [|_]; [lia|].
  assert (HS : Z.to_nat k = S (Z.to_nat (k - 1))) by lia.
  rewrite (put_bit_loop_run cfg chan (ACHAN2ADEV chan) dat (Z.to_nat (k - 1)));
    [|done|lia|lia|lia|nia].
  fold change. rewrite <- HS.
  cbn [tone_phase bit_len_acc prev_dat audio_out].
  by rewrite !Z2Nat.id by lia.
Qed.

Lemma put_bit_run (fuel : nat) (cfg : tone_config) (chan dat : Z) (st : tone_state) :
  config_ok cfg ->
  0 < ticks_per_sample cfg <= ticks_per_bit cfg ->
  0 <= bit_len_acc st < ticks_per_sample cfg ->
  0 <= dat ->
  ticks_per_bit cfg <= Z.of_nat fuel * ticks_per_sample cfg ->
  exists st',
    tone_gen_put_bit fuel cfg chan dat st = Ok st'
    /\ bit_len_acc st'
       = bit_len_acc st + samples_of_bit cfg (bit_len_acc st) * ticks_per_sample cfg
         - ticks_per_bit cfg
    /\ 0 <= bit_len_acc st' < ticks_per_sample cfg
    /\ Z.of_nat (length (audio_out st'))
       = Z.of_nat (length (audio_out st))
         + samples_of_bit cfg (bit_len_acc st) * block_align cfg.
Proof.
  intros Hok Ht Ha Hd Hfuel.
  destruct (samples_of_bit_spec cfg (bit_len_acc st) Ht Ha) as (Hk1 & Hk2 & Hk3).
  rewrite tone_gen_put_bit_eq by done. eexists. split; [reflexivity|].
  cbn [bit_len_acc audio_out].
  rewrite length_app, Nat2Z.inj_add, tone_bytes_length by done.
  rewrite Z2Nat.id by lia. repeat split; lia.
Qed.

(** X15. One bit.  With [0 < ticks_per_sample <= ticks_per_bit] and the
    accumulator in [[0, ticks_per_sample)], a call for a line level
    that is not negative returns, given turns for
    [ticks_per_bit / ticks_per_sample] samples and one more, after
    [k] samples, the least number that fills the bit time counted from
    the accumulator; the accumulator is again in
    [[0, ticks_per_sample)] and holds the excess; the phase has
    advanced [k] times by the step of the mark tone for a level that is
    not zero, of the space tone for zero, modulo [2 ^ 32], and every
    sample is the entry of the sine table for the top eight bits of
    the phase. *)
Theorem tone_gen_put_bit_samples (fuel : nat) (cfg : tone_config) (chan dat : Z)
    (st : tone_state) :
  config_ok cfg ->
  0 < ticks_per_sample cfg <= ticks_per_bit cfg ->
  0 <= bit_len_acc st < ticks_per_sample cfg ->
  0 <= dat ->
  ticks_per_bit cfg <= Z.of_nat fuel * ticks_per_sample cfg ->
  let k := samples_of_bit cfg (bit_len_acc st) in
  let change := if truthy dat then f1_change_per_sample cfg
                else f2_change_per_sample cfg in
  exists st',
    tone_gen_put_bit fuel cfg chan dat st = Ok st'
    /\ 1 <= k
    /\ bit_len_acc st + (k - 1) * ticks_per_sample cfg < ticks_per_bit cfg
       <= bit_len_acc st + k * ticks_per_sample cfg
    /\ bit_len_acc st' = bit_len_acc st + k * ticks_per_sample cfg - ticks_per_bit cfg
    /\ 0 <= bit_len_acc st' < ticks_per_sample cfg
    /\ tone_phase st' = (tone_phase st + k * change) mod 2 ^ 32
    /\ prev_dat st' = dat
    /\ audio_out st'
       = audio_out st
         ++ tone_bytes (Z.to_nat k) cfg chan (ACHAN2ADEV chan) change (tone_phase st)
    /\ Z.of_nat (length (audio_out st'))
       = Z.of_nat (length (audio_out st)) + k * block_align cfg.
Proof.
  intros Hok Ht Ha Hd Hfuel k change.
  destruct (samples_of_bit_spec cfg (bit_len_acc st) Ht Ha) as (Hk1 & Hk2 & Hk3).
  fold k in Hk1, Hk2, Hk3.
  rewrite tone_gen_put_bit_eq by done. fold k change.
  eexists. split; [reflexivity|].
  cbn [tone_phase bit_len_acc prev_dat audio_out].
  rewrite length_app, Nat2Z.inj_add, tone_bytes_length by done.
  rewrite Z2Nat.id by lia.
  repeat split; try done; lia.
Qed.

Lemma tone_gen_put_bit_samples_witness :
  exists st',
    tone_gen_put_bit 40 example_config 1 1 (ToneState 0 0 0 []) = Ok st'
    /\ bit_len_acc st' = 24328
    /\ Z.of_nat (length (audio_out st')) = 37 * 4.
Proof.
  destruct (tone_gen_put_bit_samples 40 example_config 1 1 (ToneState 0 0 0 []))
    as (st' & Hrun & _ & _ & Hacc & _ & _ & _ & _ & Hlen).
  - unfold config_ok, example_config. cbn. auto.
  - cbn. lia.
  - cbn. lia.
  - lia.
  - cbn. lia.
  - exists st'. split; [exact Hrun|]. split; [exact Hacc|exact Hlen].
Defined.

(** Any number of bits, from an accumulator in
    [[0, ticks_per_sample)]. *)
Lemma bit_clock_keeps_time (fuel : nat) (cfg : tone_config) (chan : Z)
    (dats : list Z) : forall (st : tone_state),
  config_ok cfg ->
  0 < ticks_per_sample cfg <= ticks_per_bit cfg ->
  0 <= bit_len_acc st < ticks_per_sample cfg ->
  Forall (fun dat => 0 <= dat) dats ->
  ticks_per_bit cfg <= Z.of_nat fuel * ticks_per_sample cfg ->
  exists st' n,
    tone_gen_put_bits fuel cfg chan dats st = Ok st'
    /\ Z.of_nat (length (audio_out st'))
       = Z.of_nat (length (audio_out st)) + n * block_align cfg
    /\ n * ticks_per_sample cfg + bit_len_acc st
       = Z.of_nat (length dats) * ticks_per_bit cfg + bit_len_acc st'
    /\ 0 <= bit_len_acc st' < ticks_per_sample cfg.
Proof.
  induction dats as [|dat dats IH]; intros st Hok Ht Ha Hd Hfuel.
  - exists st, 0. cbn. repeat split; lia.
  - apply Forall_cons in Hd as [Hdat Hd]. cbn [tone_gen_put_bits].
    destruct (put_bit_run fuel cfg chan dat st Hok Ht Ha Hdat Hfuel)
      as (st1 & -> & Hacc1 & Ha1 & Hlen1).
    destruct (IH st1 Hok Ht Ha1 Hd Hfuel) as (st' & n & Hrun & Hlen & Hn & Ha').
    exists st', (samples_of_bit cfg (bit_len_acc st) + n).
    split; [exact Hrun|]. cbn [length]. repeat split; try lia.
Qed.

(** X16. The bit clock does not drift.  On a radio channel with an AFSK
    modem, on a device of one or two channels and 8 or 16 bits, with
    [0 < ticks_per_sample <= ticks_per_bit] and line levels that are
    not negative, from an
    accumulator of zero as [gen_tone_init] leaves it, the calls for any
    sequence of line levels return after [n] samples in all, where
    [n * ticks_per_sample] is the time of the bits,
    [length dats * ticks_per_bit], plus an excess below one sample
    that is kept in the accumulator: [n] is the time of the bits in
    samples, rounded up, however many bits were sent. *)
Theorem bit_clock_does_not_drift (fuel : nat) (cfg : tone_config) (chan : Z)
    (dats : list Z) (st : tone_state) :
  config_ok cfg ->
  0 < ticks_per_sample cfg <= ticks_per_bit cfg ->
  bit_len_acc st = 0 ->
  Forall (fun dat => 0 <= dat) dats ->
  ticks_per_bit cfg <= Z.of_nat fuel * ticks_per_sample cfg ->
  exists st' n,
    tone_gen_put_bits fuel cfg chan dats st = Ok st'
    /\ Z.of_nat (length (audio_out st'))
       = Z.of_nat (length (audio_out st)) + n * block_align cfg
    /\ n * ticks_per_sample cfg
       = Z.of_nat (length dats) * ticks_per_bit cfg + bit_len_acc st'
    /\ 0 <= bit_len_acc st' < ticks_per_sample cfg
    /\ n = (Z.of_nat (length dats) * ticks_per_bit cfg + ticks_per_sample cfg - 1)
           / ticks_per_sample cfg.
Proof.
  intros Hok Ht Hacc Hd Hfuel.
  destruct (bit_clock_keeps_time fuel cfg chan dats st Hok Ht ltac:(lia) Hd Hfuel)
    as (st' & n & Hrun & Hlen & Hn & Ha').
  exists st', n. repeat split; try done; try lia.
  apply Z.div_unique with (ticks_per_sample cfg - 1 - bit_len_acc st'); lia.
Qed.

Lemma bit_clock_does_not_drift_witness :
  exists st' n,
    tone_gen_put_bits 40 example_config 1 [1; 0; 0; 1; 1] (ToneState 0 0 0 []) = Ok st'
    /\ Z.of_nat (length (audio_out st')) = 0 + n * block_align example_config
    /\ n = 184.
Proof.
  destruct (bit_clock_does_not_drift 40 example_config 1 [1; 0; 0; 1; 1]
              (ToneState 0 0 0 []))
    as (st' & n & Hrun & Hlen & _ & _ & Hn).
  - unfold config_ok, example_config. cbn. auto.
  - cbn. lia.
  - reflexivity.
  - repeat (apply Forall_cons; split; [lia|]). by apply Forall_nil.
  - cbn. lia.
  - exists st', n. split; [exact Hrun|]. split; [exact Hlen|]. rewrite Hn. reflexivity.
Defined.

(** The line levels [send_bit_nrzi] hands to [tone_gen_put_bit], given
    to it one after the other. *)
Definition play (fuel : nat) (cfg : tone_config) (chan : Z)
    (sent : list bit_event) (st : tone_state) : run tone_state :=
  tone_gen_put_bits fuel cfg chan (map ev_line sent) st.

Lemma mk_events_levels l : forall line,
  line = 0 \/ line = 1 ->
  Forall (fun dat => 0 <= dat) (map ev_line (mk_events line l)).
Proof.
  induction l as [|d l IH]; intros line Hl; [by apply Forall_nil|].
  cbn [mk_events map ev_line]. apply Forall_cons. split.
  - destruct d, Hl as [-> | ->]; cbn; lia.
  - apply IH. destruct d, Hl as [-> | ->]; cbn; auto.
Qed.

(** X17. The audio of a frame.  On a radio channel with an AFSK modem, on a
    device of one or two channels and 8 or 16 bits, with
    [0 < ticks_per_sample <= ticks_per_bit]: what
    [ax25_only_hdlc_send_frame] sends
    through [send_bit_nrzi] and [tone_gen_put_bit], from a line level
    of 0 or 1 and an accumulator of zero, comes out as [n] samples of
    [block_align] bytes, where [n] is the number of bits the function
    returns times [ticks_per_bit / ticks_per_sample], rounded up. *)
Theorem frame_audio_samples (fuel : nat) (cfg : tone_config) (chan : Z)
    (fbuf : list Z) (bad_fcs : Z) (s : send_state) (st : tone_state) :
  config_ok cfg ->
  0 < ticks_per_sample cfg <= ticks_per_bit cfg ->
  bit_len_acc st = 0 ->
  output s = 0 \/ output s = 1 ->
  ticks_per_bit cfg <= Z.of_nat fuel * ticks_per_sample cfg ->
  let '(nbits, _, sent) := ax25_only_hdlc_send_frame fbuf bad_fcs s in
  exists st' n,
    play fuel cfg chan sent st = Ok st'
    /\ Z.of_nat (length (audio_out st'))
       = Z.of_nat (length (audio_out st)) + n * block_align cfg
    /\ n = (nbits * ticks_per_bit cfg + ticks_per_sample cfg - 1)
           / ticks_per_sample cfg
    /\ 0 <= bit_len_acc st' < ticks_per_sample cfg.
Proof.
  intros Hok Ht Hacc Hout Hfuel. rewrite send_frame_run.
  destruct (bit_clock_keeps_time fuel cfg chan
              (map ev_line (mk_events (output s) (frame_bits fbuf bad_fcs))) st
              Hok Ht ltac:(lia) (mk_events_levels _ _ Hout) Hfuel)
    as (st' & n & Hrun & Hlen & Hn & Ha').
  exists st', n. rewrite length_map, mk_events_length in Hn.
  split; [exact Hrun|]. split; [exact Hlen|]. split; [|exact Ha'].
  apply Z.div_unique with (ticks_per_sample cfg - 1 - bit_len_acc st'); lia.
Qed.

Lemma frame_audio_samples_witness :
  let '(nbits, _, sent) :=
    ax25_only_hdlc_send_frame [0x82; 0xa0; 0x03] 0 (SendState 0 0 0) in
  exists st' n,
    play 40 example_config 1 sent (ToneState 0 0 0 []) = Ok st'
    /\ Z.of_nat (length (audio_out st')) = 0 + n * block_align example_config
    /\ n = (nbits * 3579139 + 97391 - 1) / 97391
    /\ 0 <= bit_len_acc st' < 97391.
Proof.
  apply (frame_audio_samples 40 example_config 1 [0x82; 0xa0; 0x03] 0
           (SendState 0 0 0) (ToneState 0 0 0 [])).
  - unfold config_ok, example_config. cbn. auto.
  - cbn. lia.
  - reflexivity.
  - by left.
  - cbn. lia.
Defined.

End GenTone.

(** ** dlq.c: the queue of received frames *)

Module Dlq.
Import Direwolf IntFacts Rrbb HdlcRec2 Outcome.

Definition MAX_TOTAL_CHANS : Z := 16.
Definition TXDATA_MAGIC : Z := 0x09110911.

(** dlq.h: [cdata_t].  A byte of [data] that was never written has no
    value. *)
Record cdata_t : Type := CData {
  cd_magic : Z;
  cd_pid : Z;
  cd_size : Z;
  cd_len : Z;
  cd_data : list (option Z)
}.

(** dlq.h: [struct dlq_item_s], the members that dlq.c reads or writes:
    a pointer is the address of a cell of the heap, or [None] for
    [NULL].  The other members stay as [calloc] left them. *)
Record dlq_item : Type := DlqItem {
  nextp : option nat;
  di_chan : Z;
  di_subchan : Z;
  di_slice : Z;
  di_pp : option (list Z);
  di_alevel : alevel_t;
  di_fec_type : fec_type_t;
  di_retries : Z;
  di_spectrum : list Z;
  di_txdata : option cdata_t
}.

Definition set_next (nx : option nat) (it : dlq_item) : dlq_item :=
  DlqItem nx (di_chan it) (di_subchan it) (di_slice it) (di_pp it) (di_alevel it)
          (di_fec_type it) (di_retries it) (di_spectrum it) (di_txdata it).

(** The messages of dlq.c. *)
Inductive dlq_msg : Type :=
| MsgNullPacket                       (* dlq_rec_frame NULL packet pointer *)
| MsgLeak (new_count delete_count : Z)  (* DLQ memory leak, new=%d, delete=%d *)
| MsgOutOfControl (queue_length : Z)  (* Received frame queue is out of control *)
| MsgDeleteNull                       (* dlq_delete() given NULL pointer *)
| MsgCdataCorrupted.                  (* cdata_delete() given corrupted data *)

(** The items allocated so far, by address, [None] for one that was
    freed; the statics of dlq.c; the messages printed; and the packets
    given to [ax25_delete]. *)
Record dlq_state : Type := DlqState {
  heap : list (option dlq_item);
  queue_head : option nat;
  was_init : bool;
  s_new_count : Z;
  s_delete_count : Z;
  s_cdata_new_count : Z;
  s_cdata_delete_count : Z;
  messages : list dlq_msg;
  released : list (list Z)
}.

(** The statics as the program starts. *)
Definition dlq_start : dlq_state := DlqState [] None false 0 0 0 0 [] [].

Definition set_heap (h : list (option dlq_item)) (st : dlq_state) : dlq_state :=
  DlqState h (queue_head st) (was_init st) (s_new_count st) (s_delete_count st)
           (s_cdata_new_count st) (s_cdata_delete_count st) (messages st)
           (released st).

Definition set_head (p : option nat) (st : dlq_state) : dlq_state :=
  DlqState (heap st) p (was_init st) (s_new_count st) (s_delete_count st)
           (s_cdata_new_count st) (s_cdata_delete_count st) (messages st)
           (released st).

Definition print (m : list dlq_msg) (st : dlq_state) : dlq_state :=
  DlqState (heap st) (queue_head st) (was_init st) (s_new_count st)
           (s_delete_count st) (s_cdata_new_count st) (s_cdata_delete_count st)
           (messages st ++ m) (released st).

(** [dlq_init]. *)
Definition dlq_init (st : dlq_state) : dlq_state :=
  DlqState (heap st) None true (s_new_count st) (s_delete_count st)
           (s_cdata_new_count st) (s_cdata_delete_count st) (messages st)
           (released st).

Definition init_once (st : dlq_state) : dlq_state :=
  if was_init st then st else dlq_init st.

(** [strlcpy(dst, src, size)] for a string without its terminator. *)
Definition strlcpy (src : list Z) (size : Z) : list Z :=
  take (Z.to_nat (size - 1)) src.

(** [while (plast->nextp != NULL) { plast = plast->nextp; queue_length++; }] *)
Fixpoint find_last (fuel : nat) (h : list (option dlq_item)) (plast : nat)
    (queue_length : Z) : run (nat * Z) :=
  match fuel with
  | O => NoFuel
  | S fuel' =>
      match h !! plast with
      | Some (Some it) =>
          match nextp it with
          | None => Ok (plast, queue_length)
          | Some q => find_last fuel' h q (queue_length + 1)
          end
      | _ => Abort
      end
  end.

(** [append_to_queue].  The calls are modelled one at a time: the
    critical section and the wake-up of the waiting thread are left
    out. *)
Definition append_to_queue (fuel : nat) (pnew : nat) (st : dlq_state)
  : run dlq_state :=
  let st := init_once st in
  match heap st !! pnew with
  | Some (Some it) =>
      let h1 := <[pnew := Some (set_next None it)]> (heap st) in
      let finish (st : dlq_state) (queue_length : Z) : dlq_state :=
        if queue_length >? 10 then print [MsgOutOfControl queue_length] st else st in
      match queue_head st with
      | None => Ok (finish (set_head (Some pnew) (set_heap h1 st)) 1)
      | Some qh =>
          match find_last fuel h1 qh 2 with
          | Ok (plast, queue_length) =>
              match h1 !! plast with
              | Some (Some itl) =>
                  Ok (finish
                        (set_heap (<[plast := Some (set_next (Some pnew) itl)]> h1) st)
                        queue_length)
              | _ => Abort
              end
          | Abort => Abort
          | NoFuel => NoFuel
          end
      end
  | _ => Abort
  end.

(** [dlq_rec_frame]; [calloc] gives the next address. *)
Definition dlq_rec_frame (fuel : nat) (chan subchan slice : Z)
    (pp : option (list Z)) (alevel : alevel_t) (fec_type : fec_type_t)
    (retries : Z) (spectrum : option (list Z)) (st : dlq_state) : run dlq_state :=
  if negb ((chan >=? 0) && (chan <? MAX_TOTAL_CHANS)) then Abort
  else
    match pp with
    | None => Ok (print [MsgNullPacket] st)
    | Some _ =>
        let pnew := length (heap st) in
        let new_count := s_new_count st + 1 in
        let item :=
          DlqItem None chan subchan slice pp alevel fec_type retries
                  (strlcpy (default [] spectrum) (MAX_SUBCHANS * MAX_SLICERS + 1))
                  None in
        let st1 :=
          DlqState (heap st ++ [Some item]) (queue_head st) (was_init st)
                   new_count (s_delete_count st) (s_cdata_new_count st)
                   (s_cdata_delete_count st)
                   (messages st
                    ++ (if new_count >? s_delete_count st + 50
                        then [MsgLeak new_count (s_delete_count st)] else []))
                   (released st) in
        append_to_queue fuel pnew st1
    end.

(** [dlq_remove], without its critical section. *)
Definition dlq_remove (st : dlq_state) : run (option nat * dlq_state) :=
  let st := init_once st in
  match queue_head st with
  | None => Ok (None, st)
  | Some qh =>
      match heap st !! qh with
      | Some (Some it) => Ok (Some qh, set_head (nextp it) st)
      | _ => Abort
      end
  end.

(** [cdata_delete] for a pointer that is not [NULL]. *)
Definition cdata_delete (c : cdata_t) (st : dlq_state) : dlq_state :=
  if negb (cd_magic c =? TXDATA_MAGIC) then print [MsgCdataCorrupted] st
  else
    DlqState (heap st) (queue_head st) (was_init st) (s_new_count st)
             (s_delete_count st) (s_cdata_new_count st) (s_cdata_delete_count st + 1)
             (messages st) (released st).

(** [dlq_delete]. *)
Definition dlq_delete (pitem : option nat) (st : dlq_state) : run dlq_state :=
  match pitem with
  | None => Ok (print [MsgDeleteNull] st)
  | Some p =>
      match heap st !! p with
      | Some (Some it) =>
          let st1 :=
            DlqState (heap st) (queue_head st) (was_init st) (s_new_count st)
                     (s_delete_count st + 1) (s_cdata_new_count st)
                     (s_cdata_delete_count st) (messages st)
                     (released st ++ match di_pp it with Some pp => [pp] | None => [] end)
          in
          let st2 := match di_txdata it with
                     | Some c => cdata_delete c st1
                     | None => st1
                     end in
          Ok (set_heap (<[p := None]> (heap st2)) st2)
      | _ => Abort
      end
  end.

(** [cdata_new]: the block and the counter [s_cdata_new_count].
    [size] is computed in [int]: the sum [len + 127] wraps around.
    [malloc_ok size] answers whether [malloc(sizeof(cdata_t) + size)]
    gives a block; when it does not, the function prints "FATAL ERROR:
    Out of memory." and calls [exit].  [data] is [None] for [NULL];
    copying [len] bytes out of fewer stops the program. *)
Definition cdata_new (malloc_ok : Z -> bool) (pid : Z) (data : option (list Z))
    (len : Z) (count : Z) : run (cdata_t * Z) :=
  let size := Z.land (wrap32 (len + 127)) (Z.lnot 0x7f) in
  if negb (malloc_ok size) then Abort
  else if negb ((len >=? 0) && (len <=? size)) then Abort
  else
    match data with
    | None =>
        Ok (CData TXDATA_MAGIC pid size len (replicate (Z.to_nat size) (Some 63)),
            count + 1)
    | Some d =>
        if Z.of_nat (length d) <? len then Abort
        else
          Ok (CData TXDATA_MAGIC pid size len
                    (map Some (take (Z.to_nat len) d)
                     ++ replicate (Z.to_nat (size - len)) None),
              count + 1)
    end.

(** What [app_process_rec_packet] is called with. *)
Record app_call : Type := AppCall {
  ac_chan : Z;
  ac_subchan : Z;
  ac_slice : Z;
  ac_pp : option (list Z);
  ac_alevel : alevel_t;
  ac_fec_type : fec_type_t;
  ac_retries : Z;
  ac_spectrum : list Z
}.

Definition call_of (it : dlq_item) : app_call :=
  AppCall (di_chan it) (di_subchan it) (di_slice it) (di_pp it) (di_alevel it)
          (di_fec_type it) (di_retries it) (di_spectrum it).

(** The frame held by the item at an address. *)
Definition frame_at (h : list (option dlq_item)) (a : nat) : option app_call :=
  match h !! a with
  | Some (Some it) => Some (call_of it)
  | _ => None
  end.

(** The items at the addresses [q], in this order, are linked from the
    pointer [p], and the last one ends the list. *)
Fixpoint is_chain (h : list (option dlq_item)) (p : option nat) (q : list nat)
  : Prop :=
  match q with
  | [] => p = None
  | a :: rest =>
      p = Some a /\ exists it, h !! a = Some (Some it) /\ is_chain h (nextp it) rest
  end.

(** The queue holds the items at the addresses [q], oldest first. *)
Definition queue_rep (st : dlq_state) (q : list nat) : Prop :=
  is_chain (heap st) (queue_head st) q
  /\ NoDup q
  /\ (was_init st = false -> q = []).

Lemma queue_rep_start : queue_rep dlq_start [].
Proof. repeat split. apply NoDup_nil. done. Qed.

Lemma is_chain_lt h : forall q p a,
  is_chain h p q -> a ∈ q -> (a < length h)%nat.
Proof.
  induction q as [|b q IH]; intros p a Hc Ha; [by apply elem_of_nil in Ha|].
  destruct Hc as (_ & it & Hit & Hc).
  apply elem_of_cons in Ha as [->|Ha]; [by apply lookup_lt_Some in Hit|].
  eapply IH; eauto.
Qed.

(** Writing a cell that is not one of the chain leaves the chain as it
    is. *)
Lemma is_chain_insert h a x : forall q p,
  is_chain h p q -> a ∉ q -> is_chain (<[a := x]> h) p q.
Proof.
  induction q as [|b q IH]; intros p Hc Ha; [done|].
  destruct Hc as (Hp & it & Hit & Hc). apply not_elem_of_cons in Ha as [Hne Ha].
  split; [done|]. exists it. split; [by rewrite list_lookup_insert_ne|by apply IH].
Qed.

Lemma is_chain_app_new h x : forall q p,
  is_chain h p q -> is_chain (h ++ [x]) p q.
Proof.
  induction q as [|b q IH]; intros p Hc; [done|].
  destruct Hc as (Hp & it & Hit & Hc).
  split; [done|]. exists it. split; [|by apply IH].
  by apply lookup_app_l_Some.
Qed.

Lemma is_chain_last h al : forall q p,
  is_chain h p (q ++ [al]) ->
  exists itl, h !! al = Some (Some itl) /\ nextp itl = None.
Proof.
  induction q as [|a q IH]; intros p (_ & it & Hit & Hc);
    [by exists it|by apply (IH (nextp it))].
Qed.

(** The walk of [append_to_queue] ends at the last item and has
    counted the items and the new one. *)
Lemma find_last_chain h al : forall q p fuel len,
  is_chain h p (q ++ [al]) ->
  (length q < fuel)%nat ->
  exists qh, p = Some qh
             /\ find_last fuel h qh len = Ok (al, len + Z.of_nat (length q)).
Proof.
  induction q as [|a q IH]; intros p fuel len Hc Hfuel.
  - destruct Hc as (Hp & it & Hit & Hn). cbn in Hn.
    exists al. split; [done|]. destruct fuel as [|fuel]; [cbn in Hfuel; lia|].
    cbn [find_last]. rewrite Hit, Hn. cbn. by rewrite Z.add_0_r.
  - destruct Hc as (Hp & it & Hit & Hc). cbn [app] in *.
    destruct fuel as [|fuel]; [cbn in Hfuel; lia|].
    destruct (IH (nextp it) fuel (len + 1) Hc) as (qh & Hnx & Hrun);
      [cbn in Hfuel; lia|].
    exists a. split; [done|]. cbn [find_last]. rewrite Hit, Hnx, Hrun.
    do 2 f_equal. cbn [length]. lia.
Qed.

(** Linking a new item behind the last one. *)
Lemma is_chain_snoc h al itl pnew itn : forall q p,
  is_chain h p (q ++ [al]) ->
  NoDup (q ++ [al]) ->
  pnew ∉ q ++ [al] ->
  h !! al = Some (Some itl) ->
  h !! pnew = Some (Some itn) ->
  nextp itn = None ->
  is_chain (<[al := Some (set_next (Some pnew) itl)]> h) p (q ++ [al; pnew]).
Proof.
  intros q p Hc Hnd Hnew Hl Hn Hnn.
  assert (Hal : (al < length h)%nat) by (by apply lookup_lt_Some in Hl).
  revert p Hc Hnd Hnew. induction q as [|a q IH]; intros p Hc Hnd Hnew.
  - destruct Hc as (Hp & it & Hit & _). cbn [app] in *.
    apply not_elem_of_cons in Hnew as [Hne _].
    split; [done|]. eexists. split; [by rewrite list_lookup_insert_eq|].
    cbn [nextp set_next]. split; [done|]. exists itn.
    split; [by rewrite list_lookup_insert_ne|]. by rewrite Hnn.
  - destruct Hc as (Hp & it & Hit & Hc). cbn [app] in *.
    apply NoDup_cons in Hnd as [Hna Hnd].
    apply not_elem_of_cons in Hnew as [Hne Hnew].
    split; [done|]. exists it. split.
    + rewrite list_lookup_insert_ne; [done|].
      intros ->. apply Hna, elem_of_app. right. by apply list_elem_of_singleton.
    + by apply IH.
Qed.

Lemma frame_at_set_next h a al nx itl :
  h !! al = Some (Some itl) ->
  frame_at (<[al := Some (set_next nx itl)]> h) a = frame_at h a.
Proof.
  intros Hl. unfold frame_at. destruct (decide (a = al)) as [->|Hne].
  - rewrite list_lookup_insert_eq by (by apply lookup_lt_Some in Hl). by rewrite Hl.
  - by rewrite list_lookup_insert_ne.
Qed.

Lemma snoc_cases {A} (l : list A) : l = [] \/ exists l' x, l = l' ++ [x].
Proof.
  induction l as [|a l IH] using rev_ind; [by left|]. right. by exists l, a.
Qed.

(** The number of items allocated and not freed. *)
Definition cell_live (c : option dlq_item) : Z :=
  match c with Some _ => 1 | None => 0 end.

Fixpoint live (h : list (option dlq_item)) : Z :=
  match h with
  | [] => 0
  | c :: rest => cell_live c + live rest
  end.

Lemma live_app h x : live (h ++ [x]) = live h + cell_live x.
Proof. induction h as [|c h IH]; cbn [app live]; lia. Qed.

Lemma live_insert h x y : forall a,
  h !! a = Some x -> live (<[a := y]> h) = live h - cell_live x + cell_live y.
Proof.
  induction h as [|c h IH]; intros [|a] Ha; try done.
  - injection Ha as ->. change (<[0%nat:=y]> (x :: h)) with (y :: h).
    cbn [live]. lia.
  - change (<[S a:=y]> (c :: h)) with (c :: <[a:=y]> h).
    cbn [live]. rewrite (IH a) by exact Ha. lia.
Qed.

(** What [dlq_rec_frame] does to a queue that holds the items at
    [q]. *)
Lemma dlq_rec_frame_run fuel chan subchan slice pp alevel fec_type retries spectrum
    st q :
  queue_rep st q ->
  0 <= chan < MAX_TOTAL_CHANS ->
  (length q < fuel)%nat ->
  let pnew := length (heap st) in
  let n := s_new_count st + 1 in
  exists st',
    dlq_rec_frame fuel chan subchan slice (Some pp) alevel fec_type retries spectrum st
    = Ok st'
    /\ queue_rep st' (q ++ [pnew])
    /\ length (heap st') = S (length (heap st))
    /\ frame_at (heap st') pnew
       = Some (AppCall chan subchan slice (Some pp) alevel fec_type retries
                 (strlcpy (default [] spectrum) (MAX_SUBCHANS * MAX_SLICERS + 1)))
    /\ (forall a, (a < pnew)%nat -> frame_at (heap st') a = frame_at (heap st) a)
    /\ live (heap st') = live (heap st) + 1
    /\ was_init st' = true
    /\ s_new_count st' = n
    /\ s_delete_count st' = s_delete_count st
    /\ released st' = released st
    /\ messages st'
       = messages st
         ++ (if n >? s_delete_count st + 50 then [MsgLeak n (s_delete_count st)]
             else [])
         ++ (if Z.of_nat (length q) + 1 >? 10
             then [MsgOutOfControl (Z.of_nat (length q) + 1)] else []).
Proof.
  intros (Hc & Hnd & Hinit) Hchan Hfuel pnew n.
  unfold dlq_rec_frame.
  destruct (Z.geb_spec chan 0) as [_|]; [|lia].
  destruct (Z.ltb_spec chan MAX_TOTAL_CHANS) as [_|]; [|lia]. cbn [andb negb].
  fold pnew. fold n.
  set (item := DlqItem None chan subchan slice (Some pp) alevel fec_type retries
                 (strlcpy (default [] spectrum) (MAX_SUBCHANS * MAX_SLICERS + 1)) None).
  set (leak := if n >? s_delete_count st + 50 then [MsgLeak n (s_delete_count st)]
               else []).
  assert (Hnew : pnew ∉ q).
  { intros Hin. pose proof (is_chain_lt _ _ _ _ Hc Hin). unfold pnew in *. lia. }
  assert (Hcell : (heap st ++ [Some item]) !! pnew = Some (Some item)).
  { unfold pnew. by rewrite lookup_app_r, Nat.sub_diag by lia. }
  assert (Hfresh : forall a, (a < pnew)%nat ->
            (<[pnew := Some item]> (heap st ++ [Some item])) !! a = heap st !! a).
  { intros a Ha. rewrite list_lookup_insert_ne by lia.
    apply lookup_app_l. unfold pnew in Ha. lia. }
  unfold append_to_queue, init_once. cbn [was_init heap queue_head].
  destruct (snoc_cases q) as [->|(q0 & al & ->)].
  - (* an empty queue *)
    assert (Hhead : (if was_init st then queue_head st else None) = None).
    { destruct (was_init st); [exact Hc|done]. }
    destruct (was_init st) eqn:Hwi; cbn [heap queue_head dlq_init init_once];
      rewrite Hcell; cbn [set_next nextp di_chan di_subchan di_slice di_pp di_alevel
        di_fec_type di_retries di_spectrum di_txdata item];
      fold item; cbn in Hc; rewrite ?Hc;
      (eexists; split; [reflexivity|]);
      change (1 >? 10) with false; cbv iota;
      change (set_next None item) with item;
      change (Z.of_nat (length (@nil nat)) + 1 >? 10) with false; cbv iota;
      unfold queue_rep;
      cbn [set_head set_heap print heap queue_head was_init s_new_count
           s_delete_count messages released app is_chain];
      (split; [split;
         [split; [done|]; exists item;
          split; [by rewrite list_lookup_insert_eq by (rewrite length_app; cbn; lia)|done]
         |split; [apply NoDup_singleton|done]]|]);
      (split; [rewrite length_insert, length_app; cbn; lia|]);
      (split; [unfold frame_at;
               by rewrite list_lookup_insert_eq by (rewrite length_app; cbn; lia)|]);
      (split; [intros a Ha; unfold frame_at; by rewrite Hfresh|]);
      (split; [rewrite (live_insert _ (Some item)) by done;
               rewrite live_app; cbn [cell_live]; lia|]);
      repeat split; by rewrite ?app_nil_r.
  - (* behind the last item *)
    assert (Hwi : was_init st = true).
    { destruct (was_init st); [done|]. specialize (Hinit eq_refl).
      by destruct q0. }
    rewrite Hwi. cbn [heap queue_head]. rewrite Hcell.
    set (h1 := <[pnew := Some (set_next None item)]> (heap st ++ [Some item])).
    assert (Hc1 : is_chain h1 (queue_head st) (q0 ++ [al])).
    { apply is_chain_insert; [|done]. by apply is_chain_app_new. }
    rewrite length_app in Hfuel. cbn [length] in Hfuel.
    destruct (find_last_chain h1 al q0 (queue_head st) fuel 2 Hc1 ltac:(lia))
      as (qh & Hqh & Hrun).
    rewrite Hqh in Hc, Hc1 |- *. rewrite Hrun.
    assert (Hal : al ∈ q0 ++ [al])
      by (apply elem_of_app; right; by apply list_elem_of_singleton).
    pose proof (is_chain_lt _ _ _ _ Hc Hal) as Hlt.
    assert (Hl : exists itl, h1 !! al = Some (Some itl)).
    { destruct (is_chain_last _ _ _ _ Hc1) as (itl & Hitl & _). by exists itl. }
    destruct Hl as (itl & Hl). rewrite Hl.
    assert (Hn1 : h1 !! pnew = Some (Some item)).
    { unfold h1. by rewrite list_lookup_insert_eq by (rewrite length_app; cbn; lia). }
    eexists. split; [reflexivity|].
    replace (Z.of_nat (length (q0 ++ [al])) + 1) with (2 + Z.of_nat (length q0))
      by (rewrite length_app; cbn [length]; lia).
    set (msg := if 2 + Z.of_nat (length q0) >? 10
                then [MsgOutOfControl (2 + Z.of_nat (length q0))] else []).
    assert (Hfin : forall s,
      (if 2 + Z.of_nat (length q0) >? 10
       then print [MsgOutOfControl (2 + Z.of_nat (length q0))] s else s)
      = print msg s).
    { intros s. unfold msg. destruct (_ >? 10); [done|].
      destruct s; unfold print; cbn. by rewrite app_nil_r. }
    rewrite Hfin. unfold queue_rep.
    cbn [print set_heap heap queue_head was_init s_new_count s_delete_count
           messages released].
    split; [split; [|split]|].
    + rewrite <- app_assoc. cbn [app].
      by apply (is_chain_snoc h1 al itl pnew item).
    + apply NoDup_app. split; [done|]. split; [|apply NoDup_singleton].
      intros a Ha Ha'. apply list_elem_of_singleton in Ha'. by subst.
    + done.
    + split; [unfold h1; rewrite !length_insert, length_app; cbn; lia|].
      split; [by rewrite frame_at_set_next; unfold frame_at; rewrite ?Hn1|].
      split; [intros a Ha; rewrite frame_at_set_next by done;
              unfold frame_at, h1; by rewrite Hfresh|].
      split.
      { rewrite (live_insert _ _ _ _ Hl). unfold h1.
        rewrite (live_insert _ (Some item)) by done.
        rewrite live_app. cbn [cell_live]. lia. }
      repeat split. by rewrite <- app_assoc.
Qed.

(** What [dlq_remove] does to a queue that holds the items at [q]. *)
Lemma dlq_remove_run st q :
  queue_rep st q ->
  exists st',
    dlq_remove st = Ok (head q, st')
    /\ queue_rep st' (tail q)
    /\ heap st' = heap st
    /\ was_init st' = true
    /\ s_new_count st' = s_new_count st
    /\ s_delete_count st' = s_delete_count st
    /\ messages st' = messages st
    /\ released st' = released st.
Proof.
  intros (Hc & Hnd & Hinit). unfold dlq_remove, init_once.
  destruct (was_init st) eqn:Hwi.
  - destruct q as [|a q].
    + cbn in Hc. rewrite Hc. exists st. repeat split; done.
    + destruct Hc as (Hp & it & Hit & Hc). rewrite Hp, Hit.
      eexists. split; [reflexivity|].
      cbn [tail set_head heap queue_head was_init s_new_count s_delete_count
             messages released].
      apply NoDup_cons in Hnd as [_ Hnd]. unfold queue_rep.
      cbn [set_head heap queue_head was_init]. rewrite Hwi. repeat split; done.
  - rewrite (Hinit eq_refl). cbn [dlq_init queue_head].
    eexists. split; [reflexivity|]. repeat split; try done. apply NoDup_nil. done.
Qed.



(** The counters agree with the heap. *)
Definition counters_ok (st : dlq_state) : Prop :=
  s_new_count st - s_delete_count st = live (heap st).

(** What [dlq_delete] does to an item that was taken out of the
    queue. *)
Lemma dlq_delete_run st q p it :
  queue_rep st q ->
  heap st !! p = Some (Some it) ->
  p ∉ q ->
  exists st',
    dlq_delete (Some p) st = Ok st'
    /\ queue_rep st' q
    /\ heap st' = <[p := None]> (heap st)
    /\ live (heap st') = live (heap st) - 1
    /\ s_new_count st' = s_new_count st
    /\ s_delete_count st' = s_delete_count st + 1
    /\ released st'
       = released st ++ match di_pp it with Some pp => [pp] | None => [] end.
Proof.
  intros (Hc & Hnd & Hinit) Hit Hp. unfold dlq_delete. rewrite Hit.
  eexists. split; [reflexivity|].
  assert (Hlive : live (<[p := None]> (heap st)) = live (heap st) - 1)
    by (rewrite (live_insert _ _ _ _ Hit); cbn [cell_live]; lia).
  unfold queue_rep.
  destruct (di_txdata it) as [c|]; [unfold cdata_delete; destruct (negb _)|];
    cbn [print set_heap heap queue_head was_init s_new_count s_delete_count
           released];
    (split; [split; [by apply is_chain_insert|done]|]); done.
Qed.



Lemma land_lnot_127 x : Z.land x (Z.lnot 0x7f) = 128 * (x / 128).
Proof.
  change 0x7f with (Z.ones 7).
  rewrite <- Z.ldiff_land, Z.ldiff_ones_r, Z.shiftl_mul_pow2, Z.shiftr_div_pow2 by lia.
  change (2 ^ 7) with 128. lia.
Qed.

(** X20. The size of a data block.  For a length from 0 to 2^31 - 128, when
    [malloc] gives the block, [cdata_new] returns a block whose [size]
    is the length rounded up to the next multiple of 128, so that its
    assertion holds, with the magic number set; without data the block
    is [size] question marks, with data its first [len] bytes are those
    of the data and the rest was never written.  When [malloc] gives no
    block the program exits.  A negative length stops the program, at
    the assertion if not before; and so does a length above 2^31 - 128,
    for which [len + 127] wraps around to a negative size. *)
Theorem cdata_new_rounds_up (malloc_ok : Z -> bool) (pid : Z)
    (data : option (list Z)) (len count : Z) :
  let size := 128 * ((len + 127) / 128) in
  (0 <= len <= 2 ^ 31 - 128 ->
   (forall d, data = Some d -> len <= Z.of_nat (length d)) ->
   (malloc_ok size = true ->
    exists c,
      cdata_new malloc_ok pid data len count = Ok (c, count + 1)
      /\ cd_magic c = TXDATA_MAGIC /\ cd_pid c = pid /\ cd_len c = len
      /\ cd_size c = size
      /\ cd_size c mod 128 = 0
      /\ len <= cd_size c < len + 128
      /\ Z.of_nat (length (cd_data c)) = cd_size c
      /\ (data = None -> cd_data c = replicate (Z.to_nat (cd_size c)) (Some 63))
      /\ (forall d, data = Some d ->
            take (Z.to_nat len) (cd_data c) = map Some (take (Z.to_nat len) d)
            /\ drop (Z.to_nat len) (cd_data c)
               = replicate (Z.to_nat (cd_size c - len)) None))
   /\ (malloc_ok size = false -> cdata_new malloc_ok pid data len count = Abort))
  /\ (len < 0 -> cdata_new malloc_ok pid data len count = Abort)
  /\ (2 ^ 31 - 128 < len -> cdata_new malloc_ok pid data len count = Abort).
Proof.
  intros size. unfold cdata_new. rewrite land_lnot_127.
  split; [|split].
  - intros Hlen Hdata. rewrite wrap32_small by lia. fold size.
    assert (Hsize : len <= size < len + 128).
    { unfold size. pose proof (Z.div_mod (len + 127) 128 ltac:(lia)).
      pose proof (Z.mod_pos_bound (len + 127) 128 ltac:(lia)). lia. }
    split; [|by intros ->].
    intros ->. cbn [negb].
    destruct (Z.geb_spec len 0) as [_|]; [|lia].
    destruct (Z.leb_spec len size) as [_|]; [|lia]. cbn [andb negb].
    assert (Hmod : size mod 128 = 0)
      by (unfold size; rewrite Z.mul_comm; apply Z.mod_mul; lia).
    destruct data as [d|].
    + specialize (Hdata d eq_refl).
      destruct (Z.ltb_spec (Z.of_nat (length d)) len) as [|_]; [lia|].
      eexists. split; [reflexivity|]. cbn [cd_magic cd_pid cd_len cd_size cd_data].
      assert (Hl : length (map Some (take (Z.to_nat len) d)) = Z.to_nat len)
        by (rewrite length_map, length_take; lia).
      repeat split; try done; try lia.
      * rewrite length_app, Hl, length_replicate. lia.
      * injection H as <-. by rewrite <- Hl at 1; rewrite take_app_length.
      * injection H as <-. by rewrite <- Hl at 1; rewrite drop_app_length.
    + eexists. split; [reflexivity|]. cbn [cd_magic cd_pid cd_len cd_size cd_data].
      repeat split; try done; try lia.
      rewrite length_replicate. lia.
  - intros Hneg. destruct (malloc_ok _); [|done]. cbn [negb].
    destruct (Z.geb_spec len 0) as [|_]; [lia|]. done.
  - intros Hbig. destruct (malloc_ok _); [|done]. cbn [negb].
    set (w := wrap32 (len + 127)).
    assert (Hw : w < len).
    { pose proof (wrap32_range (len + 127)). fold w in H.
      destruct (Z.lt_ge_cases len (2 ^ 31)) as [Hlt|Hge]; [|lia].
      unfold w, wrap32.
      replace (len + 127 + 2 ^ 31) with (len + 127 - 2 ^ 31 + 1 * 2 ^ 32) by lia.
      rewrite Z_mod_plus_full, Z.mod_small; lia. }
    assert (Hs : 128 * (w / 128) <= w).
    { pose proof (Z.div_mod w 128 ltac:(lia)).
      pose proof (Z.mod_pos_bound w 128 ltac:(lia)). lia. }
    destruct (Z.leb_spec len (128 * (w / 128))) as [|_]; [lia|].
    by rewrite andb_false_r.
Qed.

Lemma cdata_new_rounds_up_witness :
  (exists c,
     cdata_new (fun _ => true) 240 (Some [72; 105; 33]) 3 0 = Ok (c, 1)
     /\ cd_size c = 128
     /\ take 3 (cd_data c) = [Some 72; Some 105; Some 33])
  /\ cdata_new (fun size => size <? 65536) 240 None 70000 0 = Abort
  /\ cdata_new (fun _ => true) 240 None 2147483647 0 = Abort.
Proof.
  pose proof (cdata_new_rounds_up (fun _ => true) 240 (Some [72; 105; 33]) 3 0)
    as (Hok & _).
  pose proof (cdata_new_rounds_up (fun size => size <? 65536) 240 None 70000 0)
    as (Hmem & _).
  pose proof (cdata_new_rounds_up (fun _ => true) 240 None 2147483647 0)
    as (_ & _ & Hbig).
  cbv zeta in Hok, Hmem, Hbig.
  split; [|split].
  - destruct Hok as [Hok _]; [lia|intros d [= <-]; cbn; lia|].
    destruct (Hok eq_refl) as (c & Hrun & _ & _ & _ & Hsize & _ & _ & _ & _ & Hd).
    exists c. split; [exact Hrun|]. split; [exact Hsize|].
    exact (proj1 (Hd _ eq_refl)).
  - destruct Hmem as [_ Hmem]; [lia|discriminate|].
    apply Hmem. reflexivity.
  - apply Hbig. lia.
Defined.

End Dlq.

(** ** recv.c: the consumer of the queue *)

Module Recv.
Import Direwolf Rrbb HdlcRec2 Outcome Dlq.

(** One turn of the loop of [recv_process] in which
    [dlq_wait_while_empty] did not time out: the call of
    [app_process_rec_packet] it makes, if any. *)
Definition recv_process_turn (st : dlq_state) : run (option app_call * dlq_state) :=
  match dlq_remove st with
  | Ok (None, st') => Ok (None, st')
  | Ok (Some p, st') =>
      match heap st' !! p with
      | Some (Some it) => Ok (Some (call_of it), st')
      | _ => Abort
      end
  | Abort => Abort
  | NoFuel => NoFuel
  end.

(** What happens to the queue while the program runs: a demodulator
    hands a frame to [dlq_rec_frame], or [recv_process] makes a
    turn. *)
Inductive event : Type :=
| Frame (chan subchan slice : Z) (pp : list Z) (alevel : alevel_t)
        (fec_type : fec_type_t) (retries : Z) (spectrum : option (list Z))
| Turn.

Definition event_ok (e : event) : Prop :=
  match e with
  | Frame chan _ _ _ _ _ _ _ => 0 <= chan < MAX_TOTAL_CHANS
  | Turn => True
  end.

(** The frames handed in, as [app_process_rec_packet] should see
    them. *)
Definition frames_of (evs : list event) : list app_call :=
  flat_map (fun e => match e with
                     | Frame chan subchan slice pp alevel fec_type retries spectrum =>
                         [AppCall chan subchan slice (Some pp) alevel fec_type retries
                                  (strlcpy (default [] spectrum)
                                           (MAX_SUBCHANS * MAX_SLICERS + 1))]
                     | Turn => []
                     end) evs.

(** The events in order, with the calls of [app_process_rec_packet]
    made so far. *)
Fixpoint run_events (fuel : nat) (evs : list event) (st : dlq_state)
    (calls : list app_call) : run (dlq_state * list app_call) :=
  match evs with
  | [] => Ok (st, calls)
  | Frame chan subchan slice pp alevel fec_type retries spectrum :: rest =>
      match dlq_rec_frame fuel chan subchan slice (Some pp) alevel fec_type retries
              spectrum st with
      | Ok st' => run_events fuel rest st' calls
      | Abort => Abort
      | NoFuel => NoFuel
      end
  | Turn :: rest =>
      match recv_process_turn st with
      | Ok (c, st') =>
          run_events fuel rest st'
            (calls ++ match c with Some c => [c] | None => [] end)
      | Abort => Abort
      | NoFuel => NoFuel
      end
  end.

(** The arguments of the leak messages printed. *)
Definition leaks (msgs : list dlq_msg) : list (Z * Z) :=
  flat_map (fun m => match m with MsgLeak n d => [(n, d)] | _ => [] end) msgs.

(** The leak messages for the frames 51 to [n]. *)
Definition leak_list (n : nat) : list (Z * Z) :=
  map (fun k => (Z.of_nat k, 0)) (seq 51 (n - 50)).

Lemma leak_list_S n :
  leak_list (S n)
  = leak_list n ++ (if Z.of_nat n + 1 >? 50 then [(Z.of_nat n + 1, 0)] else []).
Proof.
  unfold leak_list. destruct (Z.gtb_spec (Z.of_nat n + 1) 50) as [Hgt|Hle].
  - replace (S n - 50)%nat with (S (n - 50)) by lia.
    rewrite seq_S, map_app. cbn [map]. do 3 f_equal. lia.
  - replace (S n - 50)%nat with 0%nat by lia.
    replace (n - 50)%nat with 0%nat by lia. done.
Qed.

Lemma frame_at_Some h a c :
  frame_at h a = Some c -> exists it, h !! a = Some (Some it) /\ call_of it = c.
Proof.
  unfold frame_at. destruct (h !! a) as [[it|]|]; intros [=]. by exists it.
Qed.

(** While nothing is deleted: [R] are the frames handed in so far, the
    first [m] of them were given to [app_process_rec_packet], the
    others are queued, and all of them are still allocated. *)
Definition frames_inv (st : dlq_state) (R : list app_call) (m : nat) : Prop :=
  queue_rep st (seq m (length R - m))
  /\ (m <= length R)%nat
  /\ length (heap st) = length R
  /\ (forall k c, R !! k = Some c -> frame_at (heap st) k = Some c)
  /\ s_new_count st = Z.of_nat (length R)
  /\ s_delete_count st = 0
  /\ released st = []
  /\ leaks (messages st) = leak_list (length R).

Lemma frames_inv_start : frames_inv dlq_start [] 0.
Proof.
  split; [apply queue_rep_start|]. repeat split; done.
Qed.

Lemma leaks_app a b : leaks (a ++ b) = leaks a ++ leaks b.
Proof. apply flat_map_app. Qed.

Lemma run_events_inv fuel evs : forall st R m,
  frames_inv st R m ->
  Forall event_ok evs ->
  (length R + length evs < fuel)%nat ->
  exists st' m',
    run_events fuel evs st (take m R)
    = Ok (st', take m' (R ++ frames_of evs))
    /\ frames_inv st' (R ++ frames_of evs) m'.
Proof.
  induction evs as [|e evs IH]; intros st R m Hinv Hok Hfuel.
  - exists st, m. cbn [run_events frames_of flat_map]. by rewrite app_nil_r.
  - apply Forall_cons in Hok as [He Hok].
    destruct Hinv as (Hq & Hm & Hlen & Hfr & Hnew & Hdel & Hrel & Hleak).
    destruct e as [chan subchan slice pp alevel fec_type retries spectrum|].
    + (* a frame arrives *)
      cbn [run_events]. cbn [length] in Hfuel.
      destruct (dlq_rec_frame_run fuel chan subchan slice pp alevel fec_type retries
                  spectrum st _ Hq He)
        as (st1 & -> & Hq1 & Hlen1 & Hf1 & Hold1 & _ & _ & Hnew1 & Hdel1 & Hrel1 & Hmsg1);
        [rewrite length_seq; lia|].
      set (c := AppCall chan subchan slice (Some pp) alevel fec_type retries
                  (strlcpy (default [] spectrum) (MAX_SUBCHANS * MAX_SLICERS + 1))).
      destruct (IH st1 (R ++ [c]) m) as (st' & m' & Hrun & Hinv').
      * rewrite Hlen in Hq1, Hf1, Hold1. unfold frames_inv.
        rewrite length_app. cbn [length].
        split; [|split; [lia|split; [lia|split; [|split; [lia|split; [lia|split]]]]]].
        -- replace (length R + 1 - m)%nat with (S (length R - m)) by lia.
           rewrite seq_S. by replace (m + (length R - m))%nat with (length R) by lia.
        -- intros k c' Hk. apply lookup_app_Some in Hk as [Hk|[Hge Hk]].
           ++ rewrite Hold1 by (by apply lookup_lt_Some in Hk). by apply Hfr.
           ++ destruct (k - length R)%nat as [|j] eqn:Ej; [|by destruct j].
              injection Hk as <-. by replace k with (length R) by lia.
        -- congruence.
        -- rewrite Hmsg1, !leaks_app, Hleak, Hdel, Hnew.
           replace (length R + 1)%nat with (S (length R)) by lia.
           rewrite leak_list_S. f_equal. change (0 + 50) with 50.
           destruct (_ >? 50), (_ >? 10); reflexivity.
      * done.
      * rewrite length_app. cbn [length]. lia.
      * exists st', m'. cbn [frames_of flat_map]. fold (frames_of evs). fold c.
        rewrite <- app_assoc in Hrun, Hinv'. cbn [app] in *.
        split; [|done]. rewrite <- Hrun. f_equal.
        by rewrite take_app_le by lia.
    + (* a turn of recv_process *)
      cbn [run_events]. unfold recv_process_turn. cbn [length] in Hfuel.
      change (frames_of (Turn :: evs)) with (frames_of evs).
      destruct (dlq_remove_run st _ Hq)
        as (st1 & -> & Hq1 & Hh1 & _ & Hnew1 & Hdel1 & Hmsg1 & Hrel1).
      destruct (decide (m = length R)) as [->|Hne].
      * (* nothing queued *)
        rewrite Nat.sub_diag in *. cbn [seq head tail] in *.
        rewrite app_nil_r.
        destruct (IH st1 R (length R)) as (st' & m' & Hrun & Hinv'); [|done|lia|].
        { unfold frames_inv. rewrite Nat.sub_diag.
          split; [exact Hq1|]. split; [lia|]. split; [congruence|].
          split; [by rewrite Hh1|]. repeat split; congruence. }
        by exists st', m'.
      * replace (length R - m)%nat with (S (length R - S m)) in * by lia.
        cbn [seq head tail] in *.
        destruct (lookup_lt_is_Some_2 R m ltac:(lia)) as (c & Hc).
        destruct (frame_at_Some _ _ _ (Hfr m c Hc)) as (it & Hit & Hcall).
        rewrite Hh1, Hit, Hcall.
        destruct (IH st1 R (S m)) as (st' & m' & Hrun & Hinv'); [|done|lia|].
        { unfold frames_inv.
          split; [exact Hq1|]. split; [lia|]. split; [congruence|].
          split; [by rewrite Hh1|]. repeat split; congruence. }
        exists st', m'. split; [|done]. rewrite <- Hrun. f_equal.
        by rewrite (take_S_r _ _ _ Hc).
Qed.


(** Fifty-two frames, each processed at once. *)
Definition busy_hour : list event :=
  concat (replicate 52 [Frame 0 0 0 [1; 2; 3] alevel_none fec_type_none 0 None; Turn]).


End Recv.

(** ** recv.c: from the audio device to the demodulators *)

Module RecvAudio.
Import Direwolf GenTone.

(** The value from which on [demod_get_sample] reports the end of the
    audio stream. *)
Definition END_OF_AUDIO : Z := 256 * 256.

(** The [for (c = 0; c < num_chan; c++)] loop of [recv_adev_thread],
    [n] turns left: [read i] is what the [i]-th call of
    [demod_get_sample] returns, [pos] the number of calls so far,
    [calls] the calls of [multi_modem_process_sample] so far. *)
Fixpoint for_chans (n : nat) (c first_chan : Z) (read : nat -> Z) (pos : nat)
    (eof : bool) (calls : list (Z * Z)) : bool * list (Z * Z) * nat :=
  match n with
  | O => (eof, calls, pos)
  | S n' =>
      let audio_sample := read pos in
      let eof := if audio_sample >=? END_OF_AUDIO then true else eof in
      for_chans n' (c + 1) first_chan read (S pos) eof
                (calls ++ [(first_chan + c, audio_sample)])
  end.

(** [recv_adev_thread] up to its [exit]: the calls of
    [multi_modem_process_sample] and the number of samples read, or
    [None] when [fuel] turns of the [while] loop did not reach the
    end. *)
Fixpoint recv_adev_thread (fuel : nat) (a num_chan : Z) (read : nat -> Z)
    (pos : nat) (calls : list (Z * Z)) : option (list (Z * Z) * nat) :=
  match fuel with
  | O => None
  | S fuel' =>
      let '(eof, calls', pos') :=
        for_chans (Z.to_nat num_chan) 0 (ADEVFIRSTCHAN a) read pos false calls in
      if eof then Some (calls', pos')
      else recv_adev_thread fuel' a num_chan read pos' calls'
  end.

(** The calls for the samples [pos .. pos + n - 1], given to the
    channels [c], [c + 1], ... of the device. *)
Definition round_calls (n : nat) (c first_chan : Z) (read : nat -> Z) (pos : nat)
  : list (Z * Z) :=
  map (fun i => (first_chan + c + Z.of_nat (i - pos), read i)) (seq pos n).

Lemma for_chans_run n : forall c first_chan read pos eof calls,
  for_chans n c first_chan read pos eof calls
  = (eof || existsb (fun i => read i >=? END_OF_AUDIO) (seq pos n),
     calls ++ round_calls n c first_chan read pos,
     (pos + n)%nat).
Proof.
  induction n as [|n IH]; intros c first_chan read pos eof calls.
  - cbn. by rewrite orb_false_r, app_nil_r, Nat.add_0_r.
  - cbn [for_chans]. rewrite IH. unfold round_calls. cbn [seq map existsb].
    rewrite <- app_assoc. cbn [app]. f_equal; [f_equal|lia].
    + destruct (read pos >=? END_OF_AUDIO); cbn; [by rewrite orb_true_r|done].
    + f_equal. rewrite Nat.sub_diag, Z.add_0_r. f_equal.
      apply map_ext_in. intros i Hi. apply in_seq in Hi. f_equal. lia.
Qed.

(** The sample with index [i] goes to the channel [i mod num_chan] of
    the device. *)
Definition calls_upto (first_chan : Z) (nc : nat) (read : nat -> Z) (n : nat)
  : list (Z * Z) :=
  map (fun i => (first_chan + Z.of_nat (i mod nc), read i)) (seq 0 n).

Lemma calls_upto_round first_chan nc read r :
  (0 < nc)%nat ->
  calls_upto first_chan nc read (r * nc)
  ++ round_calls nc 0 first_chan read (r * nc)
  = calls_upto first_chan nc read (S r * nc).
Proof.
  intros Hnc. unfold calls_upto, round_calls.
  replace (S r * nc)%nat with (r * nc + nc)%nat by lia.
  rewrite seq_app, map_app. f_equal. cbn [Nat.add].
  apply map_ext_in. intros i Hi. apply in_seq in Hi.
  f_equal. rewrite Z.add_0_r. do 2 f_equal.
  replace i with ((i - r * nc) + r * nc)%nat at 2 by lia.
  rewrite Nat.Div0.mod_add. symmetry. apply Nat.mod_small. lia.
Qed.

Lemma no_end_in_round read pos n :
  (forall i, (i < pos + n)%nat -> read i < END_OF_AUDIO) ->
  existsb (fun i => read i >=? END_OF_AUDIO) (seq pos n) = false.
Proof.
  intros H. apply not_true_is_false. intros Hex.
  apply existsb_exists in Hex as (i & Hi & Hge). apply in_seq in Hi.
  specialize (H i ltac:(lia)). lia.
Qed.

Lemma recv_adev_thread_rounds a num_chan read e fuel : forall r,
  0 < num_chan ->
  let nc := Z.to_nat num_chan in
  (forall i, (i < e)%nat -> read i < END_OF_AUDIO) ->
  END_OF_AUDIO <= read e ->
  (r * nc <= e)%nat ->
  (e / nc - r < fuel)%nat ->
  recv_adev_thread fuel a num_chan read (r * nc)
    (calls_upto (ADEVFIRSTCHAN a) nc read (r * nc))
  = Some (calls_upto (ADEVFIRSTCHAN a) nc read (S (e / nc) * nc), (S (e / nc) * nc)%nat).
Proof.
  induction fuel as [|fuel IH]; intros r Hpos nc Hbefore Hend Hr Hfuel; [lia|].
  specialize (IH (S r) Hpos). cbv zeta in IH. fold nc in IH.
  assert (Hnc : (0 < nc)%nat) by (unfold nc; lia).
  cbn [recv_adev_thread]. fold nc. rewrite for_chans_run, calls_upto_round by done.
  cbn [orb].
  pose proof (Nat.div_mod_eq e nc) as Hdm.
  pose proof (Nat.mod_upper_bound e nc ltac:(lia)) as Hm.
  destruct (decide (e < S r * nc)%nat) as [Hin|Hout].
  - (* the end of the stream is in this round *)
    assert (Hq : (e / nc = r)%nat) by nia.
    assert (Hex : existsb (fun i => read i >=? END_OF_AUDIO) (seq (r * nc) nc) = true).
    { apply existsb_exists. exists e. split; [apply in_seq; lia|lia]. }
    rewrite Hex, Hq. f_equal. f_equal. lia.
  - rewrite no_end_in_round by (intros i Hi; apply Hbefore; lia).
    replace (r * nc + nc)%nat with (S r * nc)%nat by lia.
    assert (Hq : (S r <= e / nc)%nat) by (apply Nat.div_le_lower_bound; lia).
    apply IH; try done; lia.
Qed.

(** X22. The end of the audio stream.  For a device with [num_chan >= 1]
    channels, when the first sample that marks the end of the stream
    is the one with index [e], the thread reads samples in rounds of
    [num_chan] up to the end of the round with the mark, and gives
    every sample read to [multi_modem_process_sample], the mark itself
    and the samples read after it in that round included; the sample
    with index [i] goes to channel [ADEVFIRSTCHAN(a) + i mod num_chan].
    With [num_chan <= 0] the thread reads nothing and never comes to
    its end. *)
Theorem recv_adev_thread_reads_whole_rounds (a num_chan : Z) (read : nat -> Z)
    (e : nat) :
  (0 < num_chan ->
   (forall i, (i < e)%nat -> read i < END_OF_AUDIO) ->
   END_OF_AUDIO <= read e ->
   forall fuel, (e / Z.to_nat num_chan < fuel)%nat ->
   let nc := Z.to_nat num_chan in
   let n := (S (e / nc) * nc)%nat in
   recv_adev_thread fuel a num_chan read 0 []
   = Some (map (fun i => (ADEVFIRSTCHAN a + Z.of_nat (i mod nc), read i)) (seq 0 n), n)
   /\ (e < n <= e + nc)%nat)
  /\ (num_chan <= 0 -> forall fuel, recv_adev_thread fuel a num_chan read 0 [] = None).
Proof.
  split.
  - intros Hpos Hbefore Hend fuel Hfuel nc n.
    assert (Hnc : (0 < nc)%nat) by (unfold nc; lia).
    split.
    + apply (recv_adev_thread_rounds a num_chan read e fuel 0%nat); try done; lia.
    + pose proof (Nat.div_mod_eq e nc) as Hdm.
      pose proof (Nat.mod_upper_bound e nc ltac:(lia)) as Hm.
      unfold n. nia.
  - intros Hle fuel. generalize (@nil (Z * Z)). generalize 0%nat.
    induction fuel as [|fuel IH]; intros pos calls; [done|].
    cbn [recv_adev_thread]. replace (Z.to_nat num_chan) with 0%nat by lia.
    cbn [for_chans]. apply IH.
Qed.

(** A stereo device whose stream ends after three samples. *)
Definition short_stream (i : nat) : Z :=
  match i with
  | 0%nat => 100 | 1%nat => -200 | 2%nat => 300 | _ => END_OF_AUDIO
  end.

Lemma recv_adev_thread_reads_whole_rounds_witness :
  recv_adev_thread 2 1 2 short_stream 0 []
  = Some ([(2, 100); (3, -200); (2, 300); (3, END_OF_AUDIO)], 4%nat).
Proof.
  refine (proj1 (proj1 (recv_adev_thread_reads_whole_rounds 1 2 short_stream 3)
                   _ _ _ 2%nat _)).
  - lia.
  - intros [|[|[|i]]] Hi; cbn; unfold END_OF_AUDIO; lia.
  - unfold short_stream, END_OF_AUDIO. lia.
  - vm_compute. lia.
Defined.

End RecvAudio.

(** ** gen_packets.c: the audio file *)

Module AudioFile.
Import Direwolf Outcome.

(** [struct wav_header]; the four tags hold character codes. *)
Record wav_header : Type := WavHeader {
  riff : list Z;
  filesize : Z;
  wave : list Z;
  fmt : list Z;
  fmtsize : Z;
  wformattag : Z;
  nchannels : Z;
  nsamplespersec : Z;
  navgbytespersec : Z;
  nblockalign : Z;
  wbitspersample : Z;
  data : list Z;
  datasize : Z
}.

(** [sizeof(header)]: five [int], four [short] and four tags of four
    characters. *)
Definition SIZEOF_HEADER : Z := 44.

(** Conversion of an [int] to [short]. *)
Definition to_short (x : Z) : Z := (x + 32768) mod 65536 - 32768.

(** The settings of [pa->adev[0]] that [audio_file_open] reads and
    writes. *)
Record adev_s : Type := Adev {
  num_channels : Z;
  samples_per_sec : Z;
  bits_per_sample : Z
}.

(** [out_fp] (whether it is not [NULL]), [header], [byte_count], the
    static [sample16] of [audio_put], the [seed] of [my_rand], and the
    file: the header at its start, if one was written, and the bytes
    after it. *)
Record file_state : Type := FileState {
  out_fp : bool;
  header : wav_header;
  byte_count : Z;
  sample16 : Z;
  seed : Z;
  written_header : option wav_header;
  written_data : list Z
}.

Section File.

(** audio.h, which is not part of the sources at hand, gives the
    defaults; [g_add_noise]; and the sample after
    [s += 5 * r * g_noise_level * 32767], a floating point computation
    that is left open here, as a function of the sample and of the
    result of [my_rand]. *)
Variables DEFAULT_NUM_CHANNELS DEFAULT_SAMPLES_PER_SEC DEFAULT_BITS_PER_SAMPLE : Z.
Variable g_add_noise : bool.
Variable noisy : Z -> Z -> Z.

(** [audio_file_open]: the result, the settings with the defaults
    filled in, and the new state; [fopen_ok] and [fwrite_ok] tell
    whether [fopen] and [fwrite] succeed. *)
Definition audio_file_open (fopen_ok fwrite_ok : bool) (pa : adev_s)
    (st : file_state) : run (Z * adev_s * file_state) :=
  let pa :=
    Adev (if num_channels pa =? 0 then DEFAULT_NUM_CHANNELS else num_channels pa)
         (if samples_per_sec pa =? 0 then DEFAULT_SAMPLES_PER_SEC
          else samples_per_sec pa)
         (if bits_per_sample pa =? 0 then DEFAULT_BITS_PER_SAMPLE
          else bits_per_sample pa) in
  if negb fopen_ok then
    Ok (-1, pa, FileState false (header st) (byte_count st) (sample16 st) (seed st)
                          (written_header st) (written_data st))
  else
    let nch := to_short (num_channels pa) in
    let bits := to_short (bits_per_sample pa) in
    let align := to_short (Z.quot bits 8 * nch) in
    let h := WavHeader [82; 73; 70; 70] 0 [87; 65; 86; 69] [102; 109; 116; 32] 16 1
                       nch (samples_per_sec pa) (align * samples_per_sec pa) align bits
                       [100; 97; 116; 97] 0 in
    if negb ((nch =? 1) || (nch =? 2)) then Abort
    else if negb fwrite_ok then
      Ok (-1, pa, FileState false h (byte_count st) (sample16 st) (seed st) None [])
    else
      Ok (0, pa, FileState true h 0 (sample16 st) (seed st) (Some h) []).

(** [audio_put]: the result and the new state; writing without an open
    file stops the program. *)
Definition audio_put (a c : Z) (st : file_state) : run (Z * file_state) :=
  if g_add_noise then
    if Z.land (byte_count st) 1 =? 0 then
      Ok (c, FileState (out_fp st) (header st) (byte_count st + 1) (Z.land c 0xff)
                       (seed st) (written_header st) (written_data st))
    else
      let sample16 :=
        to_short (Z.lor (sample16 st) (Z.land (Z.shiftl c 8) 0xff00)) in
      let seed := MyRand.my_rand (seed st) in
      let s := noisy sample16 seed in
      let s := if s >? 32767 then 32767 else s in
      let s := if s <? -32767 then -32767 else s in
      if negb (out_fp st) then Abort
      else
        Ok (Z.land (Z.shiftr s 8) 0xff,
            FileState (out_fp st) (header st) (byte_count st + 1) sample16 seed
                      (written_header st)
                      (written_data st ++ [Z.land s 0xff; Z.land (Z.shiftr s 8) 0xff]))
  else
    if negb (out_fp st) then Abort
    else
      Ok (c mod 256,
          FileState (out_fp st) (header st) (byte_count st + 1) (sample16 st) (seed st)
                    (written_header st) (written_data st ++ [c mod 256])).

(** The bytes given to [audio_put] one after the other. *)
Fixpoint audio_puts (a : Z) (cs : list Z) (st : file_state) : run file_state :=
  match cs with
  | [] => Ok st
  | c :: rest =>
      match audio_put a c st with
      | Ok (_, st') => audio_puts a rest st'
      | Abort => Abort
      | NoFuel => NoFuel
      end
  end.

(** [audio_file_close]. *)
Definition audio_file_close (fwrite_ok : bool) (st : file_state) : Z * file_state :=
  let h := header st in
  let h := WavHeader (riff h) (byte_count st + SIZEOF_HEADER - 8) (wave h) (fmt h)
                     (fmtsize h) (wformattag h) (nchannels h) (nsamplespersec h)
                     (navgbytespersec h) (nblockalign h) (wbitspersample h) (data h)
                     (byte_count st) in
  if negb (out_fp st) then
    (-1, FileState false h (byte_count st) (sample16 st) (seed st)
                   (written_header st) (written_data st))
  else if negb fwrite_ok then
    (-1, FileState false h (byte_count st) (sample16 st) (seed st)
                   (written_header st) (written_data st))
  else
    (0, FileState false h (byte_count st) (sample16 st) (seed st)
                  (Some h) (written_data st)).

(** What a sequence of [audio_put] does to an open file. *)
Lemma audio_puts_run a cs : forall st,
  out_fp st = true ->
  (g_add_noise = true -> Z.land (byte_count st) 1 = 0) ->
  exists st',
    audio_puts a cs st = Ok st'
    /\ out_fp st' = true
    /\ header st' = header st
    /\ written_header st' = written_header st
    /\ byte_count st' = byte_count st + Z.of_nat (length cs)
    /\ (g_add_noise = false ->
        written_data st' = written_data st ++ map (fun c => c mod 256) cs)
    /\ Z.of_nat (length (written_data st'))
       = Z.of_nat (length (written_data st))
         + (if g_add_noise then 2 * (Z.of_nat (length cs) / 2)
            else Z.of_nat (length cs)).
Proof.
  assert (Hodd : forall n, Z.land n 1 = 0 -> Z.land (n + 1) 1 = 1).
  { intros n Hn. change 1 with (Z.ones 1) in *. rewrite Z.land_ones in * by lia.
    change (2 ^ 1) with 2 in *. rewrite <- Z.add_mod_idemp_l, Hn by lia. done. }
  assert (Heven : forall n, Z.land n 1 = 0 -> Z.land (n + 1 + 1) 1 = 0).
  { intros n Hn. change 1 with (Z.ones 1) in *. rewrite Z.land_ones in * by lia.
    change (2 ^ 1) with 2 in *. replace (n + Z.ones 1 + Z.ones 1) with (n + 1 * 2)
      by (change (Z.ones 1) with 1; lia).
    by rewrite Z.mod_add by lia. }
  destruct g_add_noise eqn:Hnoise.
  - (* with noise the bytes go out in pairs *)
    intros st. assert (Hle : (length cs <= length cs)%nat) by lia. revert Hle.
    generalize (length cs) at 2. intros n. revert cs st.
    induction n as [|n IH]; intros [|c1 [|c2 cs]] st Hle Hopen Hcount;
      try (cbn in Hle; lia); specialize (Hcount eq_refl).
    + exists st. cbn [audio_puts length]. change (Z.of_nat 0 / 2) with 0.
      repeat split; try done; lia.
    + exists st. cbn [audio_puts length]. change (Z.of_nat 0 / 2) with 0.
      repeat split; try done; lia.
    + cbn [audio_puts]. unfold audio_put. rewrite Hnoise, Hcount. cbn [Z.eqb].
      eexists. split; [reflexivity|].
      cbn [out_fp header written_header byte_count written_data length].
      change (Z.of_nat 1 / 2) with 0. repeat split; try done; lia.
    + cbn [audio_puts]. unfold audio_put at 1. rewrite Hnoise, Hcount. cbn [Z.eqb].
      unfold audio_put at 1. rewrite Hnoise.
      cbn [byte_count out_fp sample16 seed header written_header written_data].
      rewrite (Hodd _ Hcount), Hopen. cbn [Z.eqb negb].
      edestruct (IH cs) as (st' & Hrun & Ho & Hh & Hw & Hc & _ & Hl);
        [cbn in Hle; lia| | |rewrite Hrun].
      * reflexivity.
      * intros _. cbn [byte_count]. by apply Heven.
      * exists st'. split; [done|].
        cbn [out_fp header written_header byte_count written_data] in *.
        rewrite length_app in Hl. cbn [length] in *.
        repeat split; try done; try lia.
        replace (Z.of_nat (S (S (length cs)))) with (Z.of_nat (length cs) + 1 * 2)
          by lia.
        rewrite Z.div_add by lia. lia.
  - (* without noise every byte goes out *)
    clear Hodd Heven. induction cs as [|c cs IH]; intros st Hopen _.
    + exists st. cbn. rewrite app_nil_r. repeat split; try done; lia.
    + cbn [audio_puts]. unfold audio_put. rewrite Hnoise, Hopen. cbn [negb].
      edestruct IH as (st' & Hrun & Ho & Hh & Hw & Hc & Hd & Hl);
        [| |rewrite Hrun]; [reflexivity|done|].
      exists st'. split; [done|].
      cbn [out_fp header written_header byte_count written_data] in *.
      rewrite length_app in Hl. cbn [length map] in *.
      repeat split; try done; try lia.
      intros _. by rewrite Hd, <- app_assoc.
Qed.


End File.


End AudioFile.

(** ** hdlc_send.c: a frame sent with a bad FCS *)

Module BadFcs.
Import Direwolf Bits BitsFacts HdlcSend HdlcSendFacts.

Lemma bits_lsb_testbit n : forall x,
  bits_lsb n x = map (fun i => Z.testbit x (Z.of_nat i)) (seq 0 n).
Proof.
  induction n as [|n IH]; intros x; [done|].
  cbn [bits_lsb seq map]. rewrite IH, <- seq_shift, map_map, Z.bit0_odd.
  f_equal. apply map_ext. intros i.
  rewrite Z.shiftr_spec by lia. f_equal. lia.
Qed.

(** The low eight bits of [~v >> k] are those of [v >> k], each
    inverted. *)
Lemma octet_bits_lnot v k :
  0 <= k ->
  octet_bits (Z.land (Z.shiftr (Z.lnot v) k) 0xff)
  = map negb (octet_bits (Z.land (Z.shiftr v k) 0xff)).
Proof.
  intros Hk. unfold octet_bits. rewrite !bits_lsb_testbit, map_map.
  apply map_ext_in. intros i Hi. apply in_seq in Hi.
  change 0xff with (Z.ones 8).
  rewrite !Z.land_spec, !Z.shiftr_spec, Z.lnot_spec by lia.
  rewrite Z.ones_spec_low by lia. by rewrite !andb_true_r.
Qed.

(** X24. With [bad_fcs] set the FCS goes out with every one of its sixteen
    bits inverted: the frame differs from the good one in the FCS
    only, and there in every bit, whatever the octets of the frame
    are. *)
Theorem bad_fcs_inverts_every_fcs_bit (fbuf : list Z) (bad_fcs : Z) (s : send_state) :
  truthy bad_fcs = true ->
  let '(_, _, sent) := ax25_only_hdlc_send_frame fbuf bad_fcs s in
  let '(_, _, good) := ax25_only_hdlc_send_frame fbuf 0 s in
  let fcs_bits := octets_bits (fcs_octets fbuf 0) in
  length fcs_bits = 16%nat
  /\ data_bits good
     = flag_bits ++ stuff_bits 0 (octets_bits fbuf ++ fcs_bits) ++ flag_bits
  /\ data_bits sent
     = flag_bits ++ stuff_bits 0 (octets_bits fbuf ++ map negb fcs_bits) ++ flag_bits.
Proof.
  intros Hbad. rewrite !send_frame_run, !data_bits_mk_events.
  unfold frame_bits, frame_body_bits. rewrite !octets_bits_app.
  split; [|split; [done|]].
  - by rewrite octets_bits_length.
  - do 3 f_equal. unfold fcs_octets. rewrite Hbad. change (truthy 0) with false.
    cbv iota. unfold octets_bits. cbn [flat_map]. rewrite !app_nil_r, map_app.
    pose proof (octet_bits_lnot (Fcs.fcs_calc fbuf) 0 ltac:(lia)) as H0.
    rewrite !Z.shiftr_0_r in H0.
    by rewrite H0, (octet_bits_lnot _ 8) by lia.
Qed.

Lemma bad_fcs_inverts_every_fcs_bit_witness :
  let '(_, _, sent) := ax25_only_hdlc_send_frame [0x82; 0xa0] 1 (SendState 0 0 0) in
  let '(_, _, good) := ax25_only_hdlc_send_frame [0x82; 0xa0] 0 (SendState 0 0 0) in
  let fcs_bits := octets_bits (fcs_octets [0x82; 0xa0] 0) in
  length fcs_bits = 16%nat
  /\ data_bits good
     = flag_bits ++ stuff_bits 0 (octets_bits [0x82; 0xa0] ++ fcs_bits) ++ flag_bits
  /\ data_bits sent
     = flag_bits ++ stuff_bits 0 (octets_bits [0x82; 0xa0] ++ map negb fcs_bits)
       ++ flag_bits.
Proof.
  apply (bad_fcs_inverts_every_fcs_bit [0x82; 0xa0] 1 (SendState 0 0 0)). reflexivity.
Defined.

End BadFcs.
